(* ===== verification/_CoqProject ===== *)
-Q . S2P
Prelude.v
JsString.v
Regex.v
RegexParse.v
JsValue.v
Escape.v
Frontmatter.v
Md5.v
World.v
Http.v
Redact.v
Persist.v
Metadata.v
Images.v
Publish.v
Pipeline.v
Settings.v
Modal.v
Plugin.v
Lifecycle.v
Session.v
