(* ===== verification/Prelude.v ===== *)
(** * obsidian-emlog: a verification development of [src/obsidian-emlog/main.ts]

    The program is an Obsidian plugin that publishes the active note to an
    EMLOG blog through the blog's REST API.  [ObsidianEmlogPlugin] keeps the
    settings, a map from note paths to article ids and the category list;
    [publishCore] reads the note and its front matter, derives the fields
    of the article, rewrites local image links, calls [article_update] when
    the map holds an id for the note and [article_post] otherwise, records
    the new id, runs the post action and writes [emlog_article_id], [url]
    and the other keys back into the note's front matter.  Every request
    goes through [httpForm] / [httpGet], which authenticate, try two URL
    forms and aggregate the errors.  [PublishModal] is a dialog that lets
    the user override the derived fields before the same [publishCore].
    [onload] loads the saved state and registers the handlers through which
    the host drives everything else: commands and the ribbon icon, the
    editor and file menus, the active-leaf event, the side panel
    [EmlogPanelView] and the settings tab [EmlogSettingTab].

    ** Files, in dependency order

    - [Prelude.v] (this file): strings as lists of UTF-16 code units
      ([jstr], literals ["..."%js]), the [js_scope] notations, the shared
      tactics and the hint database [emlog].
    - Runtime semantics the code relies on, written from the ECMAScript
      specification and the libraries (they are not code of the
      repository): [JsString.v] (String methods), [Regex.v] (a backtracking
      matcher [mt] in the style of the specification's Matchers, [exec_all],
      [js_replace]), [RegexParse.v] ([new RegExp], [new_regexp]),
      [JsValue.v] (loosely typed values [jsval]: truthiness, [??], [||],
      [?.], [String()], [Number()], key order of objects), [Md5.v]
      ([blueimp-md5] on 32-bit words with their wrap-around).
    - [World.v]: the plugin fields and the host as one record [world]
      (vault, metadata cache, persisted data, the network as an oracle list
      of outcomes plus the log of issued requests, notices, console,
      clipboard, clock); the monad [M] of state and JavaScript exceptions
      with [do x <- m ; k] in [plugin_scope]; the frame relations
      [same_on] / [grows] and the combinator lemmas proving that an
      operation is [stable] under them (hint database [stable]).
    - [Escape.v]: [escapeRegExp] (lines 844-846).
    - [Frontmatter.v]: the text transformation of [upsertFrontmatterKeys]
      (lines 577-614).
    - [Http.v]: [debug] and [redactString] (162-191), [httpForm] and
      [httpGet] (616-786) and their shared steps.
    - [Redact.v]: the key pass of [redactString] against a reference
      literal replacement [replace_all_lit].
    - [Persist.v]: [loadSettings] and [saveState] (130-156).
    - [Metadata.v]: [deriveTitle], [deriveExcerpt], [removeFromContent],
      [formatDate], [flattenSorts], [getSortNameByIdPublic] (206-281,
      522-575).
    - [Images.v]: [processImages], [resolveFile], [joinPath] (788-842),
      over the typeclass [Uploader]; [plugin_uploader] is the plugin's own,
      whose [uploadBinary] is undefined.
    - [Publish.v]: the fields, the form parameters, the post action, the URL
      lookup, the header write-back, [publishNote] and
      [refreshSortOptions] (146-156, 265-312, 389-399, 422-548, 577-614).
    - [Pipeline.v]: [publishCore] (265-406) in a section over the
      [Uploader], with the theorems about a publish.
    - [Settings.v]: the settings tab (849-971): each control as an edit
      event [setting_edit] with its handler [apply_edit] (write the field,
      then [saveSettings]), the refreshes, the front-matter category label
      [sort_label], the category dropdown [populateSortDropdown] (550-562)
      as the list of its options, and the well-typedness [settings_wf].
    - [Modal.v]: the dialog (1013-1113): opening with the note's text and
      front matter, the edits of its inputs, its category select and
      refresh button, and the publish button with its overrides.
    - [Plugin.v]: [onload] (63-67), the active-leaf handler, the commands
      and the ribbon icon, the editor and file menus (63-126),
      [getActiveMarkdown], [publishFromContext], [publishCurrentNote], the
      selection search of [publishNote], [activatePanelView],
      [openPublishModal] (194-203, 408-479) and the side panel's buttons
      (973-1011); a handler that opens the dialog returns it ([dialog]:
      file, editor, fields).  What the host shows a handler (the active
      view, its editor, the open Markdown leaves) comes with the call as a
      record [ui].
    - [Lifecycle.v]: every host event is a constructor of [event] and
      [handle] its handler; [plugin_step] is one event, [run_events] a
      list of them in order, [reachable] the states after [onload] and any
      run; the invariant [plugin_inv] and the tracking of
      [lastMarkdownFile] over runs.
    - [Session.v]: the plugin with its open dialogs as state: host events
      add the dialog their handler opened, dialog events edit, refresh,
      publish (and then close) or close one.

    An [async] method is a function into [M]; [await] is [bind]; a
    [try]/[catch] is [catch].  A handler's guards and early returns are the
    branches of its definition.  Identifiers and structure follow the
    source; [Section Orchestrator] and [Section Rewriter] take the uploader
    as a section [Context].

    ** What is proved

    - The plugin as a whole ([Lifecycle.v], by rule induction over
      [plugin_step] from [onload] on data the plugin saved, with storage
      that takes its writes): in every
      reachable state a restart loads back exactly the current settings
      and identifier map; the settings are well typed (auth mode and post
      action among the values the code tests, the site address trimmed)
      and every stored id is truthy; the status bar shows a final status,
      never a progress one; and no handler writes the five settings the
      settings tab has no control for.  After any run of events the current-note command without an
      active view publishes the last Markdown file the run showed.
    - Entry points ([Plugin.v]): the editor and file menus publish the
      active note exactly as the commands do; the dialog opened by the
      command reads the editor, the one opened from the file menu the
      vault.
    - The dialogs as state ([Session.v]): the custom-publish command opens
      one dialog with the editor's text, an edit changes that dialog only,
      and its publish button publishes the text the editor shows at the
      click with the edited fields, as a non-draft, then closes it.
    - The settings tab ([Settings.v]): an option chosen in the category
      dropdown is found again by [getSortNameByIdPublic]; the label's live
      updates are registered once however often the tab is displayed.
    - The publish pipeline ([Pipeline.v]): the identifier map changes only
      at the published path, only on a create and only to a truthy id (an
      invariant proved with a preorder and the stability lemmas); the saved
      data stays in step with the map while the storage takes the writes
      (every change is followed by [saveState]); when it rejects the write
      after a create, the article exists, its id only in memory, the
      user is told the publish failed, and a restart forgets the id; a create answered with an id records exactly that id;
      an update sends the stored id; a create whose two request paths fail leaves the map and
      the note alone and shows the aggregated error; a publish
      leaves the settings alone and ends on a final status.
    - The request client ([Http.v]): [httpForm] and [httpGet] refine the
      contract "primary URL, else the fallback URL, else one error naming
      both"; the content-changing endpoints are always signed; the fallback
      answers when the primary fails; in sign mode the key is still sent.
    - Front matter ([Frontmatter.v]): the text after the header block is
      untouched, both with the cached position and with the scan; a note
      without a header gains one; a value containing [$&] is written with
      the old line spliced in (the replacement string's pattern).
    - Images ([Images.v]): the [exec] loops terminate; with the plugin's
      uploader the body is returned unchanged; with an uploader that
      answers, local images are uploaded and their links rewritten, remote
      ones left alone; for any uploader, the first loop uploads once per
      local occurrence, not once per path; [joinPath] returns
      a normalised path and is idempotent.
    - Metadata ([Metadata.v]): [removeFromContent] removes exactly the
      header block; without an [excerpt] key the excerpt is at most 150
      code units and ["..."]; [flattenSorts]
      is equivalent to the relational pre-order listing and is total;
      a category id stored as [String(id)] is looked up as the number
      [id] ([Number(String(z)) = z], proved in [JsValue.v]).
    - Redaction ([Redact.v]): the key pass of [redactString] is the
      literal replacement of the key by [***], never throws, and leaves no
      occurrence of a key without [*].
    - The other commands ([Publish.v]): [refreshSortOptions] never throws
      and leaves the flattened answer or an empty list in the cache;
      [publishNote] never throws, sends nothing for an empty selection and
      otherwise the signed [note_post] form, and reports the outcome.
    - Persistence ([Persist.v]): save then load gives back the settings and
      the map; legacy data migrates with an empty map.
    - [escapeRegExp] ([Escape.v]): equal to the character-wise escape, and
      [new RegExp] reads an escaped string back as its literal.
    - The dialog ([Modal.v]): publishing without edits sends the direct
      publish's fields, except that [defaultDraft] is honoured; a cover
      image or password emptied in the dialog comes back from the front
      matter.

    ** Fuel

    - The matcher: a quantifier at position [i] with minimum [mn] gets
      [mn + (len - i) + 1] iterations: each iteration consumes a unit or
      counts down the minimum (an empty iteration past the minimum is
      rejected), so the fuel is never the reason a match fails.
    - [search] and the [exec] loops of a global regex: [length + 2] steps,
      since each match that is not empty advances [lastIndex] and an empty
      match is detected and ends the loop ([exec_all] returns [None] there,
      where the JavaScript loop would not terminate; the theorems show this
      never happens for the patterns of the code).
    - The pattern parser: [4 * length + 8] calls, since every chain of
      four nested calls consumes a code unit.
    - [flattenSorts]: the nesting depth of the JSON value plus one, one unit
      per level of [children]; [flattenSorts_total] shows this never runs
      out.
    - [replace_all_lit] (the reference of [Redact.v]): the length of the
      text plus one, one unit per copied unit or replaced occurrence.
    - MD5: [md5_blocks] gets the length of the padded input, at least one
      unit per 64-byte block it consumes.

    ** Not modelled

    The DOM itself: a widget is the field it writes or the list of its
    options, and the registration calls of [onload] only make the handlers
    of [handle] reachable.  [display] of the settings tab returns the view
    after the category refresh, which the code renders twice.  The side
    panel's log line carries the locale- and clock-dependent
    [toLocaleTimeString()], so [panel_click] returns the messages without
    it; opening the settings window and revealing a leaf
    change nothing the plugin reads.  The integration tests under [tests/]
    talk to a live blog.  The host's API is the [world] record; [requestUrl]
    outcomes come from the oracle [w_net].  Numbers are the integral ones
    and [NaN]; a fractional or infinite number is outside the model.

    Persistence is modelled for the data the plugin itself writes and for
    the legacy format.  [loadData] may also return values of other types
    than [EmlogSettings] declares (a hand-edited data file): the code keeps
    them as they are and fails later, wherever a string method is called
    on a number.  The settings record of this development has the declared
    types, so [load_state] rejects such data instead (an exception where
    the code has none); modelling it would mean giving every setting the
    type of any JSON value and every use of a setting JavaScript's
    coercions.  Undeclared keys, which the spread copies and [saveState]
    writes back unread, are dropped. *)

From stdpp Require Export base list countable.
From Stdlib Require Export ZArith NArith Lia.
From Stdlib Require Import Strings.Byte.

(** ** JavaScript strings

    A JavaScript string is a sequence of UTF-16 code units: [length],
    [substring], [indexOf] and the regular-expression engine all count and
    index code units.  We model a string as [list N], one number per code
    unit, so that every list lemma applies.  Literals are written
    ["..."%js]: the UTF-8 bytes of the Rocq literal are decoded and re-encoded
    as UTF-16, so ["主路径"%js] has length 3, as in JavaScript. *)

Abbreviation jstr := (list N).

Inductive js_literal := JLNil | JLCons (c : N) (s : js_literal).

Definition cont_bits (b : Byte.byte) : N := N.land (Byte.to_N b) 63.

Definition is_cont (b : Byte.byte) : bool :=
  N.eqb (N.land (Byte.to_N b) 192) 128.

(** Code point [cp] as one or two UTF-16 code units, in front of [rest]. *)
Definition utf16_push (cp : N) (rest : js_literal) : js_literal :=
  if N.ltb cp 65536 then JLCons cp rest
  else let c := N.sub cp 65536 in
       JLCons (N.add 55296 (N.shiftr c 10))
              (JLCons (N.add 56320 (N.land c 1023)) rest).

Fixpoint js_of_utf8 (l : list Byte.byte) : option js_literal :=
  match l with
  | [] => Some JLNil
  | b1 :: r1 =>
    let n1 := Byte.to_N b1 in
    if N.ltb n1 128 then option_map (JLCons n1) (js_of_utf8 r1)
    else if N.ltb n1 192 then None
    else if N.ltb n1 224 then
      match r1 with
      | b2 :: r2 =>
        if is_cont b2 then
          option_map (utf16_push (N.lor (N.shiftl (N.land n1 31) 6) (cont_bits b2)))
                     (js_of_utf8 r2)
        else None
      | [] => None
      end
    else if N.ltb n1 240 then
      match r1 with
      | b2 :: b3 :: r3 =>
        if is_cont b2 && is_cont b3 then
          option_map (utf16_push (N.lor (N.shiftl (N.land n1 15) 12)
                                   (N.lor (N.shiftl (cont_bits b2) 6) (cont_bits b3))))
                     (js_of_utf8 r3)
        else None
      | _ => None
      end
    else
      match r1 with
      | b2 :: b3 :: b4 :: r4 =>
        if is_cont b2 && is_cont b3 && is_cont b4 then
          option_map (utf16_push (N.lor (N.shiftl (N.land n1 7) 18)
                                   (N.lor (N.shiftl (cont_bits b2) 12)
                                     (N.lor (N.shiftl (cont_bits b3) 6) (cont_bits b4)))))
                     (js_of_utf8 r4)
        else None
      | _ => None
      end
  end.

(** Printing: code units of the Basic Multilingual Plane back to UTF-8
    (surrogates are left to the list printer). *)
Definition utf8_of_unit (c : N) : option (list Byte.byte) :=
  if N.ltb c 128 then option_map (fun b => [b]) (Byte.of_N c)
  else if N.ltb c 2048 then
    match Byte.of_N (N.lor 192 (N.shiftr c 6)), Byte.of_N (N.lor 128 (N.land c 63)) with
    | Some b1, Some b2 => Some [b1; b2]
    | _, _ => None
    end
  else if N.leb 55296 c && N.ltb c 57344 then None
  else if N.ltb c 65536 then
    match Byte.of_N (N.lor 224 (N.shiftr c 12)),
          Byte.of_N (N.lor 128 (N.land (N.shiftr c 6) 63)),
          Byte.of_N (N.lor 128 (N.land c 63)) with
    | Some b1, Some b2, Some b3 => Some [b1; b2; b3]
    | _, _, _ => None
    end
  else None.

Fixpoint utf8_of_js (s : js_literal) : option (list Byte.byte) :=
  match s with
  | JLNil => Some []
  | JLCons c r =>
    match utf8_of_unit c, utf8_of_js r with
    | Some b, Some t => Some (b ++ t)
    | _, _ => None
    end
  end.

Declare Scope js_scope.
Delimit Scope js_scope with js.
#[warnings="-via-type-mismatch"]
String Notation list js_of_utf8 utf8_of_js
  (via js_literal mapping [[nil] => JLNil, [cons] => JLCons]) : js_scope.

(** ** Proof automation shared by the development *)

Create HintDb emlog.
Create Rewrite HintDb emlog.

Ltac invc H := inversion H; subst; clear H.

(** A decidable statement about literal data (membership in a literal
    list of strings or code units), by evaluation. *)
Ltac decide_in := match goal with |- ?P => apply (bool_decide_unpack P); vm_compute; exact I end.

(** Case analysis on every [if]/[match] whose scrutinee is a boolean test
    or an option in the goal. *)
Ltac destruct_ifs :=
  repeat match goal with
  | |- context [if ?b then _ else _] => destruct b eqn:?
  end.
