(* ===== verification/JsString.v ===== *)
(** * JavaScript string built-ins used by [main.ts]

    [String.prototype] methods as the ECMAScript specification defines them,
    over strings of UTF-16 code units ([jstr]): [startsWith], [indexOf],
    [lastIndexOf], [substring], [slice], [split] (on a one-unit separator,
    the only kind the code passes), [join], [trim], [repeat], number
    formatting, [padStart] and [JSON.stringify] of a string.  Indices that
    the code computes as JS numbers are [Z]; out-of-range indices are
    clamped exactly as the specification clamps them. *)

From S2P Require Import Prelude.

Open Scope js_scope.

(** ** Prefixes and searching *)

Fixpoint js_starts_with (s pre : jstr) {struct pre} : bool :=
  match pre, s with
  | [], _ => true
  | c :: pre', d :: s' => N.eqb c d && js_starts_with s' pre'
  | _ :: _, [] => false
  end.

(** First index [>= k] (counting from [k] at the head of [s]) where [pat]
    occurs. *)
Fixpoint find_from (pat s : jstr) (k : nat) : option nat :=
  if js_starts_with s pat then Some k
  else match s with
       | [] => None
       | _ :: s' => find_from pat s' (S k)
       end.

(** ToIntegerOrInfinity then clamping to [0, len]. *)
Definition clamp (len : nat) (z : Z) : nat :=
  Z.to_nat (Z.max 0 (Z.min z (Z.of_nat len))).

(** [s.indexOf(pat, from)]. *)
Definition js_index_of (s pat : jstr) (from : Z) : Z :=
  let start := clamp (length s) from in
  match find_from pat (drop start s) start with
  | Some k => Z.of_nat k
  | None => (-1)%Z
  end.

(** [s.includes(pat)]. *)
Definition js_includes (s pat : jstr) : bool :=
  negb (Z.eqb (js_index_of s pat 0) (-1)).

(** Last index where [pat] occurs, scanning every start position. *)
Fixpoint find_last (pat s : jstr) (k : nat) (acc : option nat) : option nat :=
  let acc' := if js_starts_with s pat then Some k else acc in
  match s with
  | [] => acc'
  | _ :: s' => find_last pat s' (S k) acc'
  end.

(** [s.lastIndexOf(pat)]. *)
Definition js_last_index_of (s pat : jstr) : Z :=
  match find_last pat s 0 None with
  | Some k => Z.of_nat k
  | None => (-1)%Z
  end.

(** ** Extracting substrings *)

(** [s.substring(a, b)]: both ends clamped, swapped when [a > b]. *)
Definition js_substring (s : jstr) (a b : Z) : jstr :=
  let i := clamp (length s) a in
  let j := clamp (length s) b in
  take (Nat.max i j - Nat.min i j) (drop (Nat.min i j) s).

(** [s.substring(a)]. *)
Definition js_substring_from (s : jstr) (a : Z) : jstr :=
  js_substring s a (Z.of_nat (length s)).

(** A relative index of [slice]: negative counts from the end. *)
Definition rel_index (len : nat) (z : Z) : nat :=
  if Z.ltb z 0 then Z.to_nat (Z.max 0 (Z.of_nat len + z))
  else Z.to_nat (Z.min z (Z.of_nat len)).

(** [s.slice(a, b)]: empty when the start is not before the end. *)
Definition js_slice (s : jstr) (a b : Z) : jstr :=
  let i := rel_index (length s) a in
  let j := rel_index (length s) b in
  take (j - i) (drop i s).

(** [s.slice(a)]. *)
Definition js_slice_from (s : jstr) (a : Z) : jstr :=
  js_slice s a (Z.of_nat (length s)).

(** ** Splitting and joining *)

(** [s.split(sep)] for a separator of one code unit: [""] gives [[""]]. *)
Fixpoint js_split (s : jstr) (sep : N) : list jstr :=
  match s with
  | [] => [[]]
  | c :: s' =>
    if N.eqb c sep then [] :: js_split s' sep
    else match js_split s' sep with
         | [] => [[c]]
         | w :: ws => (c :: w) :: ws
         end
  end.

(** [parts.join(sep)]. *)
Fixpoint js_join (parts : list jstr) (sep : jstr) : jstr :=
  match parts with
  | [] => []
  | [p] => p
  | p :: ps => p ++ sep ++ js_join ps sep
  end.

(** ** Whitespace and trimming *)

(** WhiteSpace and LineTerminator code units of ECMAScript: TAB, VT, FF,
    SP, NBSP, ZWNBSP, the Zs category, LF, CR, LS and PS. *)
Definition is_js_space (c : N) : bool :=
  match c with
  | 9 | 10 | 11 | 12 | 13 | 32 | 160 | 5760 | 8232 | 8233 | 8239 | 8287
  | 12288 | 65279 => true
  | _ => N.leb 8192 c && N.leb c 8202
  end%N.

(** LineTerminator: what [.] in a regular expression does not match. *)
Definition is_line_terminator (c : N) : bool :=
  match c with 10 | 13 | 8232 | 8233 => true | _ => false end%N.

Fixpoint trim_start (s : jstr) : jstr :=
  match s with
  | c :: s' => if is_js_space c then trim_start s' else s
  | [] => []
  end.

(** [s.trim()]. *)
Definition js_trim (s : jstr) : jstr := rev (trim_start (rev (trim_start s))).

(** [s.repeat(n)]. *)
Fixpoint js_repeat (s : jstr) (n : nat) : jstr :=
  match n with 0 => [] | S n' => s ++ js_repeat s n' end.

(** ** Numbers as strings *)

Fixpoint digits_aux (fuel : nat) (n : N) (acc : jstr) : jstr :=
  match fuel with
  | 0 => acc
  | S f =>
    let acc' := (48 + N.modulo n 10)%N :: acc in
    if N.eqb (N.div n 10) 0 then acc' else digits_aux f (N.div n 10) acc'
  end.

(** Decimal digits of a natural number ([Number.prototype.toString]). *)
Definition N_to_js (n : N) : jstr := digits_aux (S (N.size_nat n)) n [].

(** [String(z)] for an integral JS number. *)
Definition Z_to_js (z : Z) : jstr :=
  match z with
  | Zneg p => "-" ++ N_to_js (Npos p)
  | _ => N_to_js (Z.to_N z)
  end.

(** [n.toString().padStart(2, '0')]. *)
Definition pad2 (n : Z) : jstr :=
  let s := Z_to_js n in
  if Nat.ltb (length s) 2 then js_repeat "0" (2 - length s) ++ s else s.

(** ** [JSON.stringify] of a string *)

Definition hex_digit (n : N) : N := if N.ltb n 10 then 48 + n else 87 + n.

(** [\uXXXX] with lower-case hex digits, as [JSON.stringify] writes it. *)
Definition unicode_escape (c : N) : jstr :=
  [92; 117; hex_digit (N.shiftr c 12); hex_digit (N.land (N.shiftr c 8) 15);
   hex_digit (N.land (N.shiftr c 4) 15); hex_digit (N.land c 15)]%N.

Definition is_high_surrogate (c : N) : bool := N.leb 55296 c && N.ltb c 56320.
Definition is_low_surrogate (c : N) : bool := N.leb 56320 c && N.ltb c 57344.

(** QuoteJSONString on one code unit that is not a surrogate. *)
Definition quote_unit (c : N) : jstr :=
  match c with
  | 8 => "\b" | 9 => "\t" | 10 => "\n" | 12 => "\f" | 13 => "\r"
  | 34 => [92; 34] | 92 => [92; 92]
  | _ => if N.ltb c 32 then unicode_escape c else [c]
  end%N.

Fixpoint quote_units (s : jstr) : jstr :=
  match s with
  | [] => []
  | c :: s' =>
    if is_high_surrogate c then
      match s' with
      | d :: s'' => if is_low_surrogate d then c :: d :: quote_units s''
                    else unicode_escape c ++ quote_units s'
      | [] => unicode_escape c
      end
    else if is_low_surrogate c then unicode_escape c ++ quote_units s'
    else quote_unit c ++ quote_units s'
  end.

(** [JSON.stringify(s)] for a string [s]. *)
Definition json_quote (s : jstr) : jstr := [34%N] ++ quote_units s ++ [34%N].

(** Line feed and tab, which Rocq literals cannot escape. *)
Definition LF : jstr := [10%N].
Definition TAB : jstr := [9%N].

(** ** Lemmas on prefixes, searching and slicing *)

Lemma js_starts_with_app_self p t : js_starts_with (p ++ t) p = true.
Proof. induction p as [|c p IH]; simpl; [reflexivity|]. rewrite N.eqb_refl. exact IH. Qed.

Lemma js_starts_with_app_long s t pat :
  length pat <= length s -> js_starts_with (s ++ t) pat = js_starts_with s pat.
Proof.
  revert s. induction pat as [|c pat IH]; intros s Hl; [destruct s; reflexivity|].
  destruct s as [|d s]; simpl in Hl; [lia|]. simpl. rewrite IH by lia. reflexivity.
Qed.

Lemma find_from_skip pat c s k :
  js_starts_with (c :: s) pat = false ->
  find_from pat (c :: s) k = find_from pat s (S k).
Proof. intros H. simpl. rewrite H. reflexivity. Qed.

Lemma find_from_none_cons pat c s k :
  find_from pat (c :: s) k = None ->
  js_starts_with (c :: s) pat = false /\ find_from pat s (S k) = None.
Proof. simpl. destruct (js_starts_with (c :: s) pat); [discriminate|]. auto. Qed.

Lemma find_from_shift pat s k j :
  find_from pat s k = None -> find_from pat s j = None.
Proof.
  revert k j. induction s as [|c s IH]; intros k j H; simpl in *.
  - destruct (js_starts_with [] pat); [discriminate|reflexivity].
  - destruct (js_starts_with (c :: s) pat); [discriminate|]. eapply IH, H.
Qed.

Lemma rel_index_nonneg len z :
  (0 <= z)%Z -> (z <= Z.of_nat len)%Z -> rel_index len z = Z.to_nat z.
Proof. intros H1 H2. unfold rel_index. destruct (Z.ltb_spec z 0); [lia|]. f_equal. lia. Qed.

(** [s.slice(a, b)] with [0 <= a <= b <= length s]. *)
Lemma js_slice_app3 a b c :
  js_slice (a ++ b ++ c) (Z.of_nat (length a)) (Z.of_nat (length a + length b)) = b.
Proof.
  unfold js_slice. rewrite !length_app.
  rewrite !rel_index_nonneg by lia. rewrite !Nat2Z.id.
  replace (length a + length b - length a) with (length b) by lia.
  rewrite drop_app_length, take_app_length. reflexivity.
Qed.

Lemma js_slice_from_app a b :
  js_slice_from (a ++ b) (Z.of_nat (length a)) = b.
Proof.
  unfold js_slice_from, js_slice. rewrite !length_app.
  rewrite !rel_index_nonneg by lia. rewrite !Nat2Z.id.
  replace (length a + length b - length a) with (length b) by lia.
  rewrite drop_app_length, take_ge by lia. reflexivity.
Qed.

Lemma js_slice_prefix a b : js_slice (a ++ b) 0 (Z.of_nat (length a)) = a.
Proof.
  unfold js_slice. rewrite !length_app, !rel_index_nonneg by lia.
  rewrite Nat2Z.id. change (Z.to_nat 0) with 0. rewrite Nat.sub_0_r, drop_0.
  apply take_app_length.
Qed.

Lemma find_from_hit pat s k : js_starts_with s pat = true -> find_from pat s k = Some k.
Proof. intros H. destruct s; simpl; rewrite H; reflexivity. Qed.


Lemma js_starts_with_length s pat : js_starts_with s pat = true -> length pat <= length s.
Proof.
  revert s. induction pat as [|c pat IH]; intros [|d s] H; simpl in *.
  - lia.
  - lia.
  - discriminate.
  - apply andb_prop in H as [_ H]. apply IH in H. lia.
Qed.

(** A hit of [find_from] lies inside the searched string. *)
Lemma find_from_bounds pat s k j :
  find_from pat s k = Some j -> k <= j /\ j + length pat <= k + length s.
Proof.
  revert k. induction s as [|c s IH]; intros k H; simpl in H.
  - destruct (js_starts_with [] pat) eqn:E; [|discriminate]. injection H as <-.
    apply js_starts_with_length in E. simpl in E. lia.
  - destruct (js_starts_with (c :: s) pat) eqn:E.
    + injection H as <-. apply js_starts_with_length in E. simpl in *. lia.
    + apply IH in H. simpl. lia.
Qed.

(** Text appended after the first hit does not move it. *)
Lemma find_from_app pat s t k j :
  find_from pat s k = Some j -> find_from pat (s ++ t) k = Some j.
Proof.
  revert k. induction s as [|c s IH]; intros k H.
  - simpl in H. destruct (js_starts_with [] pat) eqn:E; [|discriminate].
    injection H as <-. destruct pat; [|discriminate]. destruct t; reflexivity.
  - pose proof (find_from_bounds _ _ _ _ H) as Hb. simpl in Hb.
    simpl in H |- *. destruct (js_starts_with (c :: s) pat) eqn:E.
    + rewrite app_comm_cons, js_starts_with_app_long, E by (simpl; lia). exact H.
    + rewrite app_comm_cons, js_starts_with_app_long, E by (simpl; lia). auto.
Qed.

Lemma find_from_add pat s k m :
  find_from pat s (m + k) = option_map (Nat.add m) (find_from pat s k).
Proof.
  revert k. induction s as [|c s IH]; intros k; simpl.
  - destruct (js_starts_with [] pat); reflexivity.
  - destruct (js_starts_with (c :: s) pat); [reflexivity|].
    rewrite <- IH. f_equal. lia.
Qed.

(** [s.substring(n)] after a prefix of length [n]. *)
Lemma js_substring_from_app a b : js_substring_from (a ++ b) (Z.of_nat (length a)) = b.
Proof.
  unfold js_substring_from, js_substring, clamp. rewrite !length_app.
  replace (Z.to_nat (Z.max 0 (Z.min (Z.of_nat (length a)) (Z.of_nat (length a + length b)))))
    with (length a) by lia.
  replace (Z.to_nat (Z.max 0 (Z.min (Z.of_nat (length a + length b)) (Z.of_nat (length a + length b)))))
    with (length a + length b) by lia.
  rewrite Nat.max_r, Nat.min_l by lia. rewrite drop_app_length, take_ge by lia. reflexivity.
Qed.

(** [s.substring(0, n)] within bounds is the first [n] units. *)
Lemma js_substring_prefix s n : n <= length s -> js_substring s 0 (Z.of_nat n) = take n s.
Proof.
  intros Hn. unfold js_substring, clamp.
  replace (Z.to_nat (Z.max 0 (Z.min 0 (Z.of_nat (length s))))) with 0 by lia.
  replace (Z.to_nat (Z.max 0 (Z.min (Z.of_nat n) (Z.of_nat (length s))))) with n by lia.
  rewrite Nat.max_r, Nat.min_l, Nat.sub_0_r, drop_0 by lia. reflexivity.
Qed.

(** ** [split] and [join] on a one-unit separator *)

Lemma js_split_no_sep s sep : sep ∉ s -> js_split s sep = [s].
Proof.
  induction s as [|c s IH]; intros Hs; [reflexivity|]. cbn [js_split].
  rewrite (proj2 (N.eqb_neq c sep)) by (intros ->; apply Hs; left).
  rewrite IH by (intros H; apply Hs; right; exact H). reflexivity.
Qed.

Lemma js_split_app_sep x rest sep : sep ∉ x -> js_split (x ++ sep :: rest) sep = x :: js_split rest sep.
Proof.
  induction x as [|c x IH]; intros Hx; cbn [app js_split].
  - rewrite N.eqb_refl. reflexivity.
  - rewrite (proj2 (N.eqb_neq c sep)) by (intros ->; apply Hx; left).
    rewrite IH by (intros H; apply Hx; right; exact H). reflexivity.
Qed.

(** Splitting a join gives the parts back when none holds the separator. *)
Lemma js_split_join parts sep : parts <> [] -> Forall (fun p => sep ∉ p) parts ->
  js_split (js_join parts [sep]) sep = parts.
Proof.
  induction parts as [|p ps IH]; intros Hne Hp; [congruence|].
  inversion Hp as [|? ? Hp1 Hps]; subst. destruct ps as [|q qs].
  - apply js_split_no_sep, Hp1.
  - change (js_join (p :: q :: qs) [sep]) with (p ++ [sep] ++ js_join (q :: qs) [sep]).
    cbn [app]. rewrite js_split_app_sep by exact Hp1. f_equal. apply IH; [discriminate|exact Hps].
Qed.

(** No part of a split holds the separator. *)
Lemma js_split_parts s sep : Forall (fun p => sep ∉ p) (js_split s sep).
Proof.
  induction s as [|c s IH]; cbn [js_split].
  - constructor; [apply not_elem_of_nil|constructor].
  - destruct (N.eqb_spec c sep) as [->|Hne].
    + constructor; [apply not_elem_of_nil|exact IH].
    + destruct (js_split s sep) as [|w ws]; inversion IH; subst;
        repeat constructor; try apply not_elem_of_nil; try assumption.
      * intros Hin. apply elem_of_cons in Hin as [->|Hin]; [congruence|apply not_elem_of_nil in Hin; exact Hin].
      * intros Hin. apply elem_of_cons in Hin as [->|Hin]; [congruence|auto].
Qed.

(** ** [trim] is idempotent *)

Lemma trim_start_idem s : trim_start (trim_start s) = trim_start s.
Proof.
  induction s as [|c s IH]; [reflexivity|]. cbn [trim_start].
  destruct (is_js_space c) eqn:E; [exact IH|]. cbn [trim_start]. rewrite E. reflexivity.
Qed.

Lemma trim_start_suffix s : exists p, s = p ++ trim_start s.
Proof.
  induction s as [|c s (p & Hp)]; [exists []; reflexivity|]. cbn [trim_start].
  destruct (is_js_space c); [exists (c :: p); simpl; f_equal; exact Hp|exists []; reflexivity].
Qed.

(** A prefix of a trimmed text is left alone by [trim_start]. *)
Lemma trim_start_prefix p x s : trim_start s = p ++ x -> trim_start p = p.
Proof.
  induction s as [|c s IH]; intros H; cbn [trim_start] in H.
  - destruct p; [reflexivity|discriminate].
  - destruct (is_js_space c) eqn:E; [exact (IH H)|].
    destruct p as [|d p]; [reflexivity|]. injection H as <- _. cbn [trim_start]. rewrite E. reflexivity.
Qed.

Lemma js_trim_idem s : js_trim (js_trim s) = js_trim s.
Proof.
  unfold js_trim. set (a := trim_start s). set (b := trim_start (rev a)).
  destruct (trim_start_suffix (rev a)) as [q Hq]. fold b in Hq.
  assert (Ha : trim_start a = rev b ++ rev q).
  { unfold a at 1. rewrite trim_start_idem. rewrite <- rev_app_distr, <- Hq, rev_involutive. reflexivity. }
  rewrite (trim_start_prefix _ _ _ Ha), rev_involutive. unfold b at 1. rewrite trim_start_idem. reflexivity.
Qed.
