(* ===== verification/Regex.v ===== *)
(** * The JavaScript regular-expression engine, as far as [main.ts] uses it

    [main.ts] leans on regular expressions for most of its text processing:
    the excerpt strips image markup with [/!\[.*?\]\(.*?\)/g], front-matter
    keys are found with a multiline [^key...$] pattern, image references are
    scanned with two global patterns and rewritten with two patterns built at
    run time, [escapeRegExp] and [redactString] are [replace] calls.  This
    file gives the ECMAScript semantics of the fragment these patterns use:

    - [re]: character classes (with negation and ranges), [.], sequencing,
      alternation, quantifiers [{min,max}] greedy or lazy, capturing groups and the
      anchors [^] and [$];
    - [mt]: the backtracking matcher of ECMAScript (22.2.2), written in
      continuation-passing style like the specification's Matchers: a
      quantifier tries one more iteration before (greedy) or after (lazy) the
      continuation, clears the captures of its body before each iteration and
      rejects an iteration that consumed nothing once the minimum is reached;
    - [exec_at], [search], [js_test], [exec_all] (the [while (exec(...))]
      loop of a global regex), [js_replace] ([String.prototype.replace] with
      a global or non-global regex and a string or function replacement, with
      GetSubstitution's [$$], [$&], [$`], [$'] and [$n]) and [js_replace_str]
      (replace with a string pattern: first occurrence only).

    Case-insensitive matching folds ASCII letters only.  ECMAScript's
    Canonicalize never maps a code unit above 127 to one below 128, so for
    the one case-insensitive pattern of the code ([/^(https?:)?\/\//i], all
    ASCII) this is exact.

    Fuel: a quantifier at position [i] with minimum [mn] is given fuel
    [mn + (len - i) + 1]: every iteration either counts down the minimum or
    advances the position (an empty iteration past the minimum fails), so the
    fuel is never the reason a match fails.  [search] and [exec_all] get
    [len - i + 2] steps: each step moves strictly forward. *)

From S2P Require Import Prelude JsString.

Open Scope js_scope.

(** ** Syntax *)

Inductive re :=
| RCls (neg : bool) (ranges : list (N * N))   (** [[a-z_]], [[^\]]], or one literal unit *)
| RDot                                        (** [.] *)
| REmpty                                      (** the empty pattern *)
| RSeq (a b : re)                             (** juxtaposition *)
| RAlt (a b : re)                             (** [a|b] *)
| RRep (mn : nat) (mx : option nat) (greedy : bool) (a : re)
                                              (** [a{mn,mx}], [a*], [a+], [a?], [a*?] *)
| RGroup (n : nat) (a : re)                   (** capturing group number [n] *)
| RBol                                        (** [^] *)
| REol.                                       (** [$] *)

Record regexp := RegExp {
  rx_src : re;
  rx_global : bool;
  rx_ignore_case : bool;
  rx_multiline : bool;
}.

Definition ch (c : N) : re := RCls false [(c, c)].
Definition star (a : re) : re := RRep 0 None true a.
Definition lazy_star (a : re) : re := RRep 0 None false a.
Definition plus (a : re) : re := RRep 1 None true a.
Definition opt (a : re) : re := RRep 0 (Some 1) true a.

(** A sequence of patterns, and a literal string as a pattern. *)
Fixpoint seqs (l : list re) : re :=
  match l with
  | [] => REmpty
  | [a] => a
  | a :: l' => RSeq a (seqs l')
  end.

Definition re_lit (s : jstr) : re := seqs (map ch s).

(** Capturing groups inside a pattern, and how many. *)
Fixpoint groups_of (r : re) : list nat :=
  match r with
  | RSeq a b | RAlt a b => groups_of a ++ groups_of b
  | RRep _ _ _ a => groups_of a
  | RGroup n a => n :: groups_of a
  | _ => []
  end.

(** ** Matching *)

Definition caps := list (nat * (nat * nat)).

Definition set_cap (n i j : nat) (c : caps) : caps :=
  (n, (i, j)) :: filter (fun p => negb (Nat.eqb p.1 n)) c.

Definition clear_caps (gs : list nat) (c : caps) : caps :=
  filter (fun p => negb (existsb (Nat.eqb p.1) gs)) c.

Definition get_cap (n : nat) (c : caps) : option (nat * nat) :=
  option_map snd (List.find (fun p => Nat.eqb p.1 n) c).

Definition in_ranges (rs : list (N * N)) (c : N) : bool :=
  existsb (fun p => N.leb p.1 c && N.leb c p.2) rs.

Definition ascii_upper (c : N) : N :=
  if N.leb 97 c && N.leb c 122 then c - 32 else c.
Definition ascii_lower (c : N) : N :=
  if N.leb 65 c && N.leb c 90 then c + 32 else c.

(** CharacterSetMatcher: some member of the set canonicalizes to [c]. *)
Definition cls_has (ic : bool) (rs : list (N * N)) (c : N) : bool :=
  if ic then in_ranges rs c || in_ranges rs (ascii_upper c) || in_ranges rs (ascii_lower c)
  else in_ranges rs c.

Section Match.
Context (ic ml : bool) (inp : jstr).
Context {R : Type}.

Definition at_bol (i : nat) : bool :=
  match i with
  | 0 => true
  | S i' => ml && match inp !! i' with Some c => is_line_terminator c | None => false end
  end.

Definition at_eol (i : nat) : bool :=
  Nat.eqb i (length inp) ||
  (ml && match inp !! i with Some c => is_line_terminator c | None => false end).

(** RepeatMatcher: [fuel] bounds the iterations (each one but the last
    must consume input), [mn]/[mx] the counts still required/allowed, [ma]
    the matcher of the repeated atom. *)
Fixpoint rep_loop (ma : nat -> caps -> (nat -> caps -> option R) -> option R)
    (gs : list nat) (greedy : bool) (k : nat -> caps -> option R)
    (fuel mn : nat) (mx : option nat) (i : nat) (c : caps) : option R :=
  match fuel with
  | 0 => None
  | S f =>
    if bool_decide (mx = Some 0) then k i c else
    let iter := ma i (clear_caps gs c)
      (fun j c' => if Nat.eqb mn 0 && Nat.eqb j i then None
                   else rep_loop ma gs greedy k f (pred mn) (option_map pred mx) j c') in
    if negb (Nat.eqb mn 0) then iter
    else if greedy then
      match iter with Some x => Some x | None => k i c end
    else
      match k i c with Some x => Some x | None => iter end
  end.

Fixpoint mt (r : re) (i : nat) (c : caps) (k : nat -> caps -> option R) {struct r}
  : option R :=
  match r with
  | RCls neg rs =>
    match inp !! i with
    | Some u => if xorb neg (cls_has ic rs u) then k (S i) c else None
    | None => None
    end
  | RDot =>
    match inp !! i with
    | Some u => if is_line_terminator u then None else k (S i) c
    | None => None
    end
  | REmpty => k i c
  | RSeq a b => mt a i c (fun j c' => mt b j c' k)
  | RAlt a b => match mt a i c k with Some x => Some x | None => mt b i c k end
  | RGroup n a => mt a i c (fun j c' => k j (set_cap n i j c'))
  | RBol => if at_bol i then k i c else None
  | REol => if at_eol i then k i c else None
  | RRep mn0 mx0 greedy a =>
    rep_loop (mt a) (groups_of a) greedy k (mn0 + (length inp - i) + 1) mn0 mx0 i c
  end.
End Match.

(** A match: where it starts, where it ends and its captures. *)
Record mrec := MRec { m_start : nat; m_end : nat; m_caps : caps }.

Definition exec_at (rx : regexp) (s : jstr) (i : nat) : option (nat * caps) :=
  mt (rx_ignore_case rx) (rx_multiline rx) s (rx_src rx) i [] (fun j c => Some (j, c)).

(** RegExpBuiltinExec from [lastIndex = i]: the first position [>= i] where
    the pattern matches. *)
Fixpoint search_fuel (rx : regexp) (s : jstr) (fuel i : nat) : option mrec :=
  match fuel with
  | 0 => None
  | S f =>
    match exec_at rx s i with
    | Some (j, c) => Some (MRec i j c)
    | None => if Nat.ltb i (length s) then search_fuel rx s f (S i) else None
    end
  end.

Definition search (rx : regexp) (s : jstr) (i : nat) : option mrec :=
  search_fuel rx s (length s - i + 2) i.

(** [rx.test(s)] for a regex without the [g] flag ([lastIndex] stays 0). *)
Definition js_test (rx : regexp) (s : jstr) : bool :=
  match search rx s 0 with Some _ => true | None => false end.

(** The matches of a global regex from [lastIndex = i], as
    [String.prototype.replace] collects them: after an empty match the
    search restarts one unit further. *)
Fixpoint all_matches_fuel (rx : regexp) (s : jstr) (fuel i : nat) : list mrec :=
  match fuel with
  | 0 => []
  | S f =>
    match search rx s i with
    | Some m =>
      m :: all_matches_fuel rx s f
             (if Nat.eqb (m_end m) (m_start m) then S (m_end m) else m_end m)
    | None => []
    end
  end.

Definition all_matches (rx : regexp) (s : jstr) : list mrec :=
  all_matches_fuel rx s (length s + 2) 0.

(** The loop [while ((m = rx.exec(s)) !== null) { ... }] of a global regex:
    [exec] sets [lastIndex] to the end of the match, so an empty match would
    make the JavaScript loop spin forever; that outcome is [None]. *)
Fixpoint exec_all_fuel (rx : regexp) (s : jstr) (fuel i : nat) : option (list mrec) :=
  match fuel with
  | 0 => Some []
  | S f =>
    match search rx s i with
    | Some m =>
      if Nat.eqb (m_end m) (m_start m) then None
      else option_map (cons m) (exec_all_fuel rx s f (m_end m))
    | None => Some []
    end
  end.

Definition exec_all (rx : regexp) (s : jstr) : option (list mrec) :=
  exec_all_fuel rx s (length s + 2) 0.

(** The text of a match, and of capture [n] ([undefined] is [None]). *)
Definition sub (s : jstr) (i j : nat) : jstr := take (j - i) (drop i s).

Definition m_text (s : jstr) (m : mrec) : jstr := sub s (m_start m) (m_end m).

Definition m_group (s : jstr) (m : mrec) (n : nat) : option jstr :=
  option_map (fun p => sub s p.1 p.2) (get_cap n (m_caps m)).

(** ** Replacement *)

Inductive replacement :=
| RepStr (template : jstr)            (** a replacement string, with [$] patterns *)
| RepFn (f : jstr -> jstr).           (** a replacer function of the matched text *)

Definition is_digit (c : N) : bool := N.leb 48 c && N.leb c 57.
Definition digit_val (c : N) : nat := N.to_nat (c - 48).

(** GetSubstitution: [matched] found at [pos] in [str], with [ncap]
    capture groups read by [cap]. *)
Fixpoint get_substitution (matched str : jstr) (pos : nat) (ncap : nat)
    (cap : nat -> jstr) (t : jstr) : jstr :=
  match t with
  | [] => []
  | u :: t' =>
    if negb (N.eqb u 36) then u :: get_substitution matched str pos ncap cap t'
    else
      match t' with
      | [] => [36%N]
      | d1 :: t1 =>
        if N.eqb d1 36 then 36%N :: get_substitution matched str pos ncap cap t1
        else if N.eqb d1 38 then matched ++ get_substitution matched str pos ncap cap t1
        else if N.eqb d1 96 then take pos str ++ get_substitution matched str pos ncap cap t1
        else if N.eqb d1 39 then
          drop (pos + length matched) str ++ get_substitution matched str pos ncap cap t1
        else if is_digit d1 && Nat.leb 1 (digit_val d1) && Nat.leb (digit_val d1) ncap then
          match t1 with
          | d2 :: t2 =>
            let nn := 10 * digit_val d1 + digit_val d2 in
            if is_digit d2 && Nat.leb nn ncap
            then cap nn ++ get_substitution matched str pos ncap cap t2
            else cap (digit_val d1) ++ get_substitution matched str pos ncap cap t1
          | [] => cap (digit_val d1)
          end
        else if is_digit d1 then
          match t1 with
          | d2 :: t2 =>
            let nn := 10 * digit_val d1 + digit_val d2 in
            if is_digit d2 && Nat.leb 1 nn && Nat.leb nn ncap
            then cap nn ++ get_substitution matched str pos ncap cap t2
            else 36%N :: get_substitution matched str pos ncap cap t'
          | [] => 36%N :: get_substitution matched str pos ncap cap t'
          end
        else 36%N :: get_substitution matched str pos ncap cap t'
      end
  end.

Definition ncaps (rx : regexp) : nat := length (groups_of (rx_src rx)).

Definition replace_one (rx : regexp) (s : jstr) (rep : replacement) (m : mrec) : jstr :=
  match rep with
  | RepFn f => f (m_text s m)
  | RepStr t =>
    get_substitution (m_text s m) s (m_start m) (ncaps rx)
      (fun n => default [] (m_group s m n)) t
  end.

(** Splice the replacements of [ms] (in order, non-overlapping) into [s],
    copying the text between them from position [from]. *)
Fixpoint splice (rx : regexp) (s : jstr) (rep : replacement) (from : nat)
    (ms : list mrec) : jstr :=
  match ms with
  | [] => drop from s
  | m :: ms' => sub s from (m_start m) ++ replace_one rx s rep m
                ++ splice rx s rep (m_end m) ms'
  end.

(** [s.replace(rx, rep)]. *)
Definition js_replace (rx : regexp) (s : jstr) (rep : replacement) : jstr :=
  let ms := if rx_global rx then all_matches rx s
            else match search rx s 0 with Some m => [m] | None => [] end in
  splice rx s rep 0 ms.

(** [s.replace(pat, rep)] with a string pattern: the first occurrence only,
    and no capture groups. *)
Definition js_replace_str (s pat : jstr) (rep : replacement) : jstr :=
  match find_from pat s 0 with
  | None => s
  | Some i =>
    let matched := pat in
    let r := match rep with
             | RepFn f => f matched
             | RepStr t => get_substitution matched s i 0 (fun _ => []) t
             end in
    take i s ++ r ++ drop (i + length pat) s
  end.

(** ** Lemmas on the matcher *)

(** A matcher whose results all come from its continuation, called at a
    position no earlier than the start. *)
Definition cont_forward {R} (ma : nat -> caps -> (nat -> caps -> option R) -> option R) : Prop :=
  forall i c k x, ma i c k = Some x -> exists j c', i <= j /\ k j c' = Some x.

Lemma rep_loop_forward {R} (ma : nat -> caps -> (nat -> caps -> option R) -> option R) gs greedy k :
  cont_forward ma ->
  forall fuel mn mx i c x, rep_loop ma gs greedy k fuel mn mx i c = Some x ->
  exists j c', i <= j /\ k j c' = Some x.
Proof.
  intros Hma fuel. induction fuel as [|f IHf]; intros mn mx i c x H; [discriminate|].
  simpl in H.
  assert (Hiter : forall x', ma i (clear_caps gs c)
      (fun j c' => if Nat.eqb mn 0 && Nat.eqb j i then None
                   else rep_loop ma gs greedy k f (pred mn) (option_map pred mx) j c') = Some x' ->
      exists j c', i <= j /\ k j c' = Some x').
  { intros x' Hx. apply Hma in Hx as (j & c' & Hj & Hx).
    destruct (Nat.eqb mn 0 && Nat.eqb j i); [discriminate|].
    apply IHf in Hx as (j' & c'' & Hj' & Hx). exists j', c''. split; [lia|exact Hx]. }
  destruct (bool_decide (mx = Some 0)); [exists i, c; auto|].
  destruct (negb (Nat.eqb mn 0)); [exact (Hiter _ H)|].
  destruct greedy.
  - destruct (ma i _ _) eqn:E; [injection H as <-; exact (Hiter _ eq_refl)|]. exists i, c. auto.
  - destruct (k i c) eqn:E; [injection H as <-; exists i, c; auto|]. exact (Hiter _ H).
Qed.

Lemma mt_cont {R} ic ml inp r : cont_forward (R := R) (mt ic ml inp r).
Proof.
  induction r as [neg rs| | |a IHa b IHb|a IHa b IHb|mn0 mx0 greedy a IHa|n a IHa| |];
    intros i c k x H; simpl in H.
  - destruct (inp !! i); [|discriminate].
    destruct (xorb _ _); [|discriminate]. exists (S i), c. auto.
  - destruct (inp !! i); [|discriminate].
    destruct (is_line_terminator _); [discriminate|]. exists (S i), c. auto.
  - exists i, c. auto.
  - apply IHa in H as (j & c' & Hj & H). apply IHb in H as (j' & c'' & Hj' & H).
    exists j', c''. split; [lia|exact H].
  - destruct (mt ic ml inp a i c k) eqn:E.
    + injection H as <-. apply IHa in E. exact E.
    + apply IHb in H. exact H.
  - exact (rep_loop_forward _ _ _ _ IHa _ _ _ _ _ _ H).
  - apply IHa in H as (j & c' & Hj & H). exists j, (set_cap n i j c'). auto.
  - destruct (at_bol ml inp i); [exists i, c; auto|discriminate].
  - destruct (at_eol ml inp i); [exists i, c; auto|discriminate].
Qed.

(** A pattern that starts with a character class consumes input. *)
Lemma exec_at_cls_advances rx s i j c neg rs b :
  rx_src rx = RSeq (RCls neg rs) b -> exec_at rx s i = Some (j, c) -> i < j.
Proof.
  unfold exec_at. intros -> H. simpl in H.
  destruct (s !! i); [|discriminate]. destruct (xorb _ _); [|discriminate].
  apply mt_cont in H as (j' & c' & Hj & H). injection H as <- <-. lia.
Qed.

Lemma search_fuel_some rx s : forall f i m,
  search_fuel rx s f i = Some m ->
  i <= m_start m /\ exec_at rx s (m_start m) = Some (m_end m, m_caps m).
Proof.
  induction f as [|f IH]; intros i m H; [discriminate|]. simpl in H.
  destruct (exec_at rx s i) as [[j c]|] eqn:E.
  - injection H as <-. simpl. auto.
  - destruct (Nat.ltb i (length s)); [|discriminate].
    apply IH in H as [H1 H2]. split; [lia|exact H2].
Qed.

(** A global exec loop over a pattern whose every match consumes input
    never meets an empty match. *)
Lemma exec_all_fuel_total rx s :
  (forall i j c, exec_at rx s i = Some (j, c) -> i < j) ->
  forall f i, exec_all_fuel rx s f i <> None.
Proof.
  intros Hadv f. induction f as [|f IH]; intros i; [discriminate|].
  change (exec_all_fuel rx s (S f) i) with
    (match search rx s i with
     | Some m => if Nat.eqb (m_end m) (m_start m) then None
                 else option_map (cons m) (exec_all_fuel rx s f (m_end m))
     | None => Some [] end).
  destruct (search rx s i) as [m|] eqn:E; [|discriminate].
  unfold search in E. apply search_fuel_some in E as [_ E]. apply Hadv in E.
  destruct (Nat.eqb_spec (m_end m) (m_start m)); [lia|].
  pose proof (IH (m_end m)). destruct (exec_all_fuel rx s f (m_end m)); [discriminate|congruence].
Qed.

(** ** Lemmas on replacement strings *)

(** A replacement string without [$] is copied as it is. *)
Lemma get_substitution_plain matched str pos ncap cap t :
  36%N ∉ t -> get_substitution matched str pos ncap cap t = t.
Proof.
  induction t as [|u t IH]; intros Ht; [reflexivity|].
  apply not_elem_of_cons in Ht as [Hu Ht]. cbn.
  destruct (N.eqb_spec u 36); [congruence|]. cbn. f_equal. apply IH, Ht.
Qed.

(** [$&] in a replacement string is the matched text. *)
Lemma get_substitution_amp matched str pos ncap cap pre post :
  36%N ∉ pre -> 36%N ∉ post ->
  get_substitution matched str pos ncap cap (pre ++ [36%N; 38%N] ++ post) = pre ++ matched ++ post.
Proof.
  induction pre as [|u pre IH]; intros Hpre Hpost.
  - cbn. rewrite get_substitution_plain by exact Hpost. reflexivity.
  - apply not_elem_of_cons in Hpre as [Hu Hpre]. cbn.
    destruct (N.eqb_spec u 36); [congruence|]. cbn. f_equal. apply IH; assumption.
Qed.

(** Two replacements that agree on every match give the same result. *)
Lemma splice_ext rx s r1 r2 ms : forall from,
  (forall m, replace_one rx s r1 m = replace_one rx s r2 m) ->
  splice rx s r1 from ms = splice rx s r2 from ms.
Proof.
  induction ms as [|m ms IH]; intros from Hr; [reflexivity|].
  cbn. rewrite Hr, (IH (m_end m) Hr). reflexivity.
Qed.

(** A replacement string with one [$&] and no other [$] is the replacer
    function that puts the matched text in its place. *)
Lemma js_replace_amp rx s pre post (f : jstr -> jstr) :
  36%N ∉ pre -> 36%N ∉ post -> (forall old, f old = pre ++ old ++ post) ->
  js_replace rx s (RepStr (pre ++ [36%N; 38%N] ++ post)) = js_replace rx s (RepFn f).
Proof.
  intros Hpre Hpost Hf. unfold js_replace. apply splice_ext. intros m. cbn.
  rewrite Hf. apply get_substitution_amp; assumption.
Qed.
