(* ===== verification/RegexParse.v ===== *)
(** * [new RegExp(source, flags)]: the pattern parser

    The regular expressions of [main.ts] are written as literals
    ([/!\[.*?\]\(.*?\)/g]) or built at run time from strings
    ([new RegExp(`^${this.escapeRegExp(k)}\s*:\s*.*$`, 'm')]).  To model
    both from the text of the source, this file parses a pattern string into
    the syntax [re] of [Regex.v], following the grammar of ECMAScript 22.2.1
    with the web-compatibility rules of Annex B (non-Unicode mode):

    - Disjunction, Alternative, Term; the assertions [^] and [$];
    - atoms: [.], pattern characters ([]] and [}] included, and [{] when it
      does not start a quantifier), groups [( )] numbered by their left
      parenthesis, non-capturing groups [(?: )], character classes with
      ranges and negation, the escapes [\d \D \s \S \w \W], the control
      escapes [\f \n \r \t \v], [\0] and the identity escapes ([\[] is
      [[]);
    - quantifiers [* + ? {n} {n,} {n,m}], each optionally lazy.

    [new_regexp] returns [None] where JavaScript throws a SyntaxError, and
    also on the constructs outside this fragment (lookaround, back
    references, [\b], [\x], [\u], [\c]): no pattern of the code uses them,
    which the computations of the literal patterns below and the theorem on
    [escapeRegExp] in [Escape.v] check.

    Fuel: every chain of four nested calls ([p_disj], [p_alt], [p_term],
    [p_atom]) consumes at least one code unit, so [4 * length + 8] calls
    never run out. *)

From S2P Require Import Prelude JsString Regex.

Open Scope js_scope.

Definition ws_ranges : list (N * N) :=
  [(9, 13); (32, 32); (160, 160); (5760, 5760); (8192, 8202); (8232, 8233);
   (8239, 8239); (8287, 8287); (12288, 12288); (65279, 65279)]%N.
Definition digit_ranges : list (N * N) := [(48, 57)]%N.
Definition word_ranges : list (N * N) := [(48, 57); (65, 90); (95, 95); (97, 122)]%N.

(** [\d], [\s], [\w] and their negations. *)
Definition class_escape (c : N) : option (bool * list (N * N)) :=
  match c with
  | 100 => Some (false, digit_ranges) | 68 => Some (true, digit_ranges)
  | 115 => Some (false, ws_ranges)    | 83 => Some (true, ws_ranges)
  | 119 => Some (false, word_ranges)  | 87 => Some (true, word_ranges)
  | _ => None
  end%N.

Definition control_escape (c : N) : option N :=
  match c with
  | 102 => Some 12 | 110 => Some 10 | 114 => Some 13 | 116 => Some 9 | 118 => Some 11
  | _ => None
  end%N.

(** Escapes outside the fragment: [\b \B \c \x \u \k]. *)
Definition unsupported_escape (c : N) : bool :=
  match c with 98 | 66 | 99 | 120 | 117 | 107 => true | _ => false end%N.

Definition starts_digit (s : jstr) : bool :=
  match s with c :: _ => is_digit c | [] => false end.

(** A CharacterEscape after [\]: the code unit it stands for, or [None]. *)
Definition char_escape (c : N) (rest : jstr) : option N :=
  match control_escape c with
  | Some u => Some u
  | None =>
    if N.eqb c 48 then (if starts_digit rest then None else Some 0%N)
    else if is_digit c || unsupported_escape c then None
    else Some c
  end.

(** ** Quantifiers *)

Fixpoint p_digits_acc (s : jstr) (acc : nat) : nat * jstr :=
  match s with
  | c :: r => if is_digit c then p_digits_acc r (10 * acc + digit_val c) else (acc, s)
  | [] => (acc, [])
  end.

Definition p_digits (s : jstr) : option (nat * jstr) :=
  if starts_digit s then Some (p_digits_acc s 0) else None.

(** After [{]: [n}], [n,}] or [n,m}]. *)
Definition p_braces (s : jstr) : option (nat * option nat * jstr) :=
  match p_digits s with
  | Some (n, 125%N :: r) => Some (n, Some n, r)
  | Some (n, 44%N :: 125%N :: r) => Some (n, None, r)
  | Some (n, 44%N :: r) =>
    match p_digits r with
    | Some (m, 125%N :: r') => Some (n, Some m, r')
    | _ => None
    end
  | _ => None
  end.

Definition p_quant (s : jstr) : option (nat * option nat * jstr) :=
  match s with
  | c :: r =>
    if N.eqb c 42 then Some (0, None, r)
    else if N.eqb c 43 then Some (1, None, r)
    else if N.eqb c 63 then Some (0, Some 1, r)
    else if N.eqb c 123 then p_braces r
    else None
  | [] => None
  end.

(** ** Character classes *)

Inductive cls_atom := ClsChar (c : N) | ClsSet (rs : list (N * N)).

Definition p_class_atom (s : jstr) : option (cls_atom * jstr) :=
  match s with
  | 92 :: c :: r =>
    if N.eqb c 98 then Some (ClsChar 8, r)
    else match class_escape c with
         | Some (false, rs) => Some (ClsSet rs, r)
         | Some (true, _) => None
         | None => option_map (fun u => (ClsChar u, r)) (char_escape c r)
         end
  | c :: r => Some (ClsChar c, r)
  | [] => None
  end%N.

(** ClassContents up to the closing [\]]. *)
Fixpoint p_class_items (fuel : nat) (s : jstr) : option (list (N * N) * jstr) :=
  match fuel with
  | 0 => None
  | S f =>
    match s with
    | 93%N :: r => Some ([], r)
    | _ =>
      match p_class_atom s with
      | Some (ClsSet rs, r) =>
        option_map (fun '(l, r') => (rs ++ l, r')) (p_class_items f r)
      | Some (ClsChar a, 45%N :: r) =>
        match r with
        | 93%N :: _ => option_map (fun '(l, r') => ((a, a) :: (45, 45)%N :: l, r'))
                                  (p_class_items f r)
        | _ =>
          match p_class_atom r with
          | Some (ClsChar b, r') =>
            if N.leb a b then option_map (fun '(l, r'') => ((a, b) :: l, r''))
                                         (p_class_items f r')
            else None
          | _ => None
          end
        end
      | Some (ClsChar a, r) => option_map (fun '(l, r') => ((a, a) :: l, r'))
                                          (p_class_items f r)
      | None => None
      end
    end
  end.

Definition p_class (s : jstr) : option (re * jstr) :=
  match s with
  | 94%N :: r => option_map (fun '(l, r') => (RCls true l, r')) (p_class_items (length r + 1) r)
  | _ => option_map (fun '(l, r') => (RCls false l, r')) (p_class_items (length s + 1) s)
  end.

(** ** Atoms, terms, alternatives and disjunctions *)

Definition p_atom_escape (s : jstr) : option (re * jstr) :=
  match s with
  | c :: r =>
    match class_escape c with
    | Some (neg, rs) => Some (RCls neg rs, r)
    | None => option_map (fun u => (ch u, r)) (char_escape c r)
    end
  | [] => None
  end.

(** [*], [+], [?] cannot start an atom; neither can a [{] that reads as a
    quantifier. *)
Definition bad_atom_start (c : N) (r : jstr) : bool :=
  if N.eqb c 42 || N.eqb c 43 || N.eqb c 63 || N.eqb c 41 || N.eqb c 124 then true
  else if N.eqb c 123 then match p_braces r with Some _ => true | None => false end
  else false.

Definition seq2 (a b : re) : re := match b with REmpty => a | _ => RSeq a b end.

Definition starts_with_unit (s : jstr) (u : N) : bool :=
  match s with c :: _ => N.eqb c u | [] => false end.

Fixpoint p_disj (fuel : nat) (s : jstr) (g : nat) {struct fuel} : option (re * jstr * nat) :=
  match fuel with
  | 0 => None
  | S f =>
    match p_alt f s g with
    | Some (a, r, g1) =>
      if starts_with_unit r 124 then
        match p_disj f (tail r) g1 with
        | Some (b, r2, g2) => Some (RAlt a b, r2, g2)
        | None => None
        end
      else Some (a, r, g1)
    | None => None
    end
  end
with p_alt (fuel : nat) (s : jstr) (g : nat) {struct fuel} : option (re * jstr * nat) :=
  match fuel with
  | 0 => None
  | S f =>
    match s with
    | [] => Some (REmpty, [], g)
    | c :: _ =>
      if N.eqb c 124 || N.eqb c 41 then Some (REmpty, s, g)
      else
        match p_term f s g with
        | Some (t, r, g1) =>
          match p_alt f r g1 with
          | Some (a, r2, g2) => Some (seq2 t a, r2, g2)
          | None => None
          end
        | None => None
        end
    end
  end
with p_term (fuel : nat) (s : jstr) (g : nat) {struct fuel} : option (re * jstr * nat) :=
  match fuel with
  | 0 => None
  | S f =>
    match s with
    | c :: r =>
      if N.eqb c 94 then Some (RBol, r, g)
      else if N.eqb c 36 then Some (REol, r, g)
      else
        match p_atom f s g with
        | Some (a, r1, g1) =>
          match p_quant r1 with
          | None => Some (a, r1, g1)
          | Some (mn, mx, r2) =>
            if match mx with Some m => Nat.ltb m mn | None => false end then None
            else if starts_with_unit r2 63 then Some (RRep mn mx false a, tail r2, g1)
            else Some (RRep mn mx true a, r2, g1)
          end
        | None => None
        end
    | [] => None
    end
  end
with p_atom (fuel : nat) (s : jstr) (g : nat) {struct fuel} : option (re * jstr * nat) :=
  match fuel with
  | 0 => None
  | S f =>
    match s with
    | c :: r =>
      if N.eqb c 46 then Some (RDot, r, g)
      else if N.eqb c 40 then
        match r with
        | 63%N :: 58%N :: r' =>
          match p_disj f r' g with
          | Some (a, r2, g1) =>
            if starts_with_unit r2 41 then Some (a, tail r2, g1) else None
          | None => None
          end
        | 63%N :: _ => None
        | _ =>
          match p_disj f r (S g) with
          | Some (a, r2, g1) =>
            if starts_with_unit r2 41 then Some (RGroup (S g) a, tail r2, g1) else None
          | None => None
          end
        end
      else if N.eqb c 91 then option_map (fun '(a, r2) => (a, r2, g)) (p_class r)
      else if N.eqb c 92 then option_map (fun '(a, r2) => (a, r2, g)) (p_atom_escape r)
      else if bad_atom_start c r then None
      else Some (ch c, r, g)
    | [] => None
    end
  end.

(** The flags string: each of [g], [i], [m] at most once. *)
Fixpoint p_flags (fl : jstr) (g i m : bool) : option (bool * bool * bool) :=
  match fl with
  | [] => Some (g, i, m)
  | 103%N :: r => if g then None else p_flags r true i m
  | 105%N :: r => if i then None else p_flags r g true m
  | 109%N :: r => if m then None else p_flags r g i true
  | _ => None
  end.

(** [new RegExp(src, flags)]; [None] is a SyntaxError. *)
Definition new_regexp (src flags : jstr) : option regexp :=
  match p_flags flags false false false, p_disj (4 * length src + 8) src 0 with
  | Some (g, i, m), Some (r, [], _) => Some (RegExp r g i m)
  | _, _ => None
  end.

(** A regular-expression literal [/src/flags] of the source, which parses
    (each use below is checked by computation). *)
Definition rx_literal (src flags : jstr) : regexp :=
  default (RegExp REmpty false false false) (new_regexp src flags).
