(* ===== verification/JsValue.v ===== *)
(** * JavaScript values as [main.ts] handles them

    The code reads loosely typed values: parsed JSON response envelopes
    ([data?.data?.article_id || data?.article_id]), the front matter of a
    note as Obsidian's metadata cache parsed it ([fm.sort_id ?? ...],
    [fm.draft === 'y' || fm.draft === true]), and the persisted plugin data.
    [jsval] is the type of these values, with [undefined] ([JUndef]) for a
    missing property.  Numbers are the integral JavaScript numbers and
    [NaN]: the code only ever holds ids, codes and counts; a fractional or
    infinite number is outside the model.

    The operations are the language's: truthiness ([js_truthy]), [== null]
    ([is_nullish]), [??] and [||] ([js_nullish_or], [js_or]), property
    access ([get_prop], [?.]), [String(v)] ([js_string]), [Number(v)]
    ([js_number]), [===] against a number or string, and the order in which
    [Object.entries] lists the keys of an object built by assignment
    ([obj_set], [obj_entries]: integer-like keys first, ascending, then the
    others in insertion order). *)

From S2P Require Import Prelude JsString.

Open Scope js_scope.

Inductive jsnum := JInt (z : Z) | JNaN.

#[warnings="-register-all"]
Inductive jsval :=
| JUndef
| JNull
| JBool (b : bool)
| JNum (n : jsnum)
| JStr (s : jstr)
| JArr (l : list jsval)
| JObj (fields : list (jstr * jsval)).

(** ** Truthiness, [== null], [??] and [||] *)

Definition js_truthy (v : jsval) : bool :=
  match v with
  | JUndef | JNull => false
  | JBool b => b
  | JNum (JInt z) => negb (Z.eqb z 0)
  | JNum JNaN => false
  | JStr s => negb (bool_decide (s = []))
  | JArr _ | JObj _ => true
  end.

Definition is_nullish (v : jsval) : bool :=
  match v with JUndef | JNull => true | _ => false end.

(** [a ?? b] *)
Definition js_nullish_or (a b : jsval) : jsval := if is_nullish a then b else a.

(** [a || b] *)
Definition js_or (a b : jsval) : jsval := if js_truthy a then a else b.

(** ** Property access *)

(** [v.k] on an object; [undefined] for a missing key and on primitives.
    [v?.k] is the same function: it also yields [undefined] on [null] and
    [undefined], where plain [v.k] throws (see [get_prop_strict]). *)
Definition get_prop (v : jsval) (k : jstr) : jsval :=
  match v with
  | JObj fs => match List.find (fun p => bool_decide (p.1 = k)) fs with
               | Some p => p.2
               | None => JUndef
               end
  | _ => JUndef
  end.

(** [v.k] that throws a TypeError on [null] or [undefined]. *)
Definition get_prop_strict (v : jsval) (k : jstr) : option jsval :=
  if is_nullish v then None else Some (get_prop v k).

(** ** Conversions *)

Definition jsnum_to_js (n : jsnum) : jstr :=
  match n with JInt z => Z_to_js z | JNaN => "NaN" end.

(** [String(v)]; arrays are joined with commas, their [null] and
    [undefined] elements printed as empty strings. *)
Fixpoint js_string (v : jsval) : jstr :=
  match v with
  | JUndef => "undefined"
  | JNull => "null"
  | JBool true => "true"
  | JBool false => "false"
  | JNum n => jsnum_to_js n
  | JStr s => s
  | JArr l => js_join (map (fun x => match x with
                                     | JUndef | JNull => []
                                     | _ => js_string x
                                     end) l) ","
  | JObj _ => "[object Object]"
  end.

Fixpoint digits_value (s : jstr) (acc : Z) : option Z :=
  match s with
  | [] => Some acc
  | c :: s' => if N.leb 48 c && N.leb c 57
               then digits_value s' (10 * acc + Z.of_N (c - 48))
               else None
  end.

(** StringToNumber on the integral decimal numerals: [""] (after trimming)
    is [0], an optionally signed run of digits is its value, and anything
    else is [NaN]. *)
Definition string_to_number (s : jstr) : jsnum :=
  match js_trim s with
  | [] => JInt 0
  | 45 :: d :: r => match digits_value (d :: r) 0 with
                    | Some z => JInt (- z) | None => JNaN end
  | 43 :: d :: r => match digits_value (d :: r) 0 with
                    | Some z => JInt z | None => JNaN end
  | t => match digits_value t 0 with Some z => JInt z | None => JNaN end
  end%N.

(** [Number(v)]. *)
Definition js_number (v : jsval) : jsnum :=
  match v with
  | JUndef => JNaN
  | JNull => JInt 0
  | JBool b => JInt (if b then 1 else 0)
  | JNum n => n
  | JStr s => string_to_number s
  | JArr _ => string_to_number (js_string v)
  | JObj _ => JNaN
  end.

(** [v === z] for a number [z], and [v === s] for a string [s]. *)
Definition js_eq_num (v : jsval) (z : Z) : bool :=
  match v with JNum (JInt z') => Z.eqb z' z | _ => false end.

Definition js_eq_str (v : jsval) (s : jstr) : bool :=
  match v with JStr s' => bool_decide (s' = s) | _ => false end.

Definition js_eq_bool (v : jsval) (b : bool) : bool :=
  match v with JBool b' => Bool.eqb b' b | _ => false end.

(** [Array.isArray(v)] and [typeof v === 'string']. *)
Definition is_array (v : jsval) : bool := match v with JArr _ => true | _ => false end.
Definition is_string (v : jsval) : bool := match v with JStr _ => true | _ => false end.

(** ** Objects built by assignment and [Object.entries] *)

Abbreviation js_object := (list (jstr * jstr)).

(** [o[k] = v]: an existing key keeps its place, a new one goes last. *)
Definition obj_set (o : js_object) (k v : jstr) : js_object :=
  if existsb (fun p => bool_decide (p.1 = k)) o
  then map (fun p => if bool_decide (p.1 = k) then (k, v) else p) o
  else o ++ [(k, v)].

(** An array index: the canonical decimal form of an integer in
    [0, 2^32 - 2]. *)
Definition is_array_index (k : jstr) : bool :=
  match digits_value k 0 with
  | Some z => bool_decide (Z_to_js z = k) && Z.ltb z 4294967295
  | None => false
  end && negb (bool_decide (k = [])).

Definition index_value (k : jstr) : Z := default 0%Z (digits_value k 0).

Fixpoint insert_by_index (p : jstr * jstr) (l : js_object) : js_object :=
  match l with
  | [] => [p]
  | q :: l' => if Z.leb (index_value p.1) (index_value q.1) then p :: q :: l'
               else q :: insert_by_index p l'
  end.

(** OrdinaryOwnPropertyKeys: integer indices ascending, then the string
    keys in the order they were created. *)
Definition obj_entries (o : js_object) : js_object :=
  foldr insert_by_index [] (filter (fun p => is_array_index p.1) o)
  ++ filter (fun p => negb (is_array_index p.1)) o.

(** ** [JSON.stringify] *)

(** [JSON.stringify(v)] without indentation; [None] is [undefined] (the
    result for [undefined] itself).  Properties whose value is [undefined]
    are left out of objects and written [null] in arrays; [NaN] is [null]. *)
Fixpoint json_stringify (v : jsval) : option jstr :=
  match v with
  | JUndef => None
  | JNull => Some "null"
  | JBool true => Some "true"
  | JBool false => Some "false"
  | JNum (JInt z) => Some (Z_to_js z)
  | JNum JNaN => Some "null"
  | JStr s => Some (json_quote s)
  | JArr l =>
    Some ("[" ++ js_join (map (fun x => default "null" (json_stringify x)) l) "," ++ "]")
  | JObj fs =>
    Some ("{" ++ js_join ((fix go (fs : list (jstr * jsval)) : list jstr :=
                             match fs with
                             | [] => []
                             | (k, x) :: fs' =>
                               match json_stringify x with
                               | Some t => (json_quote k ++ ":" ++ t) :: go fs'
                               | None => go fs'
                               end
                             end) fs) "," ++ "}")
  end.

(** ** [Number(String(z))] is [z] *)

Definition dec_digit (c : N) : Prop := (48 <= c <= 57)%N.

Lemma pos_size_le q p : (q <= p)%positive -> Pos.size_nat q <= Pos.size_nat p.
Proof. intros H. apply Pos.le_lteq in H as [H| ->]; [apply Pos.size_nat_monotone, H|reflexivity]. Qed.

Lemma size_nat_div10 n : (n / 10 <> 0)%N -> N.size_nat (n / 10) < N.size_nat n.
Proof.
  intros Hn. assert (Hle : (n / 10 <= N.div2 n)%N) by (rewrite N.div2_div; apply N.div_le_compat_l; lia).
  destruct (n / 10)%N as [|q] eqn:Eq; [congruence|].
  destruct n as [|[p|p|]]; try discriminate; cbn in Hle |- *;
    apply Nat.lt_succ_r, pos_size_le, Hle.
Qed.

(** [digits_aux] puts the decimal digits of [n] in front of [acc]. *)
Lemma digits_aux_digits : forall f n acc, exists x,
  digits_aux f n acc = x ++ acc /\ Forall dec_digit x /\ (f <> 0 -> x <> []).
Proof.
  induction f as [|f IH]; intros n acc; [exists []; repeat split; [constructor|done]|].
  assert (Hd : dec_digit (48 + n mod 10)%N)
    by (unfold dec_digit; pose proof (N.mod_lt n 10 ltac:(lia)); remember (n mod 10)%N; lia).
  cbn [digits_aux]. destruct (N.eqb (n / 10) 0).
  - exists [(48 + n mod 10)%N]. repeat split; [constructor; [exact Hd|constructor]|done].
  - destruct (IH (n / 10)%N ((48 + n mod 10)%N :: acc)) as (x & -> & Hx & _).
    exists (x ++ [(48 + n mod 10)%N]). rewrite <- app_assoc. repeat split.
    + apply Forall_app. split; [exact Hx|constructor; [exact Hd|constructor]].
    + destruct x; done.
Qed.

Lemma digits_aux_value : forall f n acc, N.size_nat n < f ->
  digits_value (digits_aux f n acc) 0 = digits_value acc (Z.of_N n).
Proof.
  induction f as [|f IH]; intros n acc Hf; [lia|].
  pose proof (N.div_mod n 10 ltac:(lia)) as Hdm. pose proof (N.mod_lt n 10 ltac:(lia)) as Hm.
  cbn [digits_aux]. destruct (N.eqb_spec (n / 10) 0) as [H0|H0].
  - cbn [digits_value]. remember (n mod 10)%N as m. remember (n / 10)%N as q.
    rewrite (proj2 (andb_true_iff _ _)) by (split; apply N.leb_le; lia).
    f_equal. lia.
  - rewrite IH by (pose proof (size_nat_div10 n H0); lia). cbn [digits_value].
    remember (n mod 10)%N as m. remember (n / 10)%N as q.
    rewrite (proj2 (andb_true_iff _ _)) by (split; apply N.leb_le; lia).
    f_equal. lia.
Qed.

Lemma js_trim_no_space s : Forall (fun c => is_js_space c = false) s -> js_trim s = s.
Proof.
  intros H. assert (Ht : forall t, Forall (fun c => is_js_space c = false) t -> trim_start t = t)
    by (intros [|c t] Hc; [reflexivity|]; inversion Hc; subst; cbn; rewrite H2; reflexivity).
  unfold js_trim. rewrite (Ht s H), Ht, rev_involutive; [reflexivity|]. apply Forall_rev, H.
Qed.

Lemma digit_no_space c : dec_digit c -> is_js_space c = false.
Proof.
  unfold dec_digit. intros Hc.
  assert (c = 48 \/ c = 49 \/ c = 50 \/ c = 51 \/ c = 52 \/ c = 53 \/ c = 54 \/ c = 55 \/ c = 56 \/ c = 57)%N
    as Hs by lia.
  repeat destruct Hs as [->|Hs]; [reflexivity..|subst; reflexivity].
Qed.

(** [Number(String(z))] for an integral number [z]. *)
Lemma string_to_number_Z_to_js z : string_to_number (Z_to_js z) = JInt z.
Proof.
  destruct z as [|p|p]; [reflexivity| |].
  1: change (Z_to_js (Zpos p)) with (N_to_js (Npos p)).
  2: change (Z_to_js (Zneg p)) with ("-" ++ N_to_js (Npos p)).
  all: unfold N_to_js; destruct (digits_aux_digits (S (N.size_nat (Npos p))) (Npos p) [])
    as (x & Ex & Hx & Hne); rewrite app_nil_r in Ex;
    pose proof (digits_aux_value (S (N.size_nat (Npos p))) (Npos p) [] ltac:(lia)) as Hv;
    rewrite Ex in Hv |- *; cbn in Hv; destruct x as [|c x]; try (exfalso; apply Hne; done).
  - assert (Ht : js_trim (c :: x) = c :: x)
      by (apply js_trim_no_space; eapply Forall_impl; [exact digit_no_space|exact Hx]).
    unfold string_to_number. rewrite Ht. inversion Hx as [|? ? Hc _]; subst. unfold dec_digit in Hc.
    assert (c = 48 \/ c = 49 \/ c = 50 \/ c = 51 \/ c = 52 \/ c = 53 \/ c = 54 \/ c = 55 \/ c = 56 \/ c = 57)%N
      as Hs by lia.
    repeat destruct Hs as [->|Hs]; try (cbn -[digits_value]; rewrite Hv; reflexivity).
    subst. cbn -[digits_value]. rewrite Hv. reflexivity.
  - assert (Ht : js_trim (45%N :: c :: x) = 45%N :: c :: x).
    { apply js_trim_no_space. constructor; [reflexivity|].
      eapply Forall_impl; [exact digit_no_space|exact Hx]. }
    cbn [app]. unfold string_to_number. rewrite Ht. cbn -[digits_value]. rewrite Hv. reflexivity.
Qed.
