(* ===== verification/Escape.v ===== *)
(** * [escapeRegExp] (main.ts, lines 844-846)

    [escapeRegExp(s)] is [s.replace(/[.*+?^${}()|[\]\\]/g, '\\$&')]: every
    regex syntax character gets a backslash in front.  The code builds three
    patterns from escaped strings: the front-matter key pattern of
    [upsertFrontmatterKeys], the two rewrite patterns of [processImages] and
    the API-key pattern of [redactString].  This file proves that the
    [replace] computes the character-by-character escape [escape_direct]
    (an equivalence with a reference definition), and that the pattern parser
    reads an escaped string back as the literal string itself, also when it
    is followed by more pattern text (a round trip). *)

From S2P Require Import Prelude JsString Regex RegexParse.

Open Scope js_scope.

(** The regex of line 845, from its source text. *)
Definition escape_rx : regexp := rx_literal "[.*+?^${}()|[\]\\]" "g".

(** [escapeRegExp(s)]; the replacement string ['\\$&'] is [\$&]. *)
Definition escapeRegExp (s : jstr) : jstr := js_replace escape_rx s (RepStr "\$&").

(** ** The reference definition *)

Definition special_units : list N :=
  [46; 42; 43; 63; 94; 36; 123; 125; 40; 41; 124; 91; 93; 92]%N.

Definition regex_special (c : N) : bool := existsb (N.eqb c) special_units.

Definition escape_unit (c : N) : jstr := if regex_special c then [92%N; c] else [c].

Definition escape_direct (s : jstr) : jstr := flat_map escape_unit s.

(** ** The regex engine on [escape_rx] *)

Lemma escape_rx_src : escape_rx = RegExp
  (RCls false [(46, 46); (42, 42); (43, 43); (63, 63); (94, 94); (36, 36);
               (123, 123); (125, 125); (40, 40); (41, 41); (124, 124);
               (91, 91); (93, 93); (92, 92)]%N) true false false.
Proof. vm_compute. reflexivity. Qed.

Lemma escape_rx_exec s i :
  exec_at escape_rx s i =
  match s !! i with
  | Some u => if regex_special u then Some (S i, []) else None
  | None => None
  end.
Proof.
  rewrite escape_rx_src. unfold exec_at; simpl.
  destruct (s !! i) as [u|]; [|reflexivity].
  unfold cls_has, in_ranges, regex_special; simpl.
  repeat match goal with |- context [N.leb ?a u && N.leb u ?a] =>
    replace (N.leb a u && N.leb u a) with (N.eqb u a)
      by (destruct (N.eqb_spec u a), (N.leb_spec a u), (N.leb_spec u a); lia) end.
  reflexivity.
Qed.

Lemma search_skip rx s i :
  exec_at rx s i = None -> i < length s -> search rx s i = search rx s (S i).
Proof.
  intros Hx Hi. unfold search.
  replace (length s - i + 2) with (S (length s - S i + 2)) by lia.
  simpl. rewrite Hx. apply Nat.ltb_lt in Hi. rewrite Hi. reflexivity.
Qed.

Lemma search_hit rx s i j c :
  exec_at rx s i = Some (j, c) -> search rx s i = Some (MRec i j c).
Proof.
  intros Hx. unfold search.
  replace (length s - i + 2) with (S (length s - i + 1)) by lia.
  simpl. rewrite Hx. reflexivity.
Qed.

Lemma search_none_end rx s i :
  exec_at rx s i = None -> length s <= i -> search rx s i = None.
Proof.
  intros Hx Hi. unfold search.
  replace (length s - i + 2) with (S (length s - i + 1)) by lia.
  simpl. rewrite Hx. destruct (Nat.ltb_spec i (length s)); [lia|reflexivity].
Qed.

Lemma sub_cons s i j u :
  s !! i = Some u -> i < j -> sub s i j = u :: sub s (S i) j.
Proof.
  intros Hu Hij. unfold sub.
  rewrite (drop_S s u i Hu). replace (j - i) with (S (j - S i)) by lia. reflexivity.
Qed.

Lemma sub_nil s i : sub s i i = [].
Proof. unfold sub. rewrite Nat.sub_diag. reflexivity. Qed.

Lemma sub_single s i u : s !! i = Some u -> sub s i (S i) = [u].
Proof. intros Hu. rewrite (sub_cons s i (S i) u Hu) by lia. rewrite sub_nil. reflexivity. Qed.

(** Where [escape_rx] finds nothing at [i], the text is copied. *)
Lemma escape_splice_skip s i u f :
  s !! i = Some u -> regex_special u = false ->
  splice escape_rx s (RepStr "\$&") i (all_matches_fuel escape_rx s (S f) i)
  = u :: splice escape_rx s (RepStr "\$&") (S i) (all_matches_fuel escape_rx s (S f) (S i)).
Proof.
  intros Hu Hsp.
  assert (Hx : exec_at escape_rx s i = None) by (rewrite escape_rx_exec, Hu, Hsp; reflexivity).
  assert (Hi : i < length s) by (apply lookup_lt_Some in Hu; exact Hu).
  simpl. rewrite (search_skip _ _ _ Hx Hi).
  destruct (search escape_rx s (S i)) as [m|] eqn:Hm; simpl.
  - assert (Hge : S i <= m_start m).
    { unfold search in Hm. clear -Hm.
      remember (length s - S i + 2) as fu eqn:Hfu. clear Hfu.
      revert i Hm; induction fu as [|fu IH]; intros i Hm; simpl in Hm; [discriminate|].
      destruct (exec_at escape_rx s (S i)) as [[j c]|].
      - injection Hm as <-. simpl. lia.
      - destruct (Nat.ltb (S i) (length s)); [|discriminate].
        specialize (IH (S i) Hm). lia. }
    rewrite (sub_cons s i (m_start m) u Hu) by lia. reflexivity.
  - rewrite (drop_S s u i Hu). reflexivity.
Qed.

(** The replacement loop of [escapeRegExp] from position [length pre]. *)
Lemma escape_splice pre suf f :
  length suf < f ->
  splice escape_rx (pre ++ suf) (RepStr "\$&") (length pre)
         (all_matches_fuel escape_rx (pre ++ suf) f (length pre))
  = escape_direct suf.
Proof.
  revert pre f. induction suf as [|u suf IH]; intros pre f Hf.
  - destruct f as [|f]; [simpl in Hf; lia|]. simpl.
    rewrite search_none_end.
    + simpl. rewrite app_nil_r, drop_all. reflexivity.
    + rewrite escape_rx_exec, app_nil_r, lookup_ge_None_2 by lia. reflexivity.
    + rewrite app_nil_r. lia.
  - destruct f as [|f]; [simpl in Hf; lia|].
    assert (Hu : (pre ++ u :: suf) !! length pre = Some u)
      by (rewrite lookup_app_r, Nat.sub_diag by lia; reflexivity).
    replace (pre ++ u :: suf) with ((pre ++ [u]) ++ suf) in * by (rewrite <- app_assoc; reflexivity).
    destruct (regex_special u) eqn:Hsp.
    + cbn [all_matches_fuel]. rewrite (search_hit _ _ _ (S (length pre)) [])
        by (rewrite escape_rx_exec, Hu, Hsp; reflexivity).
      cbn [m_start m_end splice].
      rewrite (proj2 (Nat.eqb_neq (S (length pre)) (length pre))) by lia.
      rewrite sub_nil. unfold replace_one, m_text; cbn [m_start m_end].
      rewrite (sub_single _ _ _ Hu).
      change (escape_direct (u :: suf)) with (escape_unit u ++ escape_direct suf).
      unfold escape_unit. rewrite Hsp.
      specialize (IH (pre ++ [u]) f). rewrite length_app in IH. simpl in IH.
      rewrite Nat.add_1_r in IH. rewrite IH by (simpl in Hf; lia). reflexivity.
    + rewrite (escape_splice_skip _ _ u f Hu Hsp).
      change (escape_direct (u :: suf)) with (escape_unit u ++ escape_direct suf).
      unfold escape_unit. rewrite Hsp. simpl. f_equal. specialize (IH (pre ++ [u]) (S f)). rewrite length_app in IH. simpl in IH.
      rewrite Nat.add_1_r in IH. apply IH. simpl in Hf. lia.
Qed.

(** The global replace of [escapeRegExp] computed character by character. *)
Lemma escape_replace_direct s : escapeRegExp s = escape_direct s.
Proof.
  unfold escapeRegExp, js_replace. rewrite escape_rx_src at 1. simpl.
  rewrite <- escape_rx_src.
  apply (escape_splice [] s). lia.
Qed.

(** [escapeRegExp], computed by a global [replace], is the character-wise
    escape. *)
Theorem escapeRegExp_direct s : escapeRegExp s = escape_direct s.
Proof. apply escape_replace_direct. Qed.

(** ** Parsing an escaped string gives back the literal *)

(** A literal string in front of the pattern [a], as the parser builds it. *)
Definition lit_prefix (k : jstr) (a : re) : re := foldr (fun c acc => seq2 (ch c) acc) a k.

Lemma special_cases c :
  regex_special c = true ->
  c = 46%N \/ c = 42%N \/ c = 43%N \/ c = 63%N \/ c = 94%N \/ c = 36%N \/ c = 123%N \/
  c = 125%N \/ c = 40%N \/ c = 41%N \/ c = 124%N \/ c = 91%N \/ c = 93%N \/ c = 92%N.
Proof.
  unfold regex_special, special_units. simpl. intros H.
  repeat (apply orb_true_iff in H; destruct H as [H|H]; [left; apply N.eqb_eq, H|right]).
  rewrite orb_false_r in H. apply N.eqb_eq, H.
Qed.

Lemma special_neq c x :
  regex_special c = false -> In x special_units -> N.eqb c x = false.
Proof.
  intros Hc Hx. destruct (N.eqb c x) eqn:E; [|reflexivity].
  apply N.eqb_eq in E; subst.
  unfold regex_special in Hc.
  assert (existsb (N.eqb x) special_units = true)
    by (apply existsb_exists; exists x; split; [exact Hx | apply N.eqb_refl]).
  congruence.
Qed.

Ltac special_neq H :=
  repeat match goal with
  | |- context [N.eqb ?c ?x] =>
    is_var c; rewrite (special_neq c x H) by (simpl; tauto)
  end.

Lemma escape_atom_special f c r g :
  regex_special c = true -> p_atom (S f) (92%N :: c :: r) g = Some (ch c, r, g).
Proof.
  intros H. apply special_cases in H.
  repeat (destruct H as [->|H]; [reflexivity|]). subst. reflexivity.
Qed.

Lemma escape_atom_plain f c r g :
  regex_special c = false -> p_atom (S f) (c :: r) g = Some (ch c, r, g).
Proof.
  intros H. simpl. unfold bad_atom_start. special_neq H. reflexivity.
Qed.

Lemma escape_term f c r g :
  p_quant r = None ->
  p_term (S (S f)) (escape_unit c ++ r) g = Some (ch c, r, g).
Proof.
  intros Hq. unfold escape_unit. destruct (regex_special c) eqn:H.
  - cbn [app p_term]. rewrite (escape_atom_special f c r g H), Hq. reflexivity.
  - cbn [app p_term]. special_neq H. rewrite (escape_atom_plain f c r g H), Hq. reflexivity.
Qed.

Lemma escape_alt_unit f c r g :
  p_quant r = None ->
  p_alt (S (S (S f))) (escape_unit c ++ r) g =
  match p_alt (S (S f)) r g with
  | Some (a, r2, g2) => Some (seq2 (ch c) a, r2, g2)
  | None => None
  end.
Proof.
  intros Hq.
  assert (Hhd : exists u t, escape_unit c ++ r = u :: t /\ N.eqb u 124 = false /\ N.eqb u 41 = false).
  { unfold escape_unit. destruct (regex_special c) eqn:H.
    - exists 92%N, (c :: r). auto.
    - exists c, r. split; [reflexivity|]. split; apply (special_neq c); simpl; tauto. }
  destruct Hhd as (u & t & Heq & H1 & H2).
  change (p_alt (S (S (S f))) (escape_unit c ++ r) g) with
    (match escape_unit c ++ r with
     | [] => Some (REmpty, [], g)
     | c0 :: _ =>
       if N.eqb c0 124 || N.eqb c0 41 then Some (REmpty, escape_unit c ++ r, g)
       else match p_term (S (S f)) (escape_unit c ++ r) g with
            | Some (t0, r0, g1) =>
              match p_alt (S (S f)) r0 g1 with
              | Some (a, r2, g2) => Some (seq2 t0 a, r2, g2)
              | None => None
              end
            | None => None
            end
     end).
  rewrite (escape_term f c r g Hq). rewrite Heq, H1, H2. reflexivity.
Qed.

Lemma p_quant_escaped k rest :
  k <> [] -> p_quant (escape_direct k ++ rest) = None.
Proof.
  destruct k as [|c k]; [congruence|]. intros _.
  change (escape_direct (c :: k)) with (escape_unit c ++ escape_direct k).
  unfold escape_unit. destruct (regex_special c) eqn:H; [reflexivity|].
  simpl. special_neq H. reflexivity.
Qed.

(** The escaped form of [k] in front of [rest] parses as the literal [k]
    in front of what [rest] parses to. *)
Lemma p_alt_escaped k : forall f rest g,
  p_quant rest = None ->
  p_alt (length k + S (S f)) (escape_direct k ++ rest) g =
  option_map (fun '(a, r, g') => (lit_prefix k a, r, g')) (p_alt (S (S f)) rest g).
Proof.
  induction k as [|c k IH]; intros f rest g Hq.
  - cbn -[p_alt]. destruct (p_alt (S (S f)) rest g) as [[[a r] g']|]; reflexivity.
  - change (escape_direct (c :: k)) with (escape_unit c ++ escape_direct k).
    rewrite <- app_assoc.
    replace (length (c :: k) + S (S f)) with (S (S (S (length k + f)))) by (simpl; lia).
    rewrite escape_alt_unit.
    + replace (S (S (length k + f))) with (length k + S (S f)) by lia.
      rewrite IH by assumption.
      destruct (p_alt (S (S f)) rest g) as [[[a r] g']|]; reflexivity.
    + destruct k as [|c' k']; [exact Hq|]. apply p_quant_escaped. discriminate.
Qed.

Lemma lit_prefix_empty k : lit_prefix k REmpty = re_lit k.
Proof.
  induction k as [|c k IH]; [reflexivity|].
  simpl. rewrite IH. destruct k as [|n k]; [reflexivity|].
  change (re_lit (c :: n :: k)) with (RSeq (ch c) (re_lit (n :: k))).
  unfold re_lit. simpl. destruct k; reflexivity.
Qed.

Lemma escape_direct_length k : length k <= length (escape_direct k).
Proof.
  induction k as [|c k IH]; [simpl; lia|].
  change (escape_direct (c :: k)) with (escape_unit c ++ escape_direct k).
  rewrite length_app. unfold escape_unit. destruct (regex_special c); simpl; lia.
Qed.

(** Escaping then parsing gives the literal pattern. *)
Lemma escape_parse_lit s flags g i m :
  p_flags flags false false false = Some (g, i, m) ->
  new_regexp (escapeRegExp s) flags = Some (RegExp (re_lit s) g i m).
Proof.
  intros Hf. unfold new_regexp. rewrite Hf, escape_replace_direct.
  pose proof (escape_direct_length s) as Hn.
  replace (4 * length (escape_direct s) + 8)
    with (S (length s + S (S (4 * length (escape_direct s) + 5 - length s)))) by lia.
  cbn [p_disj].
  rewrite <- (app_nil_r (escape_direct s)).
  rewrite p_alt_escaped by reflexivity.
  cbn -[lit_prefix]. rewrite lit_prefix_empty. reflexivity.
Qed.

(** C34: [new RegExp(escapeRegExp(s), flags)] matches the literal [s]: escaping
    then parsing is the identity on the string (a round trip), for any
    valid flags. *)
Theorem escapeRegExp_parses s flags g i m :
  p_flags flags false false false = Some (g, i, m) ->
  new_regexp (escapeRegExp s) flags = Some (RegExp (re_lit s) g i m).
Proof. apply escape_parse_lit. Qed.

Lemma escapeRegExp_parses_witness :
  p_flags "g" false false false = Some (true, false, false) /\
  new_regexp (escapeRegExp "a.b") "g" = Some (RegExp (re_lit "a.b") true false false).
Proof. split; [reflexivity|]. apply escapeRegExp_parses. reflexivity. Defined.
