(* ===== verification/Frontmatter.v ===== *)
(** * Front-matter reconciliation: [upsertFrontmatterKeys] (main.ts 577-614)

    After a publish the plugin writes [published], [sort_id],
    [emlog_article_id], [publish_date] and [url] into the YAML front matter
    of the note.  The method reads the note, finds the header block (from
    the metadata cache's [frontmatterPosition] when there is one, else by
    scanning for ["---\n"] ... ["\n---"]), rewrites or appends one
    [key: value] line per key inside it, and writes the note back.  A note
    without a header block gets a new one in front.

    [upsert_content] is the text transformation (lines 580-612) as a pure
    function of the note text, the cached header position and the key/value
    list; [Publish.v] wraps it with the vault read and write.  It returns
    [None] where the JavaScript would throw (a key whose pattern does not
    parse; [Escape.v] shows this never happens).

    Two details of the source are kept as written:
    - the key pattern is the template literal [`^${esc(k)}\s*:\s*.*$`];
      in a template literal [\s] is just [s], so the pattern is
      [^k s*: s*.*$] (without the spaces) and matches [k], then any number
      of the letter [s], then a colon;
    - the new line is inserted with [String.prototype.replace] and a
      replacement string, so [$&], [$'], [$`] and [$$] inside a serialized
      value are expanded. *)

From S2P Require Import Prelude JsString Regex RegexParse JsValue Escape.

Open Scope js_scope.

(** [serialize] (line 581): booleans and numbers as [String(v)], anything
    else as the JSON string literal of [String(v)]. *)
Definition serialize (v : jsval) : jstr :=
  match v with
  | JBool _ | JNum _ => js_string v
  | _ => json_quote (js_string v)
  end.

(** The pattern source built on line 584. *)
Definition key_pattern (k : jstr) : jstr := "^" ++ escapeRegExp k ++ "s*:s*.*$".

(** The line [k: serialize(v)]. *)
Definition kv_line (k : jstr) (v : jsval) : jstr := k ++ ": " ++ serialize v.

(** One iteration of the loop of [upsertInYaml] (lines 584-586). *)
Definition upsert_key (yaml : jstr) (kv : jstr * jsval) : option jstr :=
  let '(k, v) := kv in
  match new_regexp (key_pattern k) "m" with
  | None => None
  | Some re =>
    if js_test re yaml then Some (js_replace re yaml (RepStr (kv_line k v)))
    else Some (yaml ++ LF ++ kv_line k v)
  end.

(** [upsertInYaml] (lines 582-589): the keys in [Object.entries] order,
    which for the object literal of [publishCore] is the literal's order. *)
Fixpoint upsert_in_yaml (kvs : list (jstr * jsval)) (yaml : jstr) : option jstr :=
  match kvs with
  | [] => Some yaml
  | kv :: kvs' => match upsert_key yaml kv with
                  | Some y => upsert_in_yaml kvs' y
                  | None => None
                  end
  end.

(** The new header block of lines 608-611. *)
Definition fresh_yaml (kvs : list (jstr * jsval)) : jstr :=
  foldl (fun acc kv => acc ++ kv_line kv.1 kv.2 ++ LF) [] kvs.

(** The closing delimiter ['\n---'] searched for on line 599. *)
Definition close_delim : jstr := LF ++ "---".

(** The header block by scanning (lines 597-606): [Some (yaml, rest)]
    when the note starts with ["---\n"] and a ["\n---"] follows. *)
Definition scan_header (content : jstr) : option (jstr * jstr) :=
  if js_starts_with content ("---" ++ LF) then
    let e := js_index_of content close_delim 4 in
    if Z.ltb 0 e then Some (js_slice content 4 e, js_slice_from content (e + 4))
    else None
  else None.

(** Lines 607-612: an empty [next] (no header block found) becomes a new
    header block in front of the note. *)
Definition finish_next (content : jstr) (kvs : list (jstr * jsval))
    (next : option jstr) : option jstr :=
  match next with
  | None => None
  | Some [] => Some ("---" ++ LF ++ fresh_yaml kvs ++ "---" ++ LF ++ content)
  | Some t => Some t
  end.

(** Lines 590-612: the new text of the note.  [fm_pos] is the cached
    [frontmatterPosition] as its start and end offsets. *)
Definition upsert_content (content : jstr) (fm_pos : option (Z * Z))
    (kvs : list (jstr * jsval)) : option jstr :=
  let next :=
    match fm_pos with
    | Some (st, en) =>
      let head := js_slice content 0 st in
      let yaml := js_slice content (st + 4) (en - 4) in
      let tail := js_slice_from content en in
      option_map (fun y => head ++ "---" ++ LF ++ y ++ LF ++ "---" ++ tail)
                 (upsert_in_yaml kvs yaml)
    | None =>
      match scan_header content with
      | Some (yaml, rest) =>
        option_map (fun y => "---" ++ LF ++ y ++ LF ++ "---" ++ rest)
                   (upsert_in_yaml kvs yaml)
      | None => Some []
      end
    end in
  finish_next content kvs next.

(** ** The header block and the body around it *)

Lemma delim_no_straddle y t :
  y <> [] -> length y < 4 -> js_starts_with (y ++ LF ++ t) close_delim = false.
Proof.
  intros Hne Hl.
  destruct y as [|a [|b [|c [|d y]]]]; simpl in Hl; try congruence; try lia;
  simpl; rewrite ?andb_false_r; reflexivity.
Qed.

(** When [y] has no ["\n---"], the first closing delimiter after [y] is
    the one right after it. *)
Lemma find_delim y rest k :
  find_from close_delim y k = None ->
  find_from close_delim (y ++ close_delim ++ rest) k = Some (k + length y).
Proof.
  revert k. induction y as [|c y IH]; intros k H.
  - rewrite app_nil_l, Nat.add_0_r. apply find_from_hit, js_starts_with_app_self.
  - apply find_from_none_cons in H as [Hs Hn].
    rewrite <- app_comm_cons, find_from_skip.
    + rewrite (IH (S k) Hn). f_equal. simpl. lia.
    + destruct (Nat.le_gt_cases 4 (length (c :: y))) as [Hl|Hl].
      * rewrite app_comm_cons, js_starts_with_app_long by exact Hl. exact Hs.
      * rewrite app_comm_cons. apply delim_no_straddle; [discriminate | exact Hl].
Qed.

Lemma scan_header_spec y rest :
  find_from close_delim y 0 = None ->
  scan_header ("---" ++ LF ++ y ++ close_delim ++ rest) = Some (y, rest).
Proof.
  intros H. unfold scan_header.
  rewrite (app_assoc "---" LF), js_starts_with_app_self.
  unfold js_index_of. rewrite <- (app_assoc "---" LF).
  replace (clamp _ 4) with 4
    by (unfold clamp; rewrite !length_app; simpl; lia).
  change (drop 4 ("---" ++ LF ++ y ++ close_delim ++ rest)) with (y ++ close_delim ++ rest).
  rewrite (find_delim y rest 4 (find_from_shift _ _ 0 4 H)).
  destruct (Z.ltb_spec 0 (Z.of_nat (4 + length y))) as [_|]; [|lia].
  f_equal. f_equal.
  - exact (js_slice_app3 ("---" ++ LF) y (close_delim ++ rest)).
  - replace (Z.of_nat (4 + length y) + 4)%Z
      with (Z.of_nat (length ("---" ++ LF ++ y ++ close_delim))) by (rewrite !length_app; simpl; lia).
    replace ("---" ++ LF ++ y ++ close_delim ++ rest)
      with (("---" ++ LF ++ y ++ close_delim) ++ rest) by (rewrite <- !app_assoc; reflexivity).
    apply js_slice_from_app.
Qed.

Lemma finish_next_nonempty content kvs t :
  t <> [] -> finish_next content kvs (Some t) = Some t.
Proof. intros H. destruct t; [congruence|reflexivity]. Qed.

Lemma header_text_nonempty (head y tail : jstr) :
  head ++ "---" ++ LF ++ y ++ LF ++ "---" ++ tail <> [].
Proof. destruct head; discriminate. Qed.

(** ** The key pattern *)

(** What the parser makes of ["s*:s*.*$"], the tail of [key_pattern]. *)
Definition key_tail_re : re :=
  seqs [star (ch 115); ch 58; star (ch 115); star RDot; REol].

Lemma seq2_ne a b : b <> REmpty -> seq2 a b = RSeq a b.
Proof. intros H. destruct b; try reflexivity. congruence. Qed.

Lemma lit_prefix_ne k a : a <> REmpty -> lit_prefix k a <> REmpty.
Proof.
  intros Ha. destruct k as [|c k]; [exact Ha|]. simpl.
  destruct (lit_prefix k a); discriminate.
Qed.

Lemma p_alt_caret f r g :
  p_alt (S (S f)) (94%N :: r) g =
  match p_alt (S f) r g with
  | Some (a, r2, g2) => Some (seq2 RBol a, r2, g2)
  | None => None
  end.
Proof. reflexivity. Qed.

Lemma p_disj_caret f r a g :
  p_alt (S f) r 0 = Some (a, [], g) ->
  p_disj (S (S (S f))) (94%N :: r) 0 = Some (seq2 RBol a, [], g).
Proof. intros H. cbn [p_disj]. rewrite p_alt_caret, H. reflexivity. Qed.

Lemma key_tail_parses k f :
  p_alt (S (length k + S (S (39 + f)))) (escape_direct k ++ "s*:s*.*$") 0 =
  Some (lit_prefix k key_tail_re, [], 0).
Proof.
  rewrite <- Nat.add_succ_r, p_alt_escaped by reflexivity. reflexivity.
Qed.

Lemma key_pattern_parses k :
  new_regexp (key_pattern k) "m" =
  Some (RegExp (RSeq RBol (lit_prefix k key_tail_re)) false false true).
Proof.
  unfold new_regexp, key_pattern. rewrite escape_replace_direct.
  pose proof (escape_direct_length k) as Hk.
  rewrite !length_app.
  replace (4 * (length "^" + (length (escape_direct k) + length "s*:s*.*$")) + 8)
    with (S (S (S (length k + S (S (39 + (4 * length (escape_direct k) - length k)))))))
    by (simpl; lia).
  change ("^" ++ escape_direct k ++ "s*:s*.*$")
    with (94%N :: (escape_direct k ++ "s*:s*.*$")).
  rewrite (p_disj_caret _ _ _ _ (key_tail_parses k _)).
  rewrite seq2_ne by (apply lit_prefix_ne; discriminate).
  reflexivity.
Qed.

(** ** Theorems *)

(** The upsert loop never throws: every key's pattern parses. *)
Lemma upsert_key_total yaml kv : exists y, upsert_key yaml kv = Some y.
Proof.
  destruct kv as [k v]. unfold upsert_key. rewrite key_pattern_parses.
  destruct (js_test _ yaml); eauto.
Qed.

Lemma upsert_in_yaml_total kvs : forall yaml, exists y, upsert_in_yaml kvs yaml = Some y.
Proof.
  induction kvs as [|kv kvs IH]; intros yaml; simpl; [eauto|].
  destruct (upsert_key_total yaml kv) as [y ->]. apply IH.
Qed.

(** C20: Without a cached position, a note ["---\n" y "\n---" rest] whose
    header [y] has no line starting with [---] keeps [rest] byte for byte;
    only the header is rewritten. *)
Theorem upsert_scan_preserves_body y rest kvs y' :
  find_from close_delim y 0 = None ->
  upsert_in_yaml kvs y = Some y' ->
  upsert_content ("---" ++ LF ++ y ++ close_delim ++ rest) None kvs
  = Some ("---" ++ LF ++ y' ++ close_delim ++ rest).
Proof.
  intros Hy Hu. unfold upsert_content. rewrite scan_header_spec by exact Hy.
  rewrite Hu. simpl. reflexivity.
Qed.

(** With the header position from the metadata cache, the text before and
    after the header block is kept byte for byte. *)
Theorem upsert_cache_preserves_body head y tail kvs y' :
  upsert_in_yaml kvs y = Some y' ->
  upsert_content (head ++ "---" ++ LF ++ y ++ LF ++ "---" ++ tail)
    (Some (Z.of_nat (length head), Z.of_nat (length head + 4 + length y + 4))) kvs
  = Some (head ++ "---" ++ LF ++ y' ++ LF ++ "---" ++ tail).
Proof.
  intros Hu. unfold upsert_content.
  replace (js_slice (head ++ "---" ++ LF ++ y ++ LF ++ "---" ++ tail) 0 (Z.of_nat (length head)))
    with head by (symmetry; apply js_slice_prefix).
  replace (js_slice (head ++ "---" ++ LF ++ y ++ LF ++ "---" ++ tail)
             (Z.of_nat (length head) + 4) (Z.of_nat (length head + 4 + length y + 4) - 4))
    with y.
  2:{ replace (head ++ "---" ++ LF ++ y ++ LF ++ "---" ++ tail)
        with ((head ++ "---" ++ LF) ++ y ++ (LF ++ "---" ++ tail)) by (rewrite <- !app_assoc; reflexivity).
      replace (Z.of_nat (length head) + 4)%Z with (Z.of_nat (length (head ++ "---" ++ LF)))
        by (rewrite !length_app; simpl; lia).
      replace (Z.of_nat (length head + 4 + length y + 4) - 4)%Z
        with (Z.of_nat (length (head ++ "---" ++ LF) + length y))
        by (rewrite !length_app; simpl; lia).
      symmetry. apply js_slice_app3. }
  replace (js_slice_from (head ++ "---" ++ LF ++ y ++ LF ++ "---" ++ tail)
             (Z.of_nat (length head + 4 + length y + 4))) with tail.
  2:{ replace (head ++ "---" ++ LF ++ y ++ LF ++ "---" ++ tail)
        with ((head ++ "---" ++ LF ++ y ++ LF ++ "---") ++ tail) by (rewrite <- !app_assoc; reflexivity).
      replace (Z.of_nat (length head + 4 + length y + 4))
        with (Z.of_nat (length (head ++ "---" ++ LF ++ y ++ LF ++ "---")))
        by (rewrite !length_app; simpl; lia).
      symmetry. apply js_slice_from_app. }
  rewrite Hu. simpl. apply finish_next_nonempty, header_text_nonempty.
Qed.

(** A note that does not start with ["---\n"] gets a new header block in
    front, made of one [k: v] line per key, and keeps its text. *)
Theorem upsert_fresh_header content kvs :
  js_starts_with content ("---" ++ LF) = false ->
  upsert_content content None kvs
  = Some ("---" ++ LF ++ fresh_yaml kvs ++ "---" ++ LF ++ content).
Proof. intros H. unfold upsert_content, scan_header. rewrite H. reflexivity. Qed.

(** C35: A value whose serialised form contains [$&] is not written as
    given: for every key and header on which the key's pattern matches,
    the line written is [k: ] with the old matched line spliced in where
    [$&] stood, because the replacement of line 585 is a replacement
    string whose [$]-patterns [replace] expands. *)
Theorem upsert_dollar_splices k v pre post yaml re :
  36%N ∉ k -> 36%N ∉ pre -> 36%N ∉ post -> serialize v = pre ++ "$&" ++ post ->
  new_regexp (key_pattern k) "m" = Some re -> js_test re yaml = true ->
  upsert_key yaml (k, v) = Some (js_replace re yaml (RepFn (fun old => k ++ ": " ++ pre ++ old ++ post))).
Proof.
  intros Hk Hpre Hpost Hv Hre Ht. unfold upsert_key. rewrite Hre, Ht. f_equal.
  unfold kv_line. rewrite Hv.
  replace (k ++ ": " ++ pre ++ "$&" ++ post) with ((k ++ ": " ++ pre) ++ [36%N; 38%N] ++ post)
    by (rewrite <- !app_assoc; reflexivity).
  apply js_replace_amp.
  - rewrite !elem_of_app. intros [H|[H|H]]; [exact (Hk H)|revert H; decide_in|exact (Hpre H)].
  - exact Hpost.
  - intros old. rewrite <- !app_assoc. reflexivity.
Qed.

Lemma upsert_scan_preserves_body_witness :
  find_from close_delim "title: x" 0 = None /\
  upsert_content ("---" ++ LF ++ "title: x" ++ close_delim ++ LF ++ "Body") None
    [("url", JStr "u")]
  = Some ("---" ++ LF ++ ("title: x" ++ LF ++ "url: " ++ json_quote "u") ++ close_delim ++ LF ++ "Body").
Proof.
  split; [reflexivity|].
  apply upsert_scan_preserves_body; [reflexivity | vm_compute; reflexivity].
Defined.

Lemma upsert_cache_preserves_body_witness :
  upsert_in_yaml [("published", JBool true)] "a: 1" = Some ("a: 1" ++ LF ++ "published: true") /\
  upsert_content ("# pre" ++ "---" ++ LF ++ "a: 1" ++ LF ++ "---" ++ "tail")
    (Some (Z.of_nat (length "# pre"), Z.of_nat (length "# pre" + 4 + length "a: 1" + 4)))
    [("published", JBool true)]
  = Some ("# pre" ++ "---" ++ LF ++ ("a: 1" ++ LF ++ "published: true") ++ LF ++ "---" ++ "tail").
Proof.
  split; [vm_compute; reflexivity|].
  apply upsert_cache_preserves_body. vm_compute. reflexivity.
Defined.

Lemma upsert_fresh_header_witness :
  js_starts_with "Body" ("---" ++ LF) = false /\
  upsert_content "Body" None [("published", JBool false)]
  = Some ("---" ++ LF ++ fresh_yaml [("published", JBool false)] ++ "---" ++ LF ++ "Body").
Proof. split; [reflexivity|]. apply upsert_fresh_header. reflexivity. Defined.

(** The compiled pattern of the key [url]. *)
Definition url_key_rx : regexp :=
  match new_regexp (key_pattern "url") "m" with Some r => r | None => rx_literal "" "" end.

Lemma upsert_dollar_splices_witness :
  36%N ∉ "url" /\ 36%N ∉ [34%N; 97%N] /\ 36%N ∉ [98%N; 34%N] /\
  serialize (JStr "a$&b") = [34%N; 97%N] ++ "$&" ++ [98%N; 34%N] /\
  new_regexp (key_pattern "url") "m" = Some url_key_rx /\ js_test url_key_rx ("a: 1" ++ LF ++ "url: old") = true /\
  upsert_key ("a: 1" ++ LF ++ "url: old") ("url", JStr "a$&b") =
  Some (js_replace url_key_rx ("a: 1" ++ LF ++ "url: old") (RepFn (fun old => "url" ++ ": " ++ [34%N; 97%N] ++ old ++ [98%N; 34%N]))).
Proof.
  assert (H1 : 36%N ∉ "url") by decide_in.
  assert (H2 : 36%N ∉ [34%N; 97%N]) by decide_in.
  assert (H3 : 36%N ∉ [98%N; 34%N]) by decide_in.
  assert (H4 : serialize (JStr "a$&b") = [34%N; 97%N] ++ "$&" ++ [98%N; 34%N]) by reflexivity.
  assert (H5 : new_regexp (key_pattern "url") "m" = Some url_key_rx) by (vm_compute; reflexivity).
  assert (H6 : js_test url_key_rx ("a: 1" ++ LF ++ "url: old") = true) by (vm_compute; reflexivity).
  exact (conj H1 (conj H2 (conj H3 (conj H4 (conj H5 (conj H6
           (upsert_dollar_splices "url" (JStr "a$&b") _ _ _ _ H1 H2 H3 H4 H5 H6))))))).
Defined.
