(* ===== verification/Md5.v ===== *)
(** * MD5, as the [blueimp-md5] library computes it

    [main.ts] signs requests with [md5(...)] from [blueimp-md5]: the string
    is encoded as UTF-8 (lone surrogates become U+FFFD, as
    [encodeURIComponent]/[TextEncoder] do), hashed with MD5 (RFC 1321) and
    returned as 32 lower-case hex digits.  This file computes exactly that on
    32-bit words kept as [Z] below [2^32], with the wrap-around of every
    addition and rotation written out; the RFC's test vectors are checked at
    the end. *)

From S2P Require Import Prelude JsString.

Open Scope js_scope.

(** ** UTF-8 *)

Definition utf8_units (cp : Z) : list Z :=
  if Z.ltb cp 128 then [cp]
  else if Z.ltb cp 2048 then [Z.lor 192 (Z.shiftr cp 6); Z.lor 128 (Z.land cp 63)]
  else if Z.ltb cp 65536 then
    [Z.lor 224 (Z.shiftr cp 12); Z.lor 128 (Z.land (Z.shiftr cp 6) 63);
     Z.lor 128 (Z.land cp 63)]
  else
    [Z.lor 240 (Z.shiftr cp 18); Z.lor 128 (Z.land (Z.shiftr cp 12) 63);
     Z.lor 128 (Z.land (Z.shiftr cp 6) 63); Z.lor 128 (Z.land cp 63)].

(** The UTF-8 bytes of a string of UTF-16 code units. *)
Fixpoint utf8_encode (s : jstr) : list Z :=
  match s with
  | [] => []
  | c :: s' =>
    if is_high_surrogate c then
      match s' with
      | d :: s'' =>
        if is_low_surrogate d then
          utf8_units (65536 + Z.shiftl (Z.of_N c - 55296) 10 + (Z.of_N d - 56320))%Z
          ++ utf8_encode s''
        else utf8_units 65533 ++ utf8_encode s'
      | [] => utf8_units 65533
      end
    else if is_low_surrogate c then utf8_units 65533 ++ utf8_encode s'
    else utf8_units (Z.of_N c) ++ utf8_encode s'
  end.

(** ** 32-bit words *)

Definition w32 (x : Z) : Z := Z.land x (Z.ones 32).
Definition add32 (a b : Z) : Z := w32 (a + b)%Z.
Definition rotl32 (x : Z) (n : Z) : Z := w32 (Z.lor (Z.shiftl x n) (Z.shiftr x (32 - n)%Z)).
Definition not32 (x : Z) : Z := Z.lxor x (Z.ones 32).

(** Little-endian words of a list of bytes (a multiple of four). *)
Fixpoint words_le (b : list Z) : list Z :=
  match b with
  | b0 :: b1 :: b2 :: b3 :: r =>
    Z.lor b0 (Z.lor (Z.shiftl b1 8) (Z.lor (Z.shiftl b2 16) (Z.shiftl b3 24))) :: words_le r
  | _ => []
  end.

Definition bytes_le (w : Z) : list Z :=
  [Z.land w 255; Z.land (Z.shiftr w 8) 255; Z.land (Z.shiftr w 16) 255;
   Z.land (Z.shiftr w 24) 255].

(** ** The algorithm of RFC 1321 *)

Definition md5_K : list Z :=
  [3614090360; 3905402710; 606105819; 3250441966; 4118548399; 1200080426;
   2821735955; 4249261313; 1770035416; 2336552879; 4294925233; 2304563134;
   1804603682; 4254626195; 2792965006; 1236535329; 4129170786; 3225465664;
   643717713; 3921069994; 3593408605; 38016083; 3634488961; 3889429448;
   568446438; 3275163606; 4107603335; 1163531501; 2850285829; 4243563512;
   1735328473; 2368359562; 4294588738; 2272392833; 1839030562; 4259657740;
   2763975236; 1272893353; 4139469664; 3200236656; 681279174; 3936430074;
   3572445317; 76029189; 3654602809; 3873151461; 530742520; 3299628645;
   4096336452; 1126891415; 2878612391; 4237533241; 1700485571; 2399980690;
   4293915773; 2240044497; 1873313359; 4264355552; 2734768916; 1309151649;
   4149444226; 3174756917; 718787259; 3951481745]%Z.

Definition md5_S : list Z :=
  [7; 12; 17; 22; 7; 12; 17; 22; 7; 12; 17; 22; 7; 12; 17; 22;
   5; 9; 14; 20; 5; 9; 14; 20; 5; 9; 14; 20; 5; 9; 14; 20;
   4; 11; 16; 23; 4; 11; 16; 23; 4; 11; 16; 23; 4; 11; 16; 23;
   6; 10; 15; 21; 6; 10; 15; 21; 6; 10; 15; 21; 6; 10; 15; 21]%Z.

(** Round [i] on the state [(a, b, c, d)] and the block [m]. *)
Definition md5_step (m : list Z) (st : Z * Z * Z * Z) (i : nat) : Z * Z * Z * Z :=
  let '(a, b, c, d) := st in
  let '(f, g) :=
    if Nat.ltb i 16 then (Z.lor (Z.land b c) (Z.land (not32 b) d), i)
    else if Nat.ltb i 32 then (Z.lor (Z.land d b) (Z.land (not32 d) c), (5 * i + 1) mod 16)
    else if Nat.ltb i 48 then (Z.lxor b (Z.lxor c d), (3 * i + 5) mod 16)
    else (Z.lxor c (Z.lor b (not32 d)), (7 * i) mod 16) in
  let f' := add32 (add32 (add32 f a) (nth i md5_K 0%Z)) (nth g m 0%Z) in
  (d, add32 b (rotl32 f' (nth i md5_S 0%Z)), b, c).

Definition md5_block (st : Z * Z * Z * Z) (m : list Z) : Z * Z * Z * Z :=
  let '(a, b, c, d) := st in
  let '(a', b', c', d') := fold_left (md5_step m) (seq 0 64) st in
  (add32 a a', add32 b b', add32 c c', add32 d d').

(** Padding: [0x80], zeros up to 56 mod 64, then the bit length. *)
Definition md5_pad (b : list Z) : list Z :=
  let len := length b in
  let zeros := (119 - len mod 64) mod 64 in
  b ++ [128%Z] ++ repeat 0%Z zeros ++ bytes_le (w32 (8 * Z.of_nat len)%Z)
    ++ bytes_le (Z.shiftr (8 * Z.of_nat len)%Z 32).

Fixpoint md5_blocks (fuel : nat) (st : Z * Z * Z * Z) (b : list Z) : Z * Z * Z * Z :=
  match fuel with
  | 0 => st
  | S f =>
    match b with
    | [] => st
    | _ => md5_blocks f (md5_block st (words_le (firstn 64 b))) (skipn 64 b)
    end
  end.

Definition hex_of_byte (x : Z) : jstr :=
  [hex_digit (Z.to_N (Z.shiftr x 4)); hex_digit (Z.to_N (Z.land x 15))].

(** [md5(s)] of [blueimp-md5]: the hex digest of the UTF-8 bytes. *)
Definition md5 (s : jstr) : jstr :=
  let p := md5_pad (utf8_encode s) in
  let '(a, b, c, d) := md5_blocks (length p) (1732584193, 4023233417, 2562383102, 271733878)%Z p in
  flat_map hex_of_byte (flat_map bytes_le [a; b; c; d]).

(** The test suite of RFC 1321, appendix A.5. *)
Lemma md5_rfc1321_empty : md5 "" = "d41d8cd98f00b204e9800998ecf8427e".
Proof. vm_compute. reflexivity. Qed.

Lemma md5_rfc1321_abc : md5 "abc" = "900150983cd24fb0d6963f7d28e17f72".
Proof. vm_compute. reflexivity. Qed.

Lemma md5_rfc1321_digits :
  md5 "12345678901234567890123456789012345678901234567890123456789012345678901234567890"
  = "57edf4a22be3c955ac49da2e2107b67a".
Proof. vm_compute. reflexivity. Qed.
