(* ===== verification/World.v ===== *)
(** * The plugin's state, the host it runs in, and the effect monad

    [ObsidianEmlogPlugin] keeps its state in fields ([settings],
    [articleMap], [cachedSorts], [lastMarkdownFile], the status bar text)
    and acts on the host through Obsidian's API (vault, metadata cache,
    notices, [saveData], [requestUrl]) and the clock.  [world] gathers all of
    it in one record:

    - plugin fields: [w_settings], [w_articleMap] (the path to article id
      object, as a [gmap]), [w_cachedSorts], [w_lastMarkdown], [w_status];
    - persisted data: [w_saved], the JSON [loadData] returns, as the last
      [saveData] left it;
    - the vault: [w_files], path and content in [getFiles()] order, and the
      metadata cache [w_cache] (front matter and its position per path; it
      is not refreshed by [vault.modify], as in Obsidian, where the cache is
      updated later);
    - the network: [w_net], the outcomes of the next [requestUrl] calls in
      order (an oracle), and [w_requests], the requests issued so far;
    - the user's view: [w_notices], [w_console] (what [debug] printed),
      [w_opened] (URLs opened), [w_clipboard];
    - the clock: [w_now] ([Date.now()], milliseconds) and [w_local], the
      local calendar time [new Date()] shows, for [formatDate];
    - the storage: [w_disk], whether the host's [saveData] writes succeed
      ([None]) or fail with an error message; nothing the plugin does
      changes it.

    [M A] is [world -> outcome A * world]: a state monad with JavaScript
    exceptions ([Throw] carries the [message] of the [Error]).  An [async]
    method of the source is a function into [M]; [await] is [bind]; one
    publish runs to completion before the next starts (the host is single
    threaded and this model does not interleave two publishes).

    The settings record has the declared types of [EmlogSettings]; loaded
    data is assumed to hold values of those types (the plugin writes them
    itself). *)

From stdpp Require Import gmap.
From S2P Require Import Prelude JsString JsValue.

Open Scope js_scope.

(** ** Host objects *)

(** Obsidian's [TFile]: the path and the parts Obsidian derives from it. *)
Record tfile := TFile {
  tf_path : jstr;
  tf_name : jstr;
  tf_basename : jstr;
  tf_extension : jstr;
}.

(** [name] is the last path segment, [basename] the name without its last
    extension, [extension] what follows the last dot. *)
Definition mk_tfile (path : jstr) : tfile :=
  let name := List.last (js_split path 47) [] in
  let dot := js_last_index_of name "." in
  if Z.ltb 0 dot
  then TFile path name (js_slice name 0 dot) (js_slice_from name (dot + 1))
  else TFile path name name [].

(** The metadata cache entry of a note. *)
Record cache_entry := CacheEntry {
  ce_frontmatter : option jsval;       (** [cache.frontmatter] *)
  ce_fm_pos : option (Z * Z);          (** [cache.frontmatterPosition] offsets *)
}.

(** [interface EmlogSettings] (lines 7-18). *)
Record settings := Settings {
  baseUrl : jstr;
  authMode : jstr;               (** ['sign' | 'apikey' | 'cookie'] *)
  apiKey : jstr;
  defaultAuthorUid : jstr;
  defaultSortId : jstr;
  defaultDraft : bool;
  autoCover : bool;
  allowRemark : bool;
  postAction : jstr;             (** ['none' | 'open' | 'copy' | 'both'] *)
  enableDebug : bool;
}.

(** [DEFAULT_SETTINGS] (lines 27-38). *)
Definition DEFAULT_SETTINGS : settings :=
  Settings "" "sign" "" "" "" true true true "open" false.

(** [type FlatSort] (line 25). *)
Record flat_sort := FlatSort { fs_id : jsnum; fs_name : jstr; fs_depth : nat }.

(** [interface PluginState] (lines 20-23): what [saveState] persists. *)
Record plugin_state := PluginState {
  ps_settings : settings;
  ps_articleMap : gmap jstr jsval;
}.

(** What [requestUrl] gives back: a response with its status and the body
    as [JSON.parse] reads it ([Unparsable msg]: [JSON.parse] throws a
    SyntaxError with that message), or a transport failure with its error
    message (Obsidian's [requestUrl] also fails this way on a status of 400
    or more). *)
Inductive body := Parsed (v : jsval) | Unparsable (msg : jstr).

Inductive transport :=
| TResp (status : Z) (b : body)
| TErr (msg : jstr).

Record request := Request {
  rq_url : jstr;
  rq_method : jstr;
  rq_headers : list (jstr * jstr);
  rq_body : option jstr;
}.

(** Local calendar time: year, month (1-12), day, hours, minutes, seconds. *)
Record local_time := LocalTime {
  lt_year : Z; lt_month : Z; lt_day : Z; lt_hours : Z; lt_minutes : Z; lt_seconds : Z;
}.

Record world := World {
  w_settings : settings;
  w_articleMap : gmap jstr jsval;
  w_cachedSorts : list flat_sort;
  w_lastMarkdown : option tfile;
  w_status : jstr;
  w_saved : option jsval;
  w_files : list (jstr * jstr);
  w_cache : list (jstr * cache_entry);
  w_net : list transport;
  w_requests : list request;
  w_notices : list jstr;
  w_console : list (list jsval);
  w_opened : list jstr;
  w_clipboard : option jstr;
  w_now : Z;
  w_local : local_time;
  w_disk : option jstr;  (** [None]: the plugin's data file accepts writes; [Some e]: each write fails with [e] *)
}.

(** ** The monad *)

Inductive outcome (A : Type) := Ok (a : A) | Throw (msg : jstr).
Arguments Ok {A} a.
Arguments Throw {A} msg.

Definition M (A : Type) := world -> outcome A * world.

Definition ret {A} (a : A) : M A := fun w => (Ok a, w).

Definition bind {A B} (m : M A) (k : A -> M B) : M B :=
  fun w => match m w with
           | (Ok a, w') => k a w'
           | (Throw e, w') => (Throw e, w')
           end.

(** [throw new Error(msg)]. *)
Definition throw {A} (msg : jstr) : M A := fun w => (Throw msg, w).

(** [try { m } catch (e) { h(e.message) }]. *)
Definition catch {A} (m : M A) (h : jstr -> M A) : M A :=
  fun w => match m w with
           | (Ok a, w') => (Ok a, w')
           | (Throw e, w') => h e w'
           end.

Definition gets {A} (f : world -> A) : M A := fun w => (Ok (f w), w).
Definition modify (f : world -> world) : M unit := fun w => (Ok tt, f w).

Declare Scope plugin_scope.
Delimit Scope plugin_scope with plugin.
Notation "'do' x <- m ; k" := (bind m (fun x => k))
  (at level 60, x name, m at next level, right associativity) : plugin_scope.
Notation "'do' ' p <- m ; k" := (bind m (fun x => match x with p => k end))
  (at level 60, p pattern, m at next level, right associativity) : plugin_scope.

Open Scope plugin_scope.

Lemma bind_ret {A B} (a : A) (k : A -> M B) w : bind (ret a) k w = k a w.
Proof. reflexivity. Qed.

Lemma bind_assoc {A B C} (m : M A) (k : A -> M B) (h : B -> M C) w :
  bind (bind m k) h w = bind m (fun a => bind (k a) h) w.
Proof. unfold bind. destruct (m w) as [[a|e] w']; reflexivity. Qed.

Lemma bind_throw {A B} e (k : A -> M B) w : bind (throw e) k w = (Throw e, w).
Proof. reflexivity. Qed.

Lemma bind_run {A B} (m : M A) (k : A -> M B) w a w' :
  m w = (Ok a, w') -> bind m k w = k a w'.
Proof. intros H. unfold bind. rewrite H. reflexivity. Qed.

Lemma bind_fail {A B} (m : M A) (k : A -> M B) w e w' :
  m w = (Throw e, w') -> bind m k w = (Throw e, w').
Proof. intros H. unfold bind. rewrite H. reflexivity. Qed.

#[export] Hint Rewrite @bind_ret @bind_assoc @bind_throw : emlog.

(** ** World updates *)

Definition set_settings (s : settings) (w : world) : world :=
  {| w_settings := s; w_articleMap := w_articleMap w; w_cachedSorts := w_cachedSorts w;
     w_lastMarkdown := w_lastMarkdown w; w_status := w_status w; w_saved := w_saved w;
     w_files := w_files w; w_cache := w_cache w; w_net := w_net w;
     w_requests := w_requests w; w_notices := w_notices w; w_console := w_console w;
     w_opened := w_opened w; w_clipboard := w_clipboard w; w_now := w_now w;
     w_local := w_local w; w_disk := w_disk w |}.

Definition set_articleMap (m : gmap jstr jsval) (w : world) : world :=
  {| w_settings := w_settings w; w_articleMap := m; w_cachedSorts := w_cachedSorts w;
     w_lastMarkdown := w_lastMarkdown w; w_status := w_status w; w_saved := w_saved w;
     w_files := w_files w; w_cache := w_cache w; w_net := w_net w;
     w_requests := w_requests w; w_notices := w_notices w; w_console := w_console w;
     w_opened := w_opened w; w_clipboard := w_clipboard w; w_now := w_now w;
     w_local := w_local w; w_disk := w_disk w |}.

Definition set_cachedSorts (l : list flat_sort) (w : world) : world :=
  {| w_settings := w_settings w; w_articleMap := w_articleMap w; w_cachedSorts := l;
     w_lastMarkdown := w_lastMarkdown w; w_status := w_status w; w_saved := w_saved w;
     w_files := w_files w; w_cache := w_cache w; w_net := w_net w;
     w_requests := w_requests w; w_notices := w_notices w; w_console := w_console w;
     w_opened := w_opened w; w_clipboard := w_clipboard w; w_now := w_now w;
     w_local := w_local w; w_disk := w_disk w |}.

Definition set_status_text (t : jstr) (w : world) : world :=
  {| w_settings := w_settings w; w_articleMap := w_articleMap w;
     w_cachedSorts := w_cachedSorts w; w_lastMarkdown := w_lastMarkdown w;
     w_status := t; w_saved := w_saved w; w_files := w_files w; w_cache := w_cache w;
     w_net := w_net w; w_requests := w_requests w; w_notices := w_notices w;
     w_console := w_console w; w_opened := w_opened w; w_clipboard := w_clipboard w;
     w_now := w_now w; w_local := w_local w; w_disk := w_disk w |}.

Definition set_saved (p : jsval) (w : world) : world :=
  {| w_settings := w_settings w; w_articleMap := w_articleMap w;
     w_cachedSorts := w_cachedSorts w; w_lastMarkdown := w_lastMarkdown w;
     w_status := w_status w; w_saved := Some p; w_files := w_files w;
     w_cache := w_cache w; w_net := w_net w; w_requests := w_requests w;
     w_notices := w_notices w; w_console := w_console w; w_opened := w_opened w;
     w_clipboard := w_clipboard w; w_now := w_now w; w_local := w_local w; w_disk := w_disk w |}.

Definition set_files (fs : list (jstr * jstr)) (w : world) : world :=
  {| w_settings := w_settings w; w_articleMap := w_articleMap w;
     w_cachedSorts := w_cachedSorts w; w_lastMarkdown := w_lastMarkdown w;
     w_status := w_status w; w_saved := w_saved w; w_files := fs;
     w_cache := w_cache w; w_net := w_net w; w_requests := w_requests w;
     w_notices := w_notices w; w_console := w_console w; w_opened := w_opened w;
     w_clipboard := w_clipboard w; w_now := w_now w; w_local := w_local w; w_disk := w_disk w |}.

Definition set_net (n : list transport) (rs : list request) (w : world) : world :=
  {| w_settings := w_settings w; w_articleMap := w_articleMap w;
     w_cachedSorts := w_cachedSorts w; w_lastMarkdown := w_lastMarkdown w;
     w_status := w_status w; w_saved := w_saved w; w_files := w_files w;
     w_cache := w_cache w; w_net := n; w_requests := rs;
     w_notices := w_notices w; w_console := w_console w; w_opened := w_opened w;
     w_clipboard := w_clipboard w; w_now := w_now w; w_local := w_local w; w_disk := w_disk w |}.

Definition add_notice (n : jstr) (w : world) : world :=
  {| w_settings := w_settings w; w_articleMap := w_articleMap w;
     w_cachedSorts := w_cachedSorts w; w_lastMarkdown := w_lastMarkdown w;
     w_status := w_status w; w_saved := w_saved w; w_files := w_files w;
     w_cache := w_cache w; w_net := w_net w; w_requests := w_requests w;
     w_notices := w_notices w ++ [n]; w_console := w_console w; w_opened := w_opened w;
     w_clipboard := w_clipboard w; w_now := w_now w; w_local := w_local w; w_disk := w_disk w |}.

Definition add_console (l : list jsval) (w : world) : world :=
  {| w_settings := w_settings w; w_articleMap := w_articleMap w;
     w_cachedSorts := w_cachedSorts w; w_lastMarkdown := w_lastMarkdown w;
     w_status := w_status w; w_saved := w_saved w; w_files := w_files w;
     w_cache := w_cache w; w_net := w_net w; w_requests := w_requests w;
     w_notices := w_notices w; w_console := w_console w ++ [l]; w_opened := w_opened w;
     w_clipboard := w_clipboard w; w_now := w_now w; w_local := w_local w; w_disk := w_disk w |}.

Definition add_opened (u : jstr) (w : world) : world :=
  {| w_settings := w_settings w; w_articleMap := w_articleMap w;
     w_cachedSorts := w_cachedSorts w; w_lastMarkdown := w_lastMarkdown w;
     w_status := w_status w; w_saved := w_saved w; w_files := w_files w;
     w_cache := w_cache w; w_net := w_net w; w_requests := w_requests w;
     w_notices := w_notices w; w_console := w_console w; w_opened := w_opened w ++ [u];
     w_clipboard := w_clipboard w; w_now := w_now w; w_local := w_local w; w_disk := w_disk w |}.

Definition set_clipboard (u : jstr) (w : world) : world :=
  {| w_settings := w_settings w; w_articleMap := w_articleMap w;
     w_cachedSorts := w_cachedSorts w; w_lastMarkdown := w_lastMarkdown w;
     w_status := w_status w; w_saved := w_saved w; w_files := w_files w;
     w_cache := w_cache w; w_net := w_net w; w_requests := w_requests w;
     w_notices := w_notices w; w_console := w_console w; w_opened := w_opened w;
     w_clipboard := Some u; w_now := w_now w; w_local := w_local w; w_disk := w_disk w |}.

Definition set_lastMarkdown (f : option tfile) (w : world) : world :=
  {| w_settings := w_settings w; w_articleMap := w_articleMap w;
     w_cachedSorts := w_cachedSorts w; w_lastMarkdown := f;
     w_status := w_status w; w_saved := w_saved w; w_files := w_files w;
     w_cache := w_cache w; w_net := w_net w; w_requests := w_requests w;
     w_notices := w_notices w; w_console := w_console w; w_opened := w_opened w;
     w_clipboard := w_clipboard w; w_now := w_now w; w_local := w_local w; w_disk := w_disk w |}.

(** ** Host operations *)

(** [new Notice(msg)]. *)
Definition notice (msg : jstr) : M unit := modify (add_notice msg).

(** [setStatus(text)] (lines 158-160): the status bar shows ["EMLOG: " ++ text]. *)
Definition setStatus (text : jstr) : M unit := modify (set_status_text ("EMLOG: " ++ text)).

(** The JSON object of the settings, in the key order of [EmlogSettings]. *)
Definition settings_json (st : settings) : jsval :=
  JObj [("baseUrl", JStr (baseUrl st)); ("authMode", JStr (authMode st));
        ("apiKey", JStr (apiKey st)); ("defaultAuthorUid", JStr (defaultAuthorUid st));
        ("defaultSortId", JStr (defaultSortId st)); ("defaultDraft", JBool (defaultDraft st));
        ("autoCover", JBool (autoCover st)); ("allowRemark", JBool (allowRemark st));
        ("postAction", JStr (postAction st)); ("enableDebug", JBool (enableDebug st))].

(** The JSON [saveData] writes for a [PluginState]; the entries of the map
    in the [gmap]'s order (JSON object order does not matter to [load]). *)
Definition state_json (p : plugin_state) : jsval :=
  JObj [("settings", settings_json (ps_settings p)); ("articleMap", JObj (map_to_list (ps_articleMap p)))].

(** [saveData(state)]: the host stores the object as JSON, or rejects
    the write (a full disk, a read-only vault) with the error [w_disk]. *)
Definition saveData (p : plugin_state) : M unit :=
  do disk <- gets w_disk ;
  match disk with
  | None => modify (set_saved (state_json p))
  | Some e => throw e
  end.

(** [Date.now()]. *)
Definition now_ms : M Z := gets w_now.

(** [requestUrl(rq)]: the next outcome of the oracle.  A status of 400
    or more is an error ([Request failed, status N]), like Obsidian's
    default [throw: true]; an exhausted oracle is a network error. *)
Definition requestUrl (rq : request) : M (Z * body) :=
  fun w =>
    match w_net w with
    | [] => (Throw "net::ERR_INTERNET_DISCONNECTED",
             set_net [] (w_requests w ++ [rq]) w)
    | t :: rest =>
      let w' := set_net rest (w_requests w ++ [rq]) w in
      match t with
      | TErr msg => (Throw msg, w')
      | TResp st b =>
        if Z.leb 400 st then (Throw ("Request failed, status " ++ Z_to_js st), w')
        else (Ok (st, b), w')
      end
    end.

(** [vault.getFileByPath(path)] as a content lookup. *)
Definition file_content (path : jstr) (w : world) : option jstr :=
  option_map snd (List.find (fun p => bool_decide (p.1 = path)) (w_files w)).

(** [vault.read(file)] and [vault.cachedRead(file)]. *)
Definition vault_read (f : tfile) : M jstr :=
  fun w => match file_content (tf_path f) w with
           | Some c => (Ok c, w)
           | None => (Throw ("ENOENT: no such file or directory, open '" ++ tf_path f ++ "'"), w)
           end.

Definition replace_content (path c : jstr) (fs : list (jstr * jstr)) : list (jstr * jstr) :=
  map (fun p => if bool_decide (p.1 = path) then (path, c) else p) fs.

(** [vault.modify(file, data)]. *)
Definition vault_modify (f : tfile) (c : jstr) : M unit :=
  modify (fun w => set_files (replace_content (tf_path f) c (w_files w)) w).

(** [metadataCache.getFileCache(file)]. *)
Definition file_cache (f : tfile) (w : world) : option cache_entry :=
  option_map snd (List.find (fun p => bool_decide (p.1 = tf_path f)) (w_cache w)).

Definition getFileCache (f : tfile) : M (option cache_entry) := gets (file_cache f).

Definition set_console (c : list (list jsval)) (w : world) : world :=
  {| w_settings := w_settings w; w_articleMap := w_articleMap w;
     w_cachedSorts := w_cachedSorts w; w_lastMarkdown := w_lastMarkdown w;
     w_status := w_status w; w_saved := w_saved w; w_files := w_files w;
     w_cache := w_cache w; w_net := w_net w; w_requests := w_requests w;
     w_notices := w_notices w; w_console := c; w_opened := w_opened w;
     w_clipboard := w_clipboard w; w_now := w_now w; w_local := w_local w; w_disk := w_disk w |}.

(** Two worlds that differ at most in the console, the pending network
    outcomes and the request log: what the request client may change. *)
Definition net_frame (w w' : world) : Prop :=
  w_settings w' = w_settings w /\ w_articleMap w' = w_articleMap w /\
  w_cachedSorts w' = w_cachedSorts w /\ w_lastMarkdown w' = w_lastMarkdown w /\
  w_status w' = w_status w /\ w_saved w' = w_saved w /\ w_files w' = w_files w /\
  w_cache w' = w_cache w /\ w_notices w' = w_notices w /\ w_opened w' = w_opened w /\
  w_clipboard w' = w_clipboard w /\ w_now w' = w_now w /\ w_local w' = w_local w /\
  w_disk w' = w_disk w.

Lemma net_frame_refl w : net_frame w w.
Proof. repeat split. Qed.

Lemma net_frame_trans w1 w2 w3 : net_frame w1 w2 -> net_frame w2 w3 -> net_frame w1 w3.
Proof. unfold net_frame. intuition congruence. Qed.

Lemma net_frame_console c w : net_frame w (set_console c w).
Proof. repeat split. Qed.

Lemma net_frame_net n rs w : net_frame w (set_net n rs w).
Proof. repeat split. Qed.

Lemma net_frame_add_console l w : net_frame w (add_console l w).
Proof. repeat split. Qed.

#[export] Hint Resolve net_frame_refl net_frame_console net_frame_net net_frame_add_console : emlog.

(** Normal form of the client's world updates: one [set_console] outside one
    [set_net]. *)
Lemma set_net_console n rs c w : set_net n rs (set_console c w) = set_console c (set_net n rs w).
Proof. reflexivity. Qed.

Lemma set_console_console c c' w : set_console c (set_console c' w) = set_console c w.
Proof. reflexivity. Qed.

Lemma set_net_net n rs n' rs' w : set_net n rs (set_net n' rs' w) = set_net n rs w.
Proof. reflexivity. Qed.

Create Rewrite HintDb world_norm.
#[export] Hint Rewrite set_net_console set_console_console set_net_net : world_norm.

(** A world with the given settings, notes, cache and network, and nothing
    else yet: the starting point of the concrete scenarios. *)
Definition init_world (st : settings) (files : list (jstr * jstr))
    (cache : list (jstr * cache_entry)) (net : list transport) : world :=
  World st ∅ [] None [] None files cache net [] [] [] [] None
        1700000000000 (LocalTime 2023 11 14 22 13 20) None.

(** Two worlds that differ at most in what the user sees go by: the
    console, the status bar and the notices. *)
Definition ui_frame (w w' : world) : Prop :=
  w_settings w' = w_settings w /\ w_articleMap w' = w_articleMap w /\
  w_cachedSorts w' = w_cachedSorts w /\ w_lastMarkdown w' = w_lastMarkdown w /\
  w_saved w' = w_saved w /\ w_files w' = w_files w /\ w_cache w' = w_cache w /\
  w_net w' = w_net w /\ w_requests w' = w_requests w /\ w_opened w' = w_opened w /\
  w_clipboard w' = w_clipboard w /\ w_now w' = w_now w /\ w_local w' = w_local w /\
  w_disk w' = w_disk w.

#[export] Instance ui_frame_preorder : PreOrder ui_frame.
Proof.
  split; [intros w; repeat split|].
  intros w1 w2 w3 H1 H2. unfold ui_frame in *. intuition congruence.
Qed.

(** ** Stable operations *)

(** [p] takes the same value before and after. *)
Definition same_on {T} (p : world -> T) (w w' : world) : Prop := p w' = p w.

#[export] Instance same_on_preorder {T} (p : world -> T) : PreOrder (same_on p).
Proof. split; [intros w; reflexivity|intros w1 w2 w3 H1 H2; unfold same_on in *; congruence]. Qed.

(** [p] only grows at its end: a log, such as the requests sent. *)
Definition grows {T} (p : world -> list T) (w w' : world) : Prop := exists l, p w' = p w ++ l.

#[export] Instance grows_preorder {T} (p : world -> list T) : PreOrder (grows p).
Proof.
  split; [intros w; exists []; rewrite app_nil_r; reflexivity|].
  intros w1 w2 w3 [l1 H1] [l2 H2]. exists (l1 ++ l2). rewrite H2, H1, app_assoc. reflexivity.
Qed.

(** An update that leaves [p] alone relates the worlds in both senses. *)
Lemma same_on_conv {T} (p : world -> T) w w' : p w' = p w -> same_on p w w'.
Proof. auto. Qed.

Lemma grows_conv {T} (p : world -> list T) w w' : p w' = p w -> grows p w w'.
Proof. intros H. exists []. rewrite app_nil_r. exact H. Qed.

(** [m] relates the world it starts from to the world it leaves, whatever
    it returns. *)
Definition stable {A} (R : world -> world -> Prop) (m : M A) : Prop := forall w, R w (snd (m w)).

Section Stable.
Context (R : world -> world -> Prop) `{!PreOrder R}.

Lemma stable_ret {A} (a : A) : stable R (ret a).
Proof. intros w. reflexivity. Qed.

Lemma stable_throw {A} e : stable R (@throw A e).
Proof. intros w. reflexivity. Qed.

Lemma stable_gets {A} (f : world -> A) : stable R (gets f).
Proof. intros w. reflexivity. Qed.

Lemma stable_modify f : (forall w, R w (f w)) -> stable R (modify f).
Proof. intros H w. apply H. Qed.

Lemma stable_bind {A B} (m : M A) (k : A -> M B) :
  stable R m -> (forall a, stable R (k a)) -> stable R (bind m k).
Proof.
  intros Hm Hk w. unfold bind. specialize (Hm w).
  destruct (m w) as [[a|e] w'] eqn:E; simpl in *; [|exact Hm].
  etransitivity; [exact Hm|apply Hk].
Qed.

Lemma stable_catch {A} (m : M A) (h : jstr -> M A) :
  stable R m -> (forall e, stable R (h e)) -> stable R (catch m h).
Proof.
  intros Hm Hh w. unfold catch. specialize (Hm w).
  destruct (m w) as [[a|e] w'] eqn:E; simpl in *; [exact Hm|].
  etransitivity; [exact Hm|apply Hh].
Qed.

End Stable.

(** The projections an operation leaves alone, as classes so that the
    lemmas of the components carry them as instance arguments. *)
Class ConsoleBlind {T} (p : world -> T) := console_blind : forall c w, p (set_console c w) = p w.
Class NetBlind {T} (p : world -> T) := net_blind : forall n rs w, p (set_net n rs w) = p w.

#[export] Hint Extern 1 (ConsoleBlind _) => intros ?c ?w; reflexivity : typeclass_instances.
#[export] Hint Extern 1 (NetBlind _) => intros ?n ?rs ?w; reflexivity : typeclass_instances.

Create HintDb stable.

(** Decompose a composite operation into the stability of its steps:
    binds, handlers and branches structurally, plain world updates by
    computation, and named steps by the lemmas of the [stable] database. *)
Ltac stable_auto :=
  repeat match goal with
  | |- stable _ (bind _ _) => apply stable_bind; [typeclasses eauto| |intro]
  | |- stable _ (catch _ _) => apply stable_catch; [typeclasses eauto| |intro]
  | |- stable _ (ret _) => apply stable_ret; typeclasses eauto
  | |- stable _ (throw _) => apply stable_throw; typeclasses eauto
  | |- stable _ (gets _) => apply stable_gets; typeclasses eauto
  | |- stable _ (modify _) =>
    apply stable_modify; intro; first [apply same_on_conv | apply grows_conv]; reflexivity
  | |- stable _ (match ?x with _ => _ end) => destruct x eqn:?
  | |- stable _ (if ?b then _ else _) => destruct b eqn:?
  | |- stable _ _ => solve [eauto with stable typeclass_instances]
  end.

Lemma vault_read_stable R `{!PreOrder R} f : stable R (vault_read f).
Proof. intros w. unfold vault_read. destruct (file_content _ _); reflexivity. Qed.

Lemma requestUrl_grows rq : stable (grows w_requests) (requestUrl rq).
Proof. intros w. unfold requestUrl. exists [rq]. destruct (w_net w) as [|[]]; try case_match; reflexivity. Qed.

Lemma requestUrl_stable {T} (p : world -> T) `{!NetBlind p} rq : stable (same_on p) (requestUrl rq).
Proof. intros w. unfold requestUrl, same_on. destruct (w_net w) as [|[]]; try case_match; apply net_blind. Qed.

#[export] Hint Resolve vault_read_stable requestUrl_stable requestUrl_grows : stable.

Lemma bind_same_on {A B T} (p : world -> T) (m : M A) (k : A -> M B) w :
  (forall a, stable (same_on p) (k a)) -> p (snd (bind m k w)) = p (snd (m w)).
Proof. intros Hk. unfold bind. destruct (m w) as [[a|e] w']; [apply Hk|reflexivity]. Qed.

Lemma catch_same_on {A T} (p : world -> T) (m : M A) (h : jstr -> M A) w :
  (forall e, stable (same_on p) (h e)) -> p (snd (catch m h w)) = p (snd (m w)).
Proof. intros Hh. unfold catch. destruct (m w) as [[a|e] w']; [reflexivity|apply Hh]. Qed.

Lemma bind_grows {A B T} (p : world -> list T) (m : M A) (k : A -> M B) w :
  (forall a, stable (grows p) (k a)) -> grows p (snd (m w)) (snd (bind m k w)).
Proof.
  intros Hk. unfold bind. destruct (m w) as [[a|e] w']; [apply Hk|exists []; rewrite app_nil_r; reflexivity].
Qed.

Lemma catch_grows {A T} (p : world -> list T) (m : M A) (h : jstr -> M A) w :
  (forall e, stable (grows p) (h e)) -> grows p (snd (m w)) (snd (catch m h w)).
Proof.
  intros Hh. unfold catch. destruct (m w) as [[a|e] w']; [exists []; rewrite app_nil_r; reflexivity|apply Hh].
Qed.

(** ** Postconditions of normal returns *)

(** [P] holds of every world in which [m] returns normally. *)
Definition ok_post {A} (P : world -> Prop) (m : M A) : Prop :=
  forall w a w', m w = (Ok a, w') -> P w'.

Lemma ok_post_bind {A B} (P : world -> Prop) (m : M A) (k : A -> M B) :
  (forall a, ok_post P (k a)) -> ok_post P (bind m k).
Proof.
  intros Hk w b w' E. unfold bind in E. destruct (m w) as [[a|e] w1]; [exact (Hk a w1 b w' E)|discriminate].
Qed.

(** A step that always leaves [p] at [v], followed by steps that do not
    touch [p]. *)
Lemma ok_post_last {A B T} (p : world -> T) v (m : M A) (k : A -> M B) :
  (forall w, p (snd (m w)) = v) -> (forall a, stable (same_on p) (k a)) ->
  ok_post (fun w => p w = v) (bind m k).
Proof.
  intros Hm Hk w b w' E. pose proof (bind_same_on p m k w Hk) as H.
  rewrite E in H. simpl in H. rewrite H. apply Hm.
Qed.

Lemma ok_post_impl {A} (P Q : world -> Prop) (m : M A) :
  (forall w, P w -> Q w) -> ok_post P m -> ok_post Q m.
Proof. intros HPQ Hm w a w' E. apply HPQ, (Hm w a w' E). Qed.
