(* ===== verification/Http.v ===== *)
(** * The authenticated request client: [httpForm] and [httpGet]
    (main.ts 616-786), with [debug] and [redactString] (162-191)

    Every call to the blog goes through [httpForm] (a form-encoded POST) or
    [httpGet].  Both strip one trailing slash from [baseUrl], authenticate
    according to [authMode] (the three content-changing endpoints are always
    signed), try [base/?rest-api=<endpoint>] and, on any failure, retry once
    at [base/index.php?rest-api=<endpoint>], then throw one error that names
    both failures, the endpoint, the auth mode and the base URL.  A response
    succeeds when its status is 200, its text parses as JSON and
    [data.code === 0 || data.success]; [attempt] is that shared step.

    [debug] prints to the console only when [enableDebug] is set, each
    argument passed through [redactString] (strings) or
    [redactString(JSON.stringify(..))] (objects).

    [URLSearchParams(...).toString()] is [form_serialize]: the
    application/x-www-form-urlencoded serializer over the UTF-8 bytes. *)

From stdpp Require Import gmap.
From S2P Require Import Prelude JsString Regex RegexParse JsValue Escape Md5 World.

Open Scope js_scope.
Open Scope plugin_scope.

(** ** Redaction and debug output *)

(** The regex of line 189, whose source contains double quotes. *)
Definition req_sign_rx : regexp :=
  rx_literal ([34%N] ++ "req_sign" ++ [34%N] ++ "\s*:\s*" ++ [34%N] ++ "[a-fA-F0-9]{16,}" ++ [34%N]) "g".

(** Lines 185-188 of [redactString]: every occurrence of the API key
    becomes [***]; [None] where [new RegExp] throws. *)
Definition redact_api_key (st : settings) (s : jstr) : option jstr :=
  if bool_decide (apiKey st = []) then Some s
  else option_map (fun rx => js_replace rx s (RepStr "***"))
                  (new_regexp (escapeRegExp (apiKey st)) "g").

(** Line 189: the value of a [req_sign] field becomes [***]. *)
Definition redact_req_sign (s : jstr) : jstr :=
  js_replace req_sign_rx s (RepStr ([34%N] ++ "req_sign" ++ [34%N] ++ ":" ++ [34%N] ++ "***" ++ [34%N])).

(** [redactString(s)] (lines 183-191). *)
Definition redactString (st : settings) (s : jstr) : option jstr :=
  option_map redact_req_sign (redact_api_key st s).

(** [safe(v)] of [debug] (lines 164-177): a failure inside gives [v] back. *)
Definition safe (st : settings) (v : jsval) : jsval :=
  match v with
  | JStr s => match redactString st s with Some r => JStr r | None => v end
  | JArr _ | JObj _ =>
    match json_stringify v with
    | Some j => match redactString st j with Some r => JStr r | None => v end
    | None => v
    end
  | _ => v
  end.

(** [debug(...args)] (lines 162-181). *)
Definition debug (args : list jsval) : M unit :=
  do st <- gets w_settings ;
  if enableDebug st then modify (add_console (JStr "[obsidian-emlog]" :: map (safe st) args))
  else ret tt.

(** ** Form encoding *)

Definition hex_upper (n : Z) : N := let d := Z.to_N n in if N.ltb d 10 then 48 + d else 55 + d.

(** The urlencoded byte serializer: [*-._], digits and ASCII letters as
    they are, space as [+], anything else as [%XX]. *)
Definition urlencode_byte (b : Z) : jstr :=
  if (Z.leb 48 b && Z.leb b 57) || (Z.leb 65 b && Z.leb b 90) || (Z.leb 97 b && Z.leb b 122)
     || Z.eqb b 42 || Z.eqb b 45 || Z.eqb b 46 || Z.eqb b 95
  then [Z.to_N b]
  else if Z.eqb b 32 then [43%N]
  else [37%N; hex_upper (Z.shiftr b 4); hex_upper (Z.land b 15)].

Definition urlencode (s : jstr) : jstr := flat_map urlencode_byte (utf8_encode s).

(** [new URLSearchParams(obj).toString()]. *)
Definition form_serialize (o : js_object) : jstr :=
  js_join (map (fun p => urlencode p.1 ++ "=" ++ urlencode p.2) (obj_entries o)) "&".

(** ** One request and its response (lines 646-664, 671-688, 731-748, 755-771) *)

Definition strip_slash_rx : regexp := rx_literal "\/$" "".

(** [settings.baseUrl.replace(/\/$/, '')] (lines 618 and 707). *)
Definition strip_slash (u : jstr) : jstr := js_replace strip_slash_rx u (RepStr "").

(** The message V8 gives when [data.code] is read on [null]/[undefined]. *)
Definition null_read_msg (v : jsval) : jstr :=
  "Cannot read properties of " ++ js_string v ++ " (reading 'code')".

(** [data.code === 0 || data.success]. *)
Definition envelope_ok (data : jsval) : bool :=
  js_eq_num (get_prop data "code") 0 || js_truthy (get_prop data "success").

(** The message of an unsuccessful envelope (lines 660, 684, 744, 767). *)
Definition envelope_error (data : jsval) : jstr :=
  "API 调用失败: " ++
  js_string (js_or (js_or (get_prop data "msg") (get_prop data "message"))
                   (JStr (default [] (json_stringify data)))).

(** Issue [rq]; succeed with the parsed envelope or throw. *)
Definition attempt (rq : request) (ok_label fail_label : jstr) : M jsval :=
  do '(status, b) <- requestUrl rq ;
  if Z.eqb status 200 then
    match b with
    | Unparsable msg => throw msg
    | Parsed data =>
      if is_nullish data then throw (null_read_msg data)
      else if envelope_ok data then
        do _ <- debug [JStr ok_label; data] ; ret data
      else
        do _ <- debug [JStr fail_label; data] ; throw (envelope_error data)
    end
  else throw ("HTTP 状态码: " ++ Z_to_js status).

(** The error thrown when both paths failed (lines 693-700, 776-783). *)
Definition detailed_error (e fe endpoint mode base : jstr) : jstr :=
  "API 调用失败，已尝试多个路径:" ++ LF ++
  "主路径错误: " ++ e ++ LF ++
  "备用路径错误: " ++ fe ++ LF ++
  "请求的 API: " ++ endpoint ++ LF ++
  "认证方式: " ++ mode ++ LF ++
  "博客地址: " ++ base.

(** ** [httpForm] (lines 616-703) *)

Definition mutating_endpoint (ep : jstr) : bool :=
  bool_decide (ep = "article_post") || bool_decide (ep = "article_update")
  || bool_decide (ep = "note_post").

(** [req_time] and [req_sign] of the signed form (lines 627-629, 633-635). *)
Definition sign_form (params : js_object) (key : jstr) (now : Z) : js_object :=
  let req_time := Z_to_js (Z.div now 1000) in
  obj_set (obj_set params "req_time" req_time) "req_sign" (md5 (req_time ++ key)).

Definition form_headers0 : js_object := [("Content-Type", "application/x-www-form-urlencoded")].

(** Lines 622-640: the form fields and headers for the endpoint. *)
Definition form_auth (st : settings) (endpoint : jstr) (params : js_object)
    : M (js_object * js_object) :=
  if mutating_endpoint endpoint then
    do now <- now_ms ;
    do _ <- debug [JStr "强制使用签名认证";
                   JObj [("endpoint", JStr endpoint); ("req_time", JStr (Z_to_js (Z.div now 1000)))]] ;
    ret (sign_form params (apiKey st) now, form_headers0)
  else if bool_decide (authMode st = "sign") then
    do now <- now_ms ; ret (sign_form params (apiKey st) now, form_headers0)
  else if bool_decide (authMode st = "apikey") then
    ret (params, obj_set form_headers0 "X-API-Key" (apiKey st))
  else if bool_decide (authMode st = "cookie") then
    ret (params, obj_set form_headers0 "Cookie" (apiKey st))
  else ret (params, form_headers0).

Definition httpForm (endpoint : jstr) (params : js_object) : M jsval :=
  do st <- gets w_settings ;
  let base := strip_slash (baseUrl st) in
  let url := base ++ "/?rest-api=" ++ endpoint in
  do '(formParams, headers) <- form_auth st endpoint params ;
  let query := form_serialize formParams in
  do _ <- debug [JStr "HTTP POST"; JStr url; JStr "参数长度:"; JNum (JInt (Z.of_nat (length query)))] ;
  catch (attempt (Request url "POST" headers (Some query)) "HTTP POST 成功" "HTTP POST 失败")
    (fun e =>
       do _ <- debug [JStr "HTTP POST 错误，尝试备用路径"; JStr e] ;
       let fallbackUrl := base ++ "/index.php?rest-api=" ++ endpoint in
       do _ <- debug [JStr "HTTP POST 备用路径"; JStr fallbackUrl] ;
       catch (attempt (Request fallbackUrl "POST" headers (Some query))
                "HTTP POST 备用路径成功" "HTTP POST 备用路径失败")
         (fun fe =>
            do _ <- debug [JStr "HTTP POST 备用路径也失败"; JStr fe] ;
            throw (detailed_error e fe endpoint (authMode st) base))).

(** ** [httpGet] (lines 705-786) *)

(** Lines 713-728: the headers of a GET for the auth mode. *)
Definition get_headers (st : settings) : M js_object :=
  if bool_decide (authMode st = "sign") then
    do timestamp <- now_ms ;
    let nonce := md5 (Z_to_js timestamp ++ apiKey st) in
    let reqSign := md5 (Z_to_js timestamp ++ nonce ++ apiKey st) in
    ret [("X-API-Key", apiKey st); ("X-API-Nonce", nonce); ("X-API-Req-Sign", reqSign);
         ("X-API-Timestamp", Z_to_js timestamp)]
  else if bool_decide (authMode st = "apikey") then ret [("X-API-Key", apiKey st)]
  else if bool_decide (authMode st = "cookie") then ret [("Cookie", apiKey st)]
  else ret [].

Definition query_suffix (query : jstr) : jstr := if bool_decide (query = []) then [] else "&" ++ query.

Definition httpGet (endpoint : jstr) (params : js_object) : M jsval :=
  do st <- gets w_settings ;
  let base := strip_slash (baseUrl st) in
  let query := form_serialize params in
  let fullUrl := base ++ "/?rest-api=" ++ endpoint ++ query_suffix query in
  do _ <- debug [JStr "HTTP GET"; JStr fullUrl] ;
  do headers <- get_headers st ;
  catch (attempt (Request fullUrl "GET" headers None) "HTTP GET 成功" "HTTP GET 失败")
    (fun e =>
       do _ <- debug [JStr "HTTP GET 错误，尝试备用路径"; JStr e] ;
       let fallbackUrl := base ++ "/index.php?rest-api=" ++ endpoint ++ query_suffix query in
       do _ <- debug [JStr "HTTP GET 备用路径"; JStr fallbackUrl] ;
       catch (attempt (Request fallbackUrl "GET" headers None)
                "HTTP GET 备用路径成功" "HTTP GET 备用路径失败")
         (fun fe =>
            do _ <- debug [JStr "HTTP GET 备用路径也失败"; JStr fe] ;
            throw (detailed_error e fe endpoint (authMode st) base))).

(** ** The contract of the request client *)

(** What one attempt yields, as a function of the next network outcome
    alone ([None]: the oracle is exhausted, i.e. the device is offline). *)
Definition attempt_result (t : option transport) : outcome jsval :=
  match t with
  | None => Throw "net::ERR_INTERNET_DISCONNECTED"
  | Some (TErr msg) => Throw msg
  | Some (TResp status b) =>
    if Z.leb 400 status then Throw ("Request failed, status " ++ Z_to_js status)
    else if Z.eqb status 200 then
      match b with
      | Unparsable msg => Throw msg
      | Parsed data =>
        if is_nullish data then Throw (null_read_msg data)
        else if envelope_ok data then Ok data else Throw (envelope_error data)
      end
    else Throw ("HTTP 状态码: " ++ Z_to_js status)
  end.

(** The promise of [httpForm]/[httpGet]: the primary result if it is a
    success, else the fallback result if that is one, else one error built
    from both messages. *)
Definition with_fallback (r1 r2 : outcome jsval) (err : jstr -> jstr -> jstr) : outcome jsval :=
  match r1 with
  | Ok d => Ok d
  | Throw e => match r2 with Ok d => Ok d | Throw fe => Throw (err e fe) end
  end.

(** The requests issued: the fallback only after a failed primary. *)
Definition issued (r1 : outcome jsval) (primary fallback : request) : list request :=
  match r1 with Ok _ => [primary] | Throw _ => [primary; fallback] end.

Lemma debug_run args w : exists c, debug args w = (Ok tt, set_console c w).
Proof.
  unfold debug, bind, gets, modify, ret. destruct (enableDebug (w_settings w)).
  - eexists. reflexivity.
  - exists (w_console w). destruct w. reflexivity.
Qed.

Lemma attempt_run rq l1 l2 w :
  exists c, attempt rq l1 l2 w =
    (attempt_result (head (w_net w)),
     set_console c (set_net (tail (w_net w)) (w_requests w ++ [rq]) w)).
Proof.
  unfold attempt, bind, requestUrl.
  destruct (w_net w) as [|[status b|msg] rest]; cbn [head tail attempt_result].
  - exists (w_console w). reflexivity.
  - destruct (Z.leb 400 status); [exists (w_console w); reflexivity|].
    destruct (Z.eqb status 200); [|exists (w_console w); reflexivity].
    destruct b as [data|msg]; [|exists (w_console w); reflexivity].
    destruct (is_nullish data); [exists (w_console w); reflexivity|].
    destruct (envelope_ok data);
      match goal with
      | |- context [debug ?a ?w0] => destruct (debug_run a w0) as [c ->]
      end; exists c; reflexivity.
  - exists (w_console w). reflexivity.
Qed.

Lemma form_auth_run st ep params w :
  exists fp hd c, form_auth st ep params w = (Ok (fp, hd), set_console c w).
Proof.
  unfold form_auth, bind, now_ms, gets, ret.
  destruct (mutating_endpoint ep).
  - match goal with |- context [debug ?a ?w0] => destruct (debug_run a w0) as [c ->] end.
    do 3 eexists. reflexivity.
  - repeat case_match; destruct w; do 3 eexists; reflexivity.
Qed.

Lemma get_headers_run st w : exists hd, get_headers st w = (Ok hd, w).
Proof. unfold get_headers, bind, now_ms, gets, ret. repeat case_match; eexists; reflexivity. Qed.

(** Evaluate the client's steps: each [debug], [attempt] or [form_auth]
    is replaced by its result and the world it leaves. *)
Ltac run_client :=
  repeat match goal with
  | |- context [debug ?a ?w0] =>
    let c := fresh "c" in destruct (debug_run a w0) as [c ->]
  | |- context [attempt ?rq ?l1 ?l2 ?w0] =>
    let c := fresh "c" in destruct (attempt_run rq l1 l2 w0) as [c ->]
  | |- context [form_auth ?st ?ep ?p ?w0] =>
    let fp := fresh "fp" in let hd := fresh "hd" in let c := fresh "c" in
    destruct (form_auth_run st ep p w0) as (fp & hd & c & ->)
  | |- context [get_headers ?st ?w0] =>
    let hd := fresh "hd" in destruct (get_headers_run st w0) as [hd ->]
  | _ => progress cbn [w_net w_requests w_settings set_console set_net tail head]
  end.

(** [httpForm] run on a world: its result and the world it leaves. *)
Lemma httpForm_run ep params w :
  let st := w_settings w in
  let base := strip_slash (baseUrl st) in
  let r1 := attempt_result (head (w_net w)) in
  exists fp hd,
    fst (form_auth st ep params w) = Ok (fp, hd) /\
    exists c, httpForm ep params w =
      (with_fallback r1 (attempt_result (head (tail (w_net w))))
         (fun e fe => detailed_error e fe ep (authMode st) base),
       set_console c
         (set_net (match r1 with Ok _ => tail (w_net w) | Throw _ => tail (tail (w_net w)) end)
            (w_requests w ++
               issued r1 (Request (base ++ "/?rest-api=" ++ ep) "POST" hd (Some (form_serialize fp)))
                         (Request (base ++ "/index.php?rest-api=" ++ ep) "POST" hd
                                  (Some (form_serialize fp))))
            w)).
Proof.
  cbv zeta. destruct (form_auth_run (w_settings w) ep params w) as (fp & hd & c0 & Hfa).
  exists fp, hd. rewrite Hfa. split; [reflexivity|].
  unfold httpForm, bind, gets, catch, throw. rewrite Hfa.
  run_client.
  destruct (attempt_result (head (w_net w))); run_client;
    [|destruct (attempt_result (head (tail (w_net w)))); run_client];
    autorewrite with world_norm; cbn [issued];
    rewrite <- ?(app_assoc (w_requests w)); eexists; reflexivity.
Qed.

(** [httpGet] run on a world: its result and the world it leaves. *)
Lemma httpGet_run ep params w :
  let st := w_settings w in
  let base := strip_slash (baseUrl st) in
  let q := query_suffix (form_serialize params) in
  let r1 := attempt_result (head (w_net w)) in
  exists hd c,
    httpGet ep params w =
      (with_fallback r1 (attempt_result (head (tail (w_net w))))
         (fun e fe => detailed_error e fe ep (authMode st) base),
       set_console c
         (set_net (match r1 with Ok _ => tail (w_net w) | Throw _ => tail (tail (w_net w)) end)
            (w_requests w ++
               issued r1 (Request (base ++ "/?rest-api=" ++ ep ++ q) "GET" hd None)
                         (Request (base ++ "/index.php?rest-api=" ++ ep ++ q) "GET" hd None))
            w)).
Proof.
  cbv zeta. unfold httpGet, bind, gets, catch, throw.
  run_client.
  eexists.
  destruct (attempt_result (head (w_net w))); run_client;
    [|destruct (attempt_result (head (tail (w_net w)))); run_client];
    autorewrite with world_norm; cbn [issued];
    rewrite <- ?(app_assoc (w_requests w)); eexists; reflexivity.
Qed.

(** The form and headers [form_auth] builds for a content-changing endpoint. *)
Lemma form_auth_mutating_run st ep params w :
  mutating_endpoint ep = true ->
  fst (form_auth st ep params w) = Ok (sign_form params (apiKey st) (w_now w), form_headers0).
Proof.
  intros Hm. unfold form_auth, bind, now_ms, gets. rewrite Hm.
  destruct (debug_run [JStr "强制使用签名认证";
              JObj [("endpoint", JStr ep); ("req_time", JStr (Z_to_js (w_now w / 1000)))]] w)
    as [c ->].
  reflexivity.
Qed.

(** C10: [httpForm] refines the request client's contract: it returns the
    primary path's result when that succeeds, otherwise the fallback's
    result when that succeeds, otherwise one error naming both failures,
    the endpoint, the auth mode and the base URL; it issues exactly one
    request (primary) or two (primary, then fallback), both with the form
    and headers [form_auth] builds, consumes that many network outcomes, and
    changes nothing else but the console. *)
Theorem httpForm_contract ep params w :
  let st := w_settings w in
  let base := strip_slash (baseUrl st) in
  let r1 := attempt_result (head (w_net w)) in
  exists fp hd,
    fst (form_auth st ep params w) = Ok (fp, hd) /\
    exists c, httpForm ep params w =
      (with_fallback r1 (attempt_result (head (tail (w_net w))))
         (fun e fe => detailed_error e fe ep (authMode st) base),
       set_console c
         (set_net (match r1 with Ok _ => tail (w_net w) | Throw _ => tail (tail (w_net w)) end)
            (w_requests w ++
               issued r1 (Request (base ++ "/?rest-api=" ++ ep) "POST" hd (Some (form_serialize fp)))
                         (Request (base ++ "/index.php?rest-api=" ++ ep) "POST" hd
                                  (Some (form_serialize fp))))
            w)).
Proof. apply httpForm_run. Qed.

(** C11: [httpGet] refines the same contract, with the query string in both
    URLs and the headers of [get_headers]. *)
Theorem httpGet_contract ep params w :
  let st := w_settings w in
  let base := strip_slash (baseUrl st) in
  let q := query_suffix (form_serialize params) in
  let r1 := attempt_result (head (w_net w)) in
  exists hd c,
    httpGet ep params w =
      (with_fallback r1 (attempt_result (head (tail (w_net w))))
         (fun e fe => detailed_error e fe ep (authMode st) base),
       set_console c
         (set_net (match r1 with Ok _ => tail (w_net w) | Throw _ => tail (tail (w_net w)) end)
            (w_requests w ++
               issued r1 (Request (base ++ "/?rest-api=" ++ ep ++ q) "GET" hd None)
                         (Request (base ++ "/index.php?rest-api=" ++ ep ++ q) "GET" hd None))
            w)).
Proof. apply httpGet_run. Qed.

(** ** Authentication *)

(** C24: The three content-changing endpoints are signed whatever the
    auth mode: [req_time] is the current time in seconds and [req_sign] is
    [md5(req_time + apiKey)], sent in the form with only the Content-Type
    header. *)
Theorem form_auth_signs_mutating st ep params w :
  mutating_endpoint ep = true ->
  fst (form_auth st ep params w) = Ok (sign_form params (apiKey st) (w_now w), form_headers0).
Proof. apply form_auth_mutating_run. Qed.

Lemma form_auth_signs_mutating_witness :
  mutating_endpoint "article_post" = true /\
  fst (form_auth (Settings "https://b.example" "cookie" "k" "" "" false true true "none" false)
                 "article_post" [("title", "T")]
                 (init_world DEFAULT_SETTINGS [] [] []))
  = Ok (sign_form [("title", "T")] "k" 1700000000000, form_headers0).
Proof.
  split; [reflexivity|].
  exact (form_auth_signs_mutating
           (Settings "https://b.example" "cookie" "k" "" "" false true true "none" false)
           "article_post" [("title", "T")] (init_world DEFAULT_SETTINGS [] [] []) eq_refl).
Defined.

(** In sign mode a GET sends the API key itself in [X-API-Key], next to
    the nonce and signature that were meant to stand in for it. *)
Theorem get_headers_sign_sends_key st w :
  authMode st = "sign" ->
  exists hd, get_headers st w = (Ok hd, w) /\ In ("X-API-Key", apiKey st) hd.
Proof.
  intros Hm. unfold get_headers, bind, now_ms, gets, ret.
  rewrite Hm, bool_decide_true by reflexivity.
  eexists. split; [reflexivity|]. left. reflexivity.
Qed.

Lemma get_headers_sign_sends_key_witness :
  exists hd, get_headers (Settings "https://b.example" "sign" "secret" "" "" false true true "none" false)
               (init_world DEFAULT_SETTINGS [] [] []) = (Ok hd, init_world DEFAULT_SETTINGS [] [] [])
  /\ In ("X-API-Key", "secret") hd.
Proof. apply (get_headers_sign_sends_key (Settings "https://b.example" "sign" "secret" "" "" false true true "none" false)). reflexivity. Defined.
(** ** The fallback path *)

(** When the primary path fails in any way and the fallback answers
    with a successful envelope [d], [httpForm] returns [d], having issued
    exactly the two requests, primary first. *)
Theorem httpForm_fallback_success ep params w e d :
  attempt_result (head (w_net w)) = Throw e ->
  attempt_result (head (tail (w_net w))) = Ok d ->
  fst (httpForm ep params w) = Ok d /\
  map rq_url (drop (length (w_requests w)) (w_requests (snd (httpForm ep params w)))) =
    [strip_slash (baseUrl (w_settings w)) ++ "/?rest-api=" ++ ep;
     strip_slash (baseUrl (w_settings w)) ++ "/index.php?rest-api=" ++ ep].
Proof.
  intros H1 H2. destruct (httpForm_run ep params w) as (fp & hd & _ & c & ->).
  rewrite H1, H2. cbn [fst snd with_fallback issued w_requests set_console set_net].
  rewrite drop_app_length. split; reflexivity.
Qed.

(** The blog of the witness answers the primary path with an error
    envelope and the fallback path with a success. *)
Definition fallback_world : world :=
  init_world (Settings "https://b.example/" "apikey" "k" "" "" false true true "none" false) [] []
    [TResp 200 (Parsed (JObj [("code", JNum (JInt 1)); ("msg", JStr "bad path")]));
     TResp 200 (Parsed (JObj [("code", JNum (JInt 0)); ("data", JObj [])]))].

Lemma httpForm_fallback_success_witness :
  fst (httpForm "sort_list" [] fallback_world)
    = Ok (JObj [("code", JNum (JInt 0)); ("data", JObj [])]) /\
  map rq_url (drop 0 (w_requests (snd (httpForm "sort_list" [] fallback_world)))) =
    ["https://b.example/?rest-api=sort_list"; "https://b.example/index.php?rest-api=sort_list"].
Proof.
  exact (httpForm_fallback_success "sort_list" [] fallback_world "API 调用失败: bad path"
           (JObj [("code", JNum (JInt 0)); ("data", JObj [])]) eq_refl eq_refl).
Defined.

(** ** Frame *)

Lemma debug_stable {T} (p : world -> T) `{!ConsoleBlind p} args : stable (same_on p) (debug args).
Proof. intros w. destruct (debug_run args w) as [c ->]. apply console_blind. Qed.

(** [httpForm] and [httpGet] change nothing but the console and the network. *)
Lemma httpForm_stable {T} (p : world -> T) `{!ConsoleBlind p, !NetBlind p} ep params :
  stable (same_on p) (httpForm ep params).
Proof.
  intros w. destruct (httpForm_run ep params w) as (fp & hd & _ & c & ->).
  unfold same_on. simpl. rewrite console_blind. apply net_blind.
Qed.

Lemma httpForm_grows ep params : stable (grows w_requests) (httpForm ep params).
Proof.
  intros w. destruct (httpForm_run ep params w) as (fp & hd & _ & c & ->). eexists. reflexivity.
Qed.

Lemma httpGet_grows ep params : stable (grows w_requests) (httpGet ep params).
Proof. intros w. destruct (httpGet_run ep params w) as (hd & c & ->). eexists. reflexivity. Qed.

Lemma httpGet_stable {T} (p : world -> T) `{!ConsoleBlind p, !NetBlind p} ep params :
  stable (same_on p) (httpGet ep params).
Proof.
  intros w. destruct (httpGet_run ep params w) as (hd & c & ->).
  unfold same_on. simpl. rewrite console_blind. apply net_blind.
Qed.

#[export] Hint Resolve debug_stable httpForm_stable httpGet_stable httpForm_grows httpGet_grows : stable.
