(* ===== verification/Redact.v ===== *)
(** * Redaction of the API key in debug output: [redactString] (main.ts 183-191)

    [redactString] first replaces every occurrence of the API key by [***]
    with [new RegExp(escapeRegExp(apiKey), 'g')].  By [Escape.v] that
    pattern is the literal key, so the global [replace] is a plain
    left-to-right replacement of the key; this file proves it equal to the
    reference [replace_all_lit], a scan that at each position either
    replaces an occurrence or copies one code unit, and shows that the
    result no longer contains the key when the key has no [*] (a key made
    of or containing [*] can survive: [***] is what is written back). *)

From stdpp Require Import gmap.
From S2P Require Import Prelude JsString Regex RegexParse JsValue Escape Md5 World Http.

Open Scope js_scope.

(** ** The reference: replacing a literal string *)

(** At each position: an occurrence of [k] is replaced by [r] and skipped,
    otherwise one unit is copied. *)
Fixpoint replace_all_lit (fuel : nat) (k r t : jstr) : jstr :=
  match fuel with
  | 0 => t
  | S f =>
    match t with
    | [] => []
    | u :: t' =>
      if js_starts_with t k then r ++ replace_all_lit f k r (drop (length k) t)
      else u :: replace_all_lit f k r t'
    end
  end.

(** ** A literal pattern is a prefix test *)

Section Literal.
Context (ml : bool) (s : jstr).

Lemma mt_lit {R} k : forall i c (kont : nat -> caps -> option R),
  mt false ml s (re_lit k) i c kont =
  if js_starts_with (drop i s) k then kont (i + length k) c else None.
Proof.
  induction k as [|a k IH]; intros i c kont.
  - simpl. rewrite Nat.add_0_r. reflexivity.
  - assert (Hseq : mt false ml s (re_lit (a :: k)) i c kont
                   = mt false ml s (ch a) i c (fun j c' => mt false ml s (re_lit k) j c' kont))
      by (destruct k; reflexivity).
    rewrite Hseq. cbn [mt ch]. destruct (s !! i) as [u|] eqn:Hu.
    + rewrite (drop_S _ _ _ Hu). cbn [js_starts_with]. rewrite IH.
      unfold cls_has, in_ranges. cbn [existsb fst snd xorb].
      destruct (N.eqb_spec a u) as [->|Hne].
      * rewrite N.leb_refl. cbn. rewrite Nat.add_succ_r. reflexivity.
      * replace (N.leb a u && N.leb u a) with false; [reflexivity|].
        symmetry. apply andb_false_iff.
        destruct (N.leb_spec a u), (N.leb_spec u a); auto. exfalso. apply Hne. lia.
    + rewrite drop_ge by (apply lookup_ge_None_1 in Hu; exact Hu). reflexivity.
Qed.

Context (k : jstr) (g : bool).
#[local] Abbreviation rx := (RegExp (re_lit k) g false ml).

Lemma exec_at_lit i :
  exec_at rx s i = if js_starts_with (drop i s) k then Some (i + length k, []) else None.
Proof. unfold exec_at. apply mt_lit. Qed.

Lemma search_fuel_lit : forall f i, i <= length s -> length s + 1 < f + i ->
  search_fuel rx s f i = option_map (fun j => MRec j (j + length k) []) (find_from k (drop i s) i).
Proof.
  induction f as [|f IH]; intros i Hi Hf; [lia|].
  cbn [search_fuel]. rewrite exec_at_lit.
  destruct (js_starts_with (drop i s) k) eqn:Hs.
  - rewrite find_from_hit by exact Hs. reflexivity.
  - destruct (Nat.ltb_spec i (length s)) as [Hlt|Hge].
    + destruct (lookup_lt_is_Some_2 s i Hlt) as [u Hu].
      rewrite (drop_S _ _ _ Hu) in Hs |- *. rewrite find_from_skip by exact Hs.
      apply IH; lia.
    + rewrite drop_ge in Hs |- * by lia. simpl. rewrite Hs. reflexivity.
Qed.

Lemma search_lit i : i <= length s ->
  search rx s i = option_map (fun j => MRec j (j + length k) []) (find_from k (drop i s) i).
Proof. intros Hi. apply search_fuel_lit; lia. Qed.

End Literal.

(** ** The global replace of a literal pattern *)

Lemma all_matches_fuel_same rx s f i i' :
  search rx s i = search rx s i' -> all_matches_fuel rx s f i = all_matches_fuel rx s f i'.
Proof. intros H. destruct f; [reflexivity|]. cbn [all_matches_fuel]. rewrite H. reflexivity. Qed.

Lemma replace_all_lit_none f k r t j :
  find_from k t j = None -> replace_all_lit f k r t = t.
Proof.
  revert f j. induction t as [|u t IH]; intros [|f] j H; try reflexivity.
  apply find_from_none_cons in H as [Hs H]. cbn [replace_all_lit]. rewrite Hs.
  f_equal. exact (IH f (S j) H).
Qed.

Section GlobalLiteral.
Context (ml : bool) (s k r : jstr).
Hypothesis Hk : k <> [].
Hypothesis Hr : forall u, u ∈ r -> u <> 36%N.
#[local] Abbreviation rx := (RegExp (re_lit k) true false ml).

Lemma replace_one_lit m : replace_one rx s (RepStr r) m = r.
Proof. apply get_substitution_plain. intros Hin. exact (Hr _ Hin eq_refl). Qed.

Lemma find_from_at t j : find_from k t j = Some j -> js_starts_with t k = true.
Proof.
  intros H. destruct t as [|u t]; simpl in H; destruct (js_starts_with _ k) eqn:E; auto.
  - discriminate.
  - apply find_from_bounds in H. lia.
Qed.

(** A match of [k] at [i] is replaced and skipped. *)
Lemma all_matches_hit f i : i <= length s -> js_starts_with (drop i s) k = true ->
  all_matches_fuel rx s (S f) i = MRec i (i + length k) [] :: all_matches_fuel rx s f (i + length k).
Proof.
  intros Hi Hs. cbn [all_matches_fuel]. rewrite (search_lit ml s k true i Hi), find_from_hit by exact Hs.
  cbn [option_map m_end m_start]. destruct k; [congruence|].
  rewrite (proj2 (Nat.eqb_neq _ _)) by (simpl; lia). reflexivity.
Qed.

(** Before the next match, a unit is copied. *)
Lemma splice_copy i u ms : s !! i = Some u ->
  (match ms with m :: _ => i < m_start m | [] => True end) ->
  splice rx s (RepStr r) i ms = u :: splice rx s (RepStr r) (S i) ms.
Proof.
  intros Hu Hm. destruct ms as [|m ms]; cbn [splice].
  - apply (drop_S _ _ _ Hu).
  - rewrite (sub_cons s i (m_start m) u Hu Hm). reflexivity.
Qed.

(** The text from [i] on, with its matches replaced, is the reference on
    the suffix [drop i s]. *)
Lemma splice_lit : forall n i f g, length s - i < n -> i <= length s -> n <= f -> n <= g ->
  splice rx s (RepStr r) i (all_matches_fuel rx s f i) = replace_all_lit g k r (drop i s).
Proof.
  induction n as [|n IH]; intros i f g Hn Hi Hf Hg; [lia|].
  destruct f as [|f]; [lia|]. destruct g as [|g]; [lia|].
  destruct (find_from k (drop i s) i) as [j|] eqn:Hj.
  - pose proof (find_from_bounds _ _ _ _ Hj) as Hb. rewrite length_drop in Hb.
    assert (Hk1 : 1 <= length k) by (destruct k; [congruence|simpl; lia]).
    destruct (Nat.eq_dec j i) as [->|Hne].
    + apply find_from_at in Hj. rewrite (all_matches_hit f i Hi Hj). cbn [splice m_start m_end].
      rewrite sub_nil, replace_one_lit.
      destruct (drop i s) as [|u t] eqn:Hd; [destruct k; [congruence|discriminate]|].
      cbn [replace_all_lit]. rewrite Hj, <- Hd, drop_drop. cbn [app]. f_equal.
      apply IH; lia.
    + destruct (lookup_lt_is_Some_2 s i ltac:(lia)) as [u Hu].
      rewrite (drop_S _ _ _ Hu) in Hj |- *.
      destruct (js_starts_with (u :: drop (S i) s) k) eqn:Hs.
      { rewrite find_from_hit in Hj by exact Hs. congruence. }
      rewrite find_from_skip in Hj by exact Hs.
      assert (Hse : search rx s i = search rx s (S i)).
      { rewrite !search_lit by lia. rewrite (drop_S _ _ _ Hu), find_from_skip, Hj by exact Hs.
        reflexivity. }
      rewrite (all_matches_fuel_same rx s (S f) i (S i) Hse).
      rewrite (splice_copy i u _ Hu).
      * cbn [replace_all_lit]. rewrite Hs. f_equal. apply IH; lia.
      * cbn [all_matches_fuel]. rewrite search_lit, Hj by lia. simpl. lia.
  - cbn [all_matches_fuel]. rewrite (search_lit ml s k true i Hi), Hj. cbn [option_map splice].
    symmetry. exact (replace_all_lit_none (S g) k r _ i Hj).
Qed.

(** The global [replace] of a literal pattern is the reference scan. *)
Lemma js_replace_lit : js_replace rx s (RepStr r) = replace_all_lit (S (length s)) k r s.
Proof.
  unfold js_replace, all_matches. cbn [rx_global].
  rewrite (splice_lit (S (length s)) 0 (length s + 2) (S (length s))) by lia.
  reflexivity.
Qed.

End GlobalLiteral.

(** ** What the reference leaves of the key *)

Section NoKey.
Context (k r : jstr).
Hypothesis Hk : k <> [].
Hypothesis Hr : r <> [].

Lemma js_starts_with_nil_r p : js_starts_with [] p = true -> p = [].
Proof. destruct p; [reflexivity|discriminate]. Qed.

(** A prefix of the output made of units foreign to [r] is a prefix of the input. *)
Lemma replace_all_lit_prefix : forall f t p, (forall u, u ∈ p -> u ∉ r) ->
  js_starts_with (replace_all_lit f k r t) p = true -> js_starts_with t p = true.
Proof.
  induction f as [|f IH]; intros t p Hp H; [exact H|].
  destruct p as [|c p]; [destruct t; reflexivity|].
  destruct t as [|u t]; [discriminate|]. cbn [replace_all_lit] in H.
  destruct (js_starts_with (u :: t) k).
  - destruct r as [|x r']; [congruence|]. cbn in H. apply andb_true_iff in H as [Hc _].
    apply N.eqb_eq in Hc. subst. exfalso. apply (Hp x); left.
  - cbn [js_starts_with] in H |- *. apply andb_true_iff in H as [Hc H].
    rewrite Hc. apply (IH t p); [|exact H]. intros v Hv. apply Hp. right. exact Hv.
Qed.

(** Units foreign to [k]'s first unit cannot start an occurrence. *)
Lemma find_from_app_foreign a b j j' : (forall u, u ∈ k -> u ∉ a) ->
  find_from k b j = None -> find_from k (a ++ b) j' = None.
Proof.
  intros Ha Hb. revert j'. induction a as [|x a IH]; intros j'.
  - exact (find_from_shift _ _ _ _ Hb).
  - destruct k as [|c k'] eqn:E; [congruence|]. cbn [app find_from js_starts_with].
    rewrite (proj2 (N.eqb_neq c x)) by (intros ->; apply (Ha x); left; set_solver).
    cbn [andb]. apply IH. intros u Hu Hin. apply (Ha u Hu). right. exact Hin.
Qed.

Lemma replace_all_lit_no_key : (forall u, u ∈ k -> u ∉ r) ->
  forall f t j, length t < f -> find_from k (replace_all_lit f k r t) j = None.
Proof.
  intros Hkr. induction f as [|f IH]; intros t j Hf; [lia|].
  destruct t as [|u t].
  - cbn. destruct k; [congruence|reflexivity].
  - assert (Hl : 1 <= length k) by (destruct k; [congruence|simpl; lia]).
    destruct (js_starts_with (u :: t) k) eqn:Hs.
    + cbn [replace_all_lit]. rewrite Hs. apply (find_from_app_foreign _ _ j); [exact Hkr|].
      apply IH. rewrite length_drop. simpl in *. lia.
    + assert (Ho : js_starts_with (replace_all_lit (S f) k r (u :: t)) k = false).
      { destruct (js_starts_with (replace_all_lit (S f) k r (u :: t)) k) eqn:E; [|reflexivity].
        apply replace_all_lit_prefix in E; [congruence|exact Hkr]. }
      cbn [replace_all_lit] in Ho |- *. rewrite Hs in Ho |- *.
      cbn [find_from]. rewrite Ho. apply IH. simpl in Hf. lia.
Qed.

End NoKey.

(** ** The key pass of [redactString] *)

Lemma js_includes_none s pat : find_from pat s 0 = None -> js_includes s pat = false.
Proof.
  intros H. unfold js_includes, js_index_of.
  replace (clamp (length s) 0) with 0 by (unfold clamp; lia). rewrite drop_0, H. reflexivity.
Qed.

Lemma stars_plain : forall u, u ∈ "***" -> u <> 36%N.
Proof. intros u Hu. repeat (apply elem_of_cons in Hu as [->|Hu]; [discriminate|]). set_solver. Qed.

Lemma stars_foreign (k : jstr) : 42%N ∉ k -> forall u, u ∈ k -> u ∉ "***".
Proof. intros H u Hu Hs. apply H. repeat (apply elem_of_cons in Hs as [<-|Hs]; [exact Hu|]). set_solver. Qed.

(** C26: The key pass of [redactString] is the reference replacement of
    the key by [***]: it never throws, and with an empty key it copies the
    text. *)
Theorem redact_api_key_reference st s :
  redact_api_key st s =
  Some (if bool_decide (apiKey st = []) then s else replace_all_lit (S (length s)) (apiKey st) "***" s).
Proof.
  unfold redact_api_key. case_bool_decide as Hk; [reflexivity|].
  rewrite (escape_parse_lit _ "g" true false false) by reflexivity. cbn [option_map].
  f_equal. apply js_replace_lit; [exact Hk|exact stars_plain].
Qed.

(** C25: When the API key is not empty and has no [*], the key pass of
    [redactString] returns the reference replacement of the key by [***],
    and that text no longer contains the key. *)
Theorem redact_api_key_removes st s :
  apiKey st <> [] -> 42%N ∉ apiKey st ->
  redact_api_key st s = Some (replace_all_lit (S (length s)) (apiKey st) "***" s) /\
  js_includes (replace_all_lit (S (length s)) (apiKey st) "***" s) (apiKey st) = false.
Proof.
  intros Hk Hs. unfold redact_api_key. rewrite bool_decide_eq_false_2 by exact Hk.
  rewrite (escape_parse_lit _ "g" true false false) by reflexivity. cbn [option_map].
  rewrite js_replace_lit by (exact Hk || exact stars_plain). split; [reflexivity|].
  apply js_includes_none, replace_all_lit_no_key; [exact Hk|discriminate|exact (stars_foreign _ Hs)|lia].
Qed.

(** Settings with the given API key and debug output on. *)
Definition with_key (k : jstr) : settings :=
  Settings "https://blog.example" "apikey" k "1" "" false false true "none" true.

(** ** Witnesses *)

Lemma redact_api_key_removes_witness :
  apiKey (with_key "s3cret") <> [] /\ (42%N ∉ apiKey (with_key "s3cret")) /\
  redact_api_key (with_key "s3cret") "key=s3cret&k2=s3cret"
  = Some (replace_all_lit 21 (apiKey (with_key "s3cret")) "***" "key=s3cret&k2=s3cret") /\
  js_includes (replace_all_lit 21 (apiKey (with_key "s3cret")) "***" "key=s3cret&k2=s3cret")
    (apiKey (with_key "s3cret")) = false.
Proof.
  assert (H1 : apiKey (with_key "s3cret") <> []) by discriminate.
  assert (H2 : 42%N ∉ apiKey (with_key "s3cret")) by (apply (bool_decide_unpack (42%N ∉ apiKey (with_key "s3cret"))); vm_compute; exact I).
  split; [exact H1|]. split; [exact H2|].
  exact (redact_api_key_removes (with_key "s3cret") "key=s3cret&k2=s3cret" H1 H2).
Defined.
