(* ===== verification/Persist.v ===== *)
(** * Loading and saving the plugin's state (main.ts 130-156)

    [saveState] writes [{settings, articleMap}] with [saveData]; on start,
    [loadSettings] reads it back.  Data without a [settings] key is the
    format of earlier versions, a bare settings object: it is migrated by
    merging it over [DEFAULT_SETTINGS], with an empty identifier map.

    [settings_of] is [{ ...DEFAULT_SETTINGS, ...raw }] for the ten declared
    keys: a key present with a value of its declared type overrides the
    default.  A stored value of another type is outside the model
    ([None]), as are keys the settings do not declare, which the spread
    copies but nothing reads. *)

From stdpp Require Import gmap.
From S2P Require Import Prelude JsString JsValue World.

Open Scope js_scope.
Open Scope plugin_scope.

Definition str_field (raw : jsval) (k : jstr) (d : jstr) : option jstr :=
  match get_prop raw k with JUndef => Some d | JStr s => Some s | _ => None end.

Definition bool_field (raw : jsval) (k : jstr) (d : bool) : option bool :=
  match get_prop raw k with JUndef => Some d | JBool b => Some b | _ => None end.

(** [{ ...base, ...raw }] for the keys of [EmlogSettings]. *)
Definition settings_of (base : settings) (raw : jsval) : option settings :=
  a ← str_field raw "baseUrl" (baseUrl base) ;
  m ← str_field raw "authMode" (authMode base) ;
  k ← str_field raw "apiKey" (apiKey base) ;
  u ← str_field raw "defaultAuthorUid" (defaultAuthorUid base) ;
  s ← str_field raw "defaultSortId" (defaultSortId base) ;
  d ← bool_field raw "defaultDraft" (defaultDraft base) ;
  c ← bool_field raw "autoCover" (autoCover base) ;
  r ← bool_field raw "allowRemark" (allowRemark base) ;
  p ← str_field raw "postAction" (postAction base) ;
  e ← bool_field raw "enableDebug" (enableDebug base) ;
  Some (Settings a m k u s d c r p e).

(** A JSON object as a map; a later duplicate key wins, as in [JSON.parse]. *)
Definition map_of (v : jsval) : option (gmap jstr jsval) :=
  match v with
  | JObj fs => Some (foldl (fun m kv => <[kv.1 := kv.2]> m) ∅ fs)
  | _ => None
  end.

(** Lines 130-144 on the value [loadData()] resolves to. *)
Definition load_state (raw : jsval) : option (settings * gmap jstr jsval) :=
  if negb (js_truthy raw) then Some (DEFAULT_SETTINGS, ∅)
  else if js_truthy (get_prop raw "settings") then
    st ← settings_of DEFAULT_SETTINGS (get_prop raw "settings") ;
    am ← map_of (js_or (get_prop raw "articleMap") (JObj [])) ;
    Some (st, am)
  else
    st ← settings_of DEFAULT_SETTINGS raw ;
    Some (st, ∅).

(** [loadSettings()] (lines 130-144); [loadData()] gives [null] when
    nothing was saved. *)
Definition loadSettings : M unit :=
  do raw <- gets w_saved ;
  match load_state (default JNull raw) with
  | Some (st, am) => do _ <- modify (set_settings st) ; modify (set_articleMap am)
  | None => throw "stored settings of an unexpected type"
  end.

(** [saveState()] (lines 146-152). *)
Definition saveState : M unit :=
  do st <- gets w_settings ;
  do am <- gets w_articleMap ;
  saveData (PluginState st am).

(** ** Lemmas *)

Lemma foldr_insert_comm (l : list (jstr * jsval)) (m : gmap jstr jsval) k v :
  k ∉ l.*1 ->
  foldr (fun kv m => <[kv.1 := kv.2]> m) (<[k := v]> m) l
  = <[k := v]> (foldr (fun kv m => <[kv.1 := kv.2]> m) m l).
Proof.
  induction l as [|[k' v'] l IH]; intros Hk; [reflexivity|].
  simpl in *. apply not_elem_of_cons in Hk as [Hne Hk].
  rewrite IH by exact Hk. apply insert_insert_ne. congruence.
Qed.

(** Without duplicate keys, inserting left to right builds [list_to_map]. *)
Lemma foldl_insert_nodup (l : list (jstr * jsval)) (m : gmap jstr jsval) :
  NoDup l.*1 ->
  foldl (fun m kv => <[kv.1 := kv.2]> m) m l = foldr (fun kv m => <[kv.1 := kv.2]> m) m l.
Proof.
  revert m. induction l as [|[k v] l IH]; intros m Hnd; [reflexivity|].
  simpl in *. inversion Hnd as [|? ? Hk Hnd']; subst.
  rewrite IH by exact Hnd'. apply foldr_insert_comm, Hk.
Qed.

Lemma map_of_map_to_list (am : gmap jstr jsval) : map_of (JObj (map_to_list am)) = Some am.
Proof.
  simpl. f_equal. rewrite foldl_insert_nodup by apply NoDup_fst_map_to_list.
  apply list_to_map_to_list.
Qed.

Lemma settings_of_json st : settings_of DEFAULT_SETTINGS (settings_json st) = Some st.
Proof. destruct st. reflexivity. Qed.

Lemma load_state_json st am : load_state (state_json (PluginState st am)) = Some (st, am).
Proof.
  unfold load_state.
  change (get_prop (state_json (PluginState st am)) "settings") with (settings_json st).
  change (get_prop (state_json (PluginState st am)) "articleMap") with (JObj (map_to_list am)).
  change (js_truthy (state_json (PluginState st am))) with true.
  change (js_truthy (settings_json st)) with true. cbv iota beta.
  rewrite settings_of_json. cbn [js_or js_truthy]. rewrite map_of_map_to_list. reflexivity.
Qed.

(** C33: Saving and loading round-trip: after a [saveState] that the storage
    accepts, a restart that
    runs [loadSettings] on the saved data gets back the settings and the
    identifier map that were saved. *)
Theorem saveState_loadSettings w w' :
  w_disk w = None ->
  w_saved w' = w_saved (snd (saveState w)) ->
  fst (loadSettings w') = Ok tt /\
  w_settings (snd (loadSettings w')) = w_settings w /\
  w_articleMap (snd (loadSettings w')) = w_articleMap w.
Proof.
  intros Hd H. unfold loadSettings, bind, gets. rewrite H.
  unfold saveState, saveData, bind, gets. cbn [fst snd]. rewrite Hd.
  cbn [snd modify w_saved set_saved default id]. rewrite load_state_json. repeat split.
Qed.

(** Data saved by an earlier version, a bare settings object, is
    migrated: the settings load as they were and the identifier map starts
    empty. *)
Theorem load_state_legacy st : load_state (settings_json st) = Some (st, ∅).
Proof.
  unfold load_state. change (js_truthy (settings_json st)) with true.
  change (get_prop (settings_json st) "settings") with JUndef. cbv iota beta.
  rewrite settings_of_json. reflexivity.
Qed.

Lemma saveState_loadSettings_witness :
  let w := init_world DEFAULT_SETTINGS [] [] [] in
  let w' := set_saved (state_json (PluginState DEFAULT_SETTINGS ∅)) (init_world DEFAULT_SETTINGS [] [] []) in
  w_disk w = None /\ w_saved w' = w_saved (snd (saveState w)) /\
  (fst (loadSettings w') = Ok tt /\
   w_settings (snd (loadSettings w')) = w_settings w /\
   w_articleMap (snd (loadSettings w')) = w_articleMap w).
Proof.
  split; [reflexivity|]. split; [reflexivity|].
  exact (saveState_loadSettings (init_world DEFAULT_SETTINGS [] [] [])
           (set_saved (state_json (PluginState DEFAULT_SETTINGS ∅)) (init_world DEFAULT_SETTINGS [] [] []))
           eq_refl eq_refl).
Defined.
