(* ===== verification/Metadata.v ===== *)
(** * What a note publishes as: title, excerpt, body, date and category
    (main.ts 206-281, 522-575)

    [deriveTitle] and [deriveExcerpt] read the front-matter object and the
    note text; [removeFromContent] cuts the YAML header off the body that
    is sent; [formatDate] prints the local time of [publish_date];
    [flattenSorts] turns the blog's category tree into the indented list of
    the dropdowns and [getSortNameByIdPublic] looks a category up in it.
    The recursion of [flattenSorts] is given fuel, one unit per nesting
    level of the JSON value plus one, and is shown equal to the relational
    pre-order listing [flattens]. *)

From S2P Require Import Prelude JsString Regex RegexParse JsValue World.

Open Scope js_scope.

(** ** Title (lines 206-224) *)

(** The text after the first line that trims to [# ...]. *)
Fixpoint first_heading (lines : list jstr) : option jstr :=
  match lines with
  | [] => None
  | l :: ls =>
    let t := js_trim l in
    if js_starts_with t "# " then Some (js_trim (js_substring_from t 2)) else first_heading ls
  end.

(** [deriveTitle(content, file?, frontmatter?)]. *)
Definition deriveTitle (content : jstr) (file : option tfile) (fm : jsval) : jstr :=
  if js_truthy (get_prop fm "title") then js_string (get_prop fm "title")
  else match file with
       | Some f => if bool_decide (tf_basename f = []) then
                     default "无标题文章" (first_heading (js_split content 10))
                   else tf_basename f
       | None => default "无标题文章" (first_heading (js_split content 10))
       end.

(** ** Header removal (lines 257-264) *)

Definition header_open : jstr := "---" ++ LF.
Definition header_close : jstr := LF ++ "---" ++ LF.

(** [removeFromContent(content)]. *)
Definition removeFromContent (content : jstr) : jstr :=
  if negb (js_starts_with content header_open) then content
  else let endIndex := js_index_of content header_close 4 in
       if Z.eqb endIndex (-1) then content
       else js_substring_from content (endIndex + 5).

(** ** Excerpt (lines 226-249) *)

(** [/!\[.*?\]\(.*?\)/g]: Markdown image embeds. *)
Definition image_rx : regexp := rx_literal "!\[.*?\]\(.*?\)" "g".

(** The lines kept by the filter of line 241. *)
Definition excerpt_line (line : jstr) : bool :=
  let t := js_trim line in negb (bool_decide (t = [])) && negb (js_starts_with t "#").

(** [deriveExcerpt(markdown, frontmatter?)]; lines 233-238 are the body of
    [removeFromContent], written there a second time. *)
Definition deriveExcerpt (markdown : jstr) (fm : jsval) : jstr :=
  if js_truthy (get_prop fm "excerpt") then js_string (get_prop fm "excerpt")
  else
    let content := removeFromContent markdown in
    let lines := filter excerpt_line (js_split content 10) in
    let text := js_trim (js_replace image_rx (js_join lines " ") (RepStr "")) in
    if Nat.ltb 150 (length text) then js_substring text 0 150 ++ "..." else text.

(** ** Date (lines 572-575) *)

(** [formatDate(new Date())]: [YYYY-MM-DD hh:mm:ss] in local time. *)
Definition formatDate (d : local_time) : jstr :=
  Z_to_js (lt_year d) ++ "-" ++ pad2 (lt_month d) ++ "-" ++ pad2 (lt_day d) ++ " " ++
  pad2 (lt_hours d) ++ ":" ++ pad2 (lt_minutes d) ++ ":" ++ pad2 (lt_seconds d).

(** ** Categories (lines 522-533, 565-570) *)

(** The message of the TypeError [s.sid] throws on [null] or [undefined]. *)
Definition sid_read_msg (s : jsval) : jstr :=
  "Cannot read properties of " ++ js_string s ++ " (reading 'sid')".

(** What the engine throws when the recursion exhausts the call stack. *)
Definition stack_msg : jstr := "Maximum call stack size exceeded".

(** The entry line 525-527 pushes for [s]. *)
Definition sort_entry (s : jsval) (depth : nat) : flat_sort :=
  FlatSort (js_number (js_nullish_or (js_nullish_or (get_prop s "sid") (get_prop s "id"))
                                     (get_prop s "sort_id")))
           (js_string (js_nullish_or (get_prop s "sortname")
                         (js_nullish_or (get_prop s "name") (JStr "未命名"))))
           depth.

(** [Array.isArray(s.children) && s.children.length > 0]. *)
Definition sort_children (s : jsval) : list jsval :=
  match get_prop s "children" with JArr cs => cs | _ => [] end.

(** [flattenSorts(sorts, depth)] (lines 522-533), one nesting level per unit of [fuel]: the
    recursion of the source is bounded by the nesting of the tree, and
    [flattenSorts] below gives it that much. *)
Fixpoint flatten_fuel (fuel : nat) (sorts : list jsval) (depth : nat) : outcome (list flat_sort) :=
  match fuel with
  | 0 => Throw stack_msg
  | S f =>
    (fix go (l : list jsval) : outcome (list flat_sort) :=
       match l with
       | [] => Ok []
       | s :: r =>
         if is_nullish s then Throw (sid_read_msg s)
         else
           match (match sort_children s with
                  | [] => Ok []
                  | cs => flatten_fuel f cs (S depth)
                  end) with
           | Throw e => Throw e
           | Ok kids =>
             match go r with
             | Throw e => Throw e
             | Ok rest => Ok (sort_entry s depth :: kids ++ rest)
             end
           end
       end) sorts
  end.

(** The nesting depth of a JSON value. *)
Fixpoint js_depth (v : jsval) : nat :=
  match v with
  | JArr l => S (list_max (map js_depth l))
  | JObj fs => S (list_max (map (fun p => js_depth p.2) fs))
  | _ => 0
  end.

Definition forest_depth (sorts : list jsval) : nat := list_max (map js_depth sorts).

Definition flattenSorts (sorts : list jsval) (depth : nat) : outcome (list flat_sort) :=
  flatten_fuel (S (forest_depth sorts)) sorts depth.

Definition jsnum_strict_eq (a b : jsnum) : bool :=
  match a, b with JInt x, JInt y => Z.eqb x y | _, _ => false end.

(** [getSortNameByIdPublic(id)] over [cachedSorts]. *)
Definition getSortNameByIdPublic (cached : list flat_sort) (id : jsval) : option jstr :=
  if is_nullish id || js_eq_str id "" then None
  else let nid := js_number id in
       option_map fs_name (List.find (fun s => jsnum_strict_eq (fs_id s) nid) cached).

(** ** Lemmas *)

(** The body after a header whose first closing line is the one after [y]. *)
Theorem removeFromContent_header y b :
  find_from header_close (y ++ header_close) 0 = Some (length y) ->
  removeFromContent (header_open ++ y ++ header_close ++ b) = b.
Proof.
  intros H. unfold removeFromContent. rewrite js_starts_with_app_self. simpl negb.
  cbv iota. unfold js_index_of.
  replace (clamp _ 4) with 4 by (unfold clamp; rewrite !length_app; simpl; lia).
  change (drop 4 (header_open ++ y ++ header_close ++ b)) with (y ++ header_close ++ b).
  pose proof (find_from_add header_close ((y ++ header_close) ++ b) 0 4) as Ha.
  rewrite Nat.add_0_r in Ha.
  rewrite (app_assoc y header_close b), Ha, (find_from_app _ _ _ _ _ H).
  cbn [option_map]. rewrite (proj2 (Z.eqb_neq _ _)) by lia.
  replace (Z.of_nat (4 + length y) + 5)%Z
    with (Z.of_nat (length (header_open ++ y ++ header_close))) by (rewrite !length_app; simpl; lia).
  rewrite (app_assoc header_open (y ++ header_close) b). apply js_substring_from_app.
Qed.

(** C27: Without an [excerpt] in the front matter, the excerpt is at most 150
    code units of text followed by ["..."]. *)
Theorem deriveExcerpt_length md fm :
  js_truthy (get_prop fm "excerpt") = false -> length (deriveExcerpt md fm) <= 153.
Proof.
  intros H. unfold deriveExcerpt. rewrite H. cbv zeta.
  match goal with |- context [Nat.ltb 150 (length ?t)] =>
    destruct (Nat.ltb_spec 150 (length t)) end.
  - rewrite length_app, (js_substring_prefix _ 150) by lia.
    rewrite length_take. change (length "...") with 3. lia.
  - lia.
Qed.

(** ** The category tree, relationally *)

(** [flattens sorts d l]: [l] is the pre-order listing of the forest
    [sorts] at depth [d], each node followed by its children one level
    deeper, with no [null] or [undefined] node on the way. *)
Inductive flattens : list jsval -> nat -> list flat_sort -> Prop :=
| flattens_nil d : flattens [] d []
| flattens_cons s r d kids rest :
    is_nullish s = false ->
    flattens (sort_children s) (S d) kids ->
    flattens r d rest ->
    flattens (s :: r) d (sort_entry s d :: kids ++ rest).

Lemma flatten_fuel_cons f s r d :
  flatten_fuel (S f) (s :: r) d =
  if is_nullish s then Throw (sid_read_msg s)
  else match (match sort_children s with [] => Ok [] | cs => flatten_fuel f cs (S d) end) with
       | Throw e => Throw e
       | Ok kids => match flatten_fuel (S f) r d with
                    | Throw e => Throw e
                    | Ok rest => Ok (sort_entry s d :: kids ++ rest)
                    end
       end.
Proof. reflexivity. Qed.

Lemma list_max_map_in {A} (g : A -> nat) x l : In x l -> g x <= list_max (map g l).
Proof.
  intros Hin. pose proof (proj1 (list_max_le (map g l) _) (le_n _)) as HF.
  rewrite Forall_forall in HF. apply HF, in_map, Hin.
Qed.

Lemma js_depth_arr l : js_depth (JArr l) = S (list_max (map js_depth l)).
Proof. reflexivity. Qed.

Lemma js_depth_obj fs : js_depth (JObj fs) = S (list_max (map (fun p => js_depth p.2) fs)).
Proof. reflexivity. Qed.

(** The children of a node are at least two levels shallower than it. *)
Lemma sort_children_depth s :
  sort_children s <> [] -> S (S (forest_depth (sort_children s))) <= js_depth s.
Proof.
  unfold sort_children, get_prop. destruct s as [| | | | |l|fs]; try congruence.
  destruct (List.find _ fs) as [[k v]|] eqn:Hf; [|congruence].
  destruct v; cbn [snd]; intros Hne; try congruence. apply find_some in Hf as [Hin _].
  pose proof (list_max_map_in (fun p : jstr * jsval => js_depth p.2) _ _ Hin) as Hd.
  cbn [snd] in Hd. rewrite js_depth_arr in Hd. rewrite js_depth_obj. unfold forest_depth. lia.
Qed.

Lemma forest_depth_cons s r :
  js_depth s <= forest_depth (s :: r) /\ forest_depth r <= forest_depth (s :: r).
Proof. unfold forest_depth. simpl. lia. Qed.

Lemma flatten_fuel_complete sorts d l :
  flattens sorts d l -> forall f, forest_depth sorts < f -> flatten_fuel f sorts d = Ok l.
Proof.
  induction 1 as [d|s r d kids rest Hn Hk IHk Hr IHr]; intros [|f] Hf; try lia; [reflexivity|].
  pose proof (forest_depth_cons s r) as [Hs Hrd].
  rewrite flatten_fuel_cons, Hn, (IHr (S f)) by lia.
  destruct (sort_children s) as [|c cs] eqn:Ec.
  - inversion Hk; subst. reflexivity.
  - pose proof (sort_children_depth s) as Hd. rewrite Ec in Hd.
    rewrite (IHk f) by (specialize (Hd ltac:(discriminate)); lia). reflexivity.
Qed.

Lemma flatten_fuel_sound f : forall sorts d l,
  flatten_fuel f sorts d = Ok l -> flattens sorts d l.
Proof.
  induction f as [|f IHf]; intros sorts d l H; [discriminate|].
  revert l H. induction sorts as [|s r IHr]; intros l H.
  - injection H as <-. constructor.
  - rewrite flatten_fuel_cons in H.
    destruct (is_nullish s) eqn:Hn; [discriminate|].
    destruct (match sort_children s with [] => Ok [] | cs => flatten_fuel f cs (S d) end)
      as [kids|e] eqn:Hk; [|discriminate].
    destruct (flatten_fuel (S f) r d) as [rest|e] eqn:Hr; [|discriminate].
    injection H as <-. constructor; auto.
    destruct (sort_children s); [injection Hk as <-; constructor|]. auto.
Qed.

Lemma flatten_fuel_errors f : forall sorts d e,
  forest_depth sorts < f -> flatten_fuel f sorts d = Throw e ->
  exists s, is_nullish s = true /\ e = sid_read_msg s.
Proof.
  induction f as [|f IHf]; intros sorts d e Hf H; [lia|].
  revert e H. induction sorts as [|s r IHr]; intros e H; [discriminate|].
  pose proof (forest_depth_cons s r) as [Hs Hrd].
  rewrite flatten_fuel_cons in H.
  destruct (is_nullish s) eqn:Hn; [injection H as <-; eauto|].
  destruct (match sort_children s with [] => Ok [] | cs => flatten_fuel f cs (S d) end)
    as [kids|e'] eqn:Hk.
  - destruct (flatten_fuel (S f) r d) as [rest|e''] eqn:Hr; [discriminate|].
    injection H as <-. apply (IHr ltac:(lia) _ eq_refl).
  - injection H as <-. pose proof (sort_children_depth s) as Hd.
    destruct (sort_children s) as [|c cs]; [discriminate|].
    apply (IHf (c :: cs) (S d)); [specialize (Hd ltac:(discriminate)); lia | exact Hk].
Qed.

(** C28: [flattenSorts] computes the pre-order listing of the category
    tree: it returns [l] exactly when [l] is the listing of the forest, each
    category followed by its children one level deeper. *)
Theorem flattenSorts_spec sorts d l : flattenSorts sorts d = Ok l <-> flattens sorts d l.
Proof.
  split; [apply flatten_fuel_sound|].
  intros H. apply (flatten_fuel_complete _ _ _ H). unfold forest_depth. lia.
Qed.

(** C29: [flattenSorts] terminates on every category tree within its
    fuel: it never runs out, and fails only with the TypeError of a
    [null]/[undefined] category. *)
Theorem flattenSorts_total sorts d :
  (exists l, flattenSorts sorts d = Ok l) \/
  (exists s, is_nullish s = true /\ flattenSorts sorts d = Throw (sid_read_msg s)).
Proof.
  destruct (flattenSorts sorts d) as [l|e] eqn:H; [left; eauto|right].
  destruct (flatten_fuel_errors (S (forest_depth sorts)) sorts d e (Nat.lt_succ_diag_r _) H) as (s & Hs & ->). eauto.
Qed.

Lemma Z_to_js_nonempty z : Z_to_js z <> [].
Proof.
  destruct z as [|p|p]; [discriminate| |discriminate].
  change (Z_to_js (Zpos p)) with (digits_aux (S (N.size_nat (Npos p))) (Npos p) []).
  destruct (digits_aux_digits (S (N.size_nat (Npos p))) (Npos p) []) as (x & -> & _ & Hne).
  rewrite app_nil_r. apply Hne. discriminate.
Qed.

(** An id kept as the string [String(id)] (as the category dropdown
    stores it) finds the same category as the number [id]: the first
    cached category whose id is [id]. *)
Lemma getSortName_string_id cached z :
  getSortNameByIdPublic cached (JStr (Z_to_js z))
  = option_map fs_name (List.find (fun s => jsnum_strict_eq (fs_id s) (JInt z)) cached).
Proof.
  unfold getSortNameByIdPublic. cbn [is_nullish js_eq_str js_number orb].
  rewrite bool_decide_eq_false_2 by apply Z_to_js_nonempty.
  rewrite string_to_number_Z_to_js. reflexivity.
Qed.

Lemma removeFromContent_header_witness :
  removeFromContent (header_open ++ "title: x" ++ header_close ++ "# Hello") = "# Hello".
Proof. apply removeFromContent_header. vm_compute. reflexivity. Defined.

Lemma deriveExcerpt_length_witness :
  length (deriveExcerpt (js_repeat "word " 40) (JObj [])) <= 153.
Proof. apply deriveExcerpt_length. reflexivity. Defined.
