(* ===== verification/Images.v ===== *)
(** * The image rewriter: [processImages], [resolveFile], [joinPath]
    (main.ts 788-842)

    [processImages] scans the body twice with global [exec] loops, once for
    Markdown embeds [![alt](path)] and once for wiki embeds [![[path|..]]],
    resolves each local path to a vault file, uploads it and records
    [mapping[path] = url]; it then rewrites every embed of a recorded path.
    The upload goes through [(this as any).uploadBinary(f)], a method the
    plugin does not define: the interface [Uploader] below states what an
    uploader provides, and [plugin_uploader] is the plugin's own, whose
    every call throws the TypeError of calling [undefined].

    [joinPath] resolves a relative path against the note's folder with a
    stack of segments; [resolveFile] tries that path, then the path as
    given, then the first vault file with the same name.  The theorems
    show that the loops terminate, what the plugin as written returns
    (the body unchanged), what an uploader that answers gives, that for
    any uploader the first loop uploads once per local occurrence, and
    that [joinPath] normalises relative paths. *)

From S2P Require Import Prelude JsString Regex RegexParse JsValue Escape World Http.

Open Scope js_scope.
Open Scope plugin_scope.

(** ** Paths (lines 818-842) *)

(** One segment of the loop of [joinPath] on the stack, top first. *)
Definition join_step (stack : list jstr) (seg : jstr) : list jstr :=
  if bool_decide (seg = []) || bool_decide (seg = ".") then stack
  else if bool_decide (seg = "..") then tail stack
  else seg :: stack.

(** [joinPath(parentPath, relative)]. *)
Definition joinPath (parentPath relative : jstr) : jstr :=
  if js_starts_with relative "/" then js_slice_from relative 1
  else
    let parentDir := js_substring parentPath 0 (js_last_index_of parentPath "/") in
    let parts := js_split ((if bool_decide (parentDir = []) then [] else parentDir ++ "/")
                           ++ relative) 47 in
    js_join (rev (foldl join_step [] parts)) "/".

(** [vault.getFileByPath(path)] over the vault's files. *)
Definition getFileByPath (files : list (jstr * jstr)) (path : jstr) : option tfile :=
  if existsb (fun p => bool_decide (p.1 = path)) files then Some (mk_tfile path) else None.

(** [resolveFile(pathLike, current)]. *)
Definition resolveFile (files : list (jstr * jstr)) (pathLike : jstr) (current : tfile)
    : option tfile :=
  let rel := joinPath (tf_path current) pathLike in
  match getFileByPath files rel with
  | Some f => Some f
  | None =>
    match getFileByPath files pathLike with
    | Some f => Some f
    | None =>
      let base := List.last (js_split pathLike 47) [] in
      if bool_decide (base = []) then None
      else head (filter (fun x => bool_decide (tf_name x = base)) (map (fun p => mk_tfile p.1) files))
    end
  end.

(** ** The uploader *)

(** What [processImages] needs of [uploadBinary]: a file in, a URL out,
    with any effect on the world. *)
Class Uploader := { uploadBinary : tfile -> M jstr }.

(** The message of calling an undefined method. *)
Definition not_a_function : jstr := "this.uploadBinary is not a function".

(** The plugin as written: [uploadBinary] is [undefined]. *)
#[export] Instance plugin_uploader : Uploader := {| uploadBinary := fun _ => throw not_a_function |}.

(** ** [processImages] (lines 788-816) *)

Definition md_img_rx : regexp := rx_literal "!\[[^\]]*\]\(([^)]+)\)" "g".
Definition wiki_img_rx : regexp := rx_literal "!\[\[([^\]|]+)(?:\|[^\]]*)?\]\]" "g".
Definition remote_rx : regexp := rx_literal "^(https?:)?\/\/" "i".

(** [while ((m = rx.exec(s)) !== null)]: the matches in order.  An empty
    match would make the loop spin forever; [exec_loops_terminate] shows that
    the two loops of [processImages] never meet one. *)
Definition exec_loop (rx : regexp) (s : jstr) : M (list mrec) :=
  match exec_all rx s with
  | Some ms => ret ms
  | None => throw "exec loop does not terminate"
  end.

Section Rewriter.
Context `{Uploader}.

(** [try { url = await uploadBinary(f); mapping[p] = url } catch (e) {..}]. *)
Definition upload_one (f : tfile) (p : jstr) (mapping : js_object) : M js_object :=
  catch (do url <- uploadBinary f ; ret (obj_set mapping p url))
        (fun e => do _ <- debug [JStr "图片上传失败"; JStr p; JStr e] ; ret mapping).

(** The body of the first loop (lines 794-800). *)
Fixpoint md_loop (markdown : jstr) (current : tfile) (ms : list mrec) (mapping : js_object)
    : M js_object :=
  match ms with
  | [] => ret mapping
  | m :: ms' =>
    let p := js_trim (default [] (m_group markdown m 1)) in
    if js_test remote_rx p || js_starts_with p "data:" then md_loop markdown current ms' mapping
    else
      do files <- gets w_files ;
      match resolveFile files p current with
      | Some f => do mapping' <- upload_one f p mapping ; md_loop markdown current ms' mapping'
      | None => md_loop markdown current ms' mapping
      end
  end.

(** The body of the second loop (lines 803-809). *)
Fixpoint wiki_loop (markdown : jstr) (current : tfile) (ms : list mrec) (mapping : js_object)
    : M js_object :=
  match ms with
  | [] => ret mapping
  | m :: ms' =>
    let p := js_trim (default [] (m_group markdown m 1)) in
    do files <- gets w_files ;
    match resolveFile files p current with
    | Some f => do mapping' <- upload_one f p mapping ; wiki_loop markdown current ms' mapping'
    | None => wiki_loop markdown current ms' mapping
    end
  end.

(** [new RegExp(src, flags)], throwing on a syntax error. *)
Definition new_RegExp (src flags : jstr) : M regexp :=
  match new_regexp src flags with
  | Some rx => ret rx
  | None => throw ("Invalid regular expression: /" ++ src ++ "/: Invalid")
  end.

(** The two patterns of line 812-813 for the path [p]; the template
    literal turns [\n] and [\t] into a line feed and a tab. *)
Definition md_ref_src (p : jstr) : jstr :=
  "!\[[^\]]*\]\(" ++ LF ++ "?" ++ TAB ++ "?" ++ escapeRegExp p ++ "\)".
Definition wiki_ref_src (p : jstr) : jstr := "!\[\[" ++ escapeRegExp p ++ "(\|[^\]]*)?\]\]".

(** The rewriting loop of lines 811-814. *)
Fixpoint rewrite_refs (entries : js_object) (next : jstr) : M jstr :=
  match entries with
  | [] => ret next
  | (p, url) :: es =>
    do r1 <- new_RegExp (md_ref_src p) "g" ;
    let next1 := js_replace r1 next (RepFn (fun mm => js_replace_str mm p (RepStr url))) in
    do r2 <- new_RegExp (wiki_ref_src p) "g" ;
    let next2 := js_replace r2 next1 (RepStr ("![](" ++ url ++ ")")) in
    rewrite_refs es next2
  end.

Definition processImages (markdown : jstr) (current : tfile) : M (jstr * js_object) :=
  do ms1 <- exec_loop md_img_rx markdown ;
  do mapping1 <- md_loop markdown current ms1 [] ;
  do ms2 <- exec_loop wiki_img_rx markdown ;
  do mapping <- wiki_loop markdown current ms2 mapping1 ;
  do next <- rewrite_refs (obj_entries mapping) markdown ;
  ret (next, mapping).

End Rewriter.

(** The guards of the first loop (lines 794-797): the path of a match is
    not remote nor a [data:] URL, and resolves to a vault file. *)
Definition local_ref (markdown : jstr) (current : tfile) (files : list (jstr * jstr)) (m : mrec) : bool :=
  let p := js_trim (default [] (m_group markdown m 1)) in
  negb (js_test remote_rx p || js_starts_with p "data:") &&
  match resolveFile files p current with Some _ => true | None => false end.

(** ** Lemmas *)

Lemma md_img_rx_src : rx_src md_img_rx = RSeq (RCls false [(33%N, 33%N)])
  (RSeq (RCls false [(91%N, 91%N)]) (RSeq (RRep 0 None true (RCls true [(93%N, 93%N)]))
  (RSeq (RCls false [(93%N, 93%N)]) (RSeq (RCls false [(40%N, 40%N)])
  (RSeq (RGroup 1 (RRep 1 None true (RCls true [(41%N, 41%N)]))) (RCls false [(41%N, 41%N)])))))).
Proof. vm_compute. reflexivity. Qed.

Lemma wiki_img_rx_src : exists b, rx_src wiki_img_rx = RSeq (RCls false [(33%N, 33%N)]) b.
Proof. eexists. vm_compute. reflexivity. Qed.

(** Neither image pattern matches the empty string, so the exec loops end. *)
Lemma exec_loops_terminate s : exec_all md_img_rx s <> None /\ exec_all wiki_img_rx s <> None.
Proof.
  destruct wiki_img_rx_src as [b Hw].
  split; apply exec_all_fuel_total; intros i j c;
    [apply (exec_at_cls_advances _ _ _ _ _ _ _ _ md_img_rx_src)
    |apply (exec_at_cls_advances _ _ _ _ _ _ _ _ Hw)].
Qed.

(** C22: Both [exec] loops of [processImages] terminate on every body:
    neither pattern can match the empty string, so [lastIndex] always moves. *)
Theorem exec_loops_total s : exec_all md_img_rx s <> None /\ exec_all wiki_img_rx s <> None.
Proof. apply exec_loops_terminate. Qed.

Lemma exec_loop_ok rx s ms : exec_all rx s = Some ms -> forall w, exec_loop rx s w = (Ok ms, w).
Proof. intros H w. unfold exec_loop. rewrite H. reflexivity. Qed.

Lemma upload_one_plugin f p mapping w :
  exists c, @upload_one plugin_uploader f p mapping w = (Ok mapping, set_console c w).
Proof.
  unfold upload_one, catch, bind. cbn [uploadBinary plugin_uploader throw].
  destruct (debug_run [JStr "图片上传失败"; JStr p; JStr not_a_function] w) as [c ->].
  exists c. reflexivity.
Qed.

Lemma md_loop_plugin markdown current ms : forall mapping w,
  exists c, @md_loop plugin_uploader markdown current ms mapping w = (Ok mapping, set_console c w).
Proof.
  induction ms as [|m ms IH]; intros mapping w; simpl.
  - exists (w_console w). destruct w. reflexivity.
  - unfold bind, gets.
    repeat match goal with
           | |- context [if ?b then _ else _] => destruct b
           | |- context [match resolveFile ?a ?b ?c with _ => _ end] => destruct (resolveFile a b c)
           end; try apply IH.
    all: match goal with |- context [upload_one ?f ?p ?mp ?w0] =>
           destruct (upload_one_plugin f p mp w0) as [c ->] end.
    all: destruct (IH mapping (set_console c w)) as [c' ->]; exists c'; reflexivity.
Qed.

Lemma wiki_loop_plugin markdown current ms : forall mapping w,
  exists c, @wiki_loop plugin_uploader markdown current ms mapping w = (Ok mapping, set_console c w).
Proof.
  induction ms as [|m ms IH]; intros mapping w; simpl.
  - exists (w_console w). destruct w. reflexivity.
  - unfold bind, gets. destruct (resolveFile _ _ _) as [f|]; [|apply IH].
    destruct (upload_one_plugin f (js_trim (default [] (m_group markdown m 1))) mapping w) as [c ->].
    destruct (IH mapping (set_console c w)) as [c' ->]. exists c'. reflexivity.
Qed.

(** [processImages] of the plugin as written, run on a world. *)
Lemma processImages_plugin_run markdown current w :
  exists c, @processImages plugin_uploader markdown current w = (Ok (markdown, []), set_console c w).
Proof.
  destruct (exec_loops_terminate markdown) as [H1 H2].
  destruct (exec_all md_img_rx markdown) as [ms1|] eqn:E1; [|congruence].
  destruct (exec_all wiki_img_rx markdown) as [ms2|] eqn:E2; [|congruence].
  unfold processImages, bind. rewrite (exec_loop_ok _ _ _ E1).
  destruct (md_loop_plugin markdown current ms1 [] w) as [c1 ->].
  rewrite (exec_loop_ok _ _ _ E2).
  destruct (wiki_loop_plugin markdown current ms2 [] (set_console c1 w)) as [c2 ->].
  exists c2. reflexivity.
Qed.

(** C21: With the plugin as written, [processImages] never changes the
    body and records no upload: every call to the undefined [uploadBinary]
    throws and is caught, so only the console changes. *)
Theorem processImages_identity markdown current w :
  exists c, @processImages plugin_uploader markdown current w = (Ok (markdown, []), set_console c w).
Proof. apply processImages_plugin_run. Qed.

Lemma upload_one_ok `{Uploader} f p mapping w url w' :
  uploadBinary f w = (Ok url, w') -> upload_one f p mapping w = (Ok (obj_set mapping p url), w').
Proof. intros Hu. unfold upload_one, catch. rewrite (bind_run _ _ _ _ _ Hu). reflexivity. Qed.

(** The note and vault of the image scenarios: [notes/a.md] next to
    [notes/img/x.png]. *)
Definition img_note : tfile := mk_tfile "notes/a.md".
Definition img_files : list (jstr * jstr) := [("notes/a.md", ""); ("notes/img/x.png", "")].

(** An embed of a remote URL is left as it is and nothing is
    uploaded, whatever the uploader does. *)
Theorem processImages_remote_untouched `{Uploader} w :
  processImages "A ![](https://x/y.png)" img_note w = (Ok ("A ![](https://x/y.png)", []), w).
Proof. vm_compute. reflexivity. Qed.

(** C23: A local embed [![a](img/x.png)] next to the note is uploaded once
    (the file resolved relative to the note's folder) and the mapping
    records the literal path; the rewritten reference keeps its alt text:
    it becomes [![a](url)], not the [![](url)] of the design. *)
Theorem processImages_uploads_local `{Uploader} w w' :
  w_files w = img_files ->
  uploadBinary (mk_tfile "notes/img/x.png") w = (Ok "https://cdn/x.png", w') ->
  processImages "![a](img/x.png)" img_note w
  = (Ok ("![a](https://cdn/x.png)", [("img/x.png", "https://cdn/x.png")]), w').
Proof.
  intros Hf Hu.
  assert (Hmd : md_loop "![a](img/x.png)" img_note [MRec 0 15 [(1, (5, 14))]] [] w
                = (Ok [("img/x.png", "https://cdn/x.png")], w')).
  { assert (Hp : js_trim (default [] (m_group "![a](img/x.png)" (MRec 0 15 [(1, (5, 14))]) 1)) = "img/x.png")
      by (vm_compute; reflexivity).
    assert (Hg : js_test remote_rx "img/x.png" || js_starts_with "img/x.png" "data:" = false)
      by (vm_compute; reflexivity).
    assert (Hr : resolveFile img_files "img/x.png" img_note = Some (mk_tfile "notes/img/x.png"))
      by (vm_compute; reflexivity).
    cbn [md_loop]. rewrite Hp, Hg. unfold bind at 1, gets. rewrite Hf, Hr.
    cbn -[upload_one md_loop bind].
    rewrite (bind_run _ _ _ _ _ (upload_one_ok _ "img/x.png" [] _ _ _ Hu)). reflexivity. }
  unfold processImages.
  rewrite (bind_run _ _ _ _ _ (exec_loop_ok md_img_rx "![a](img/x.png)" [MRec 0 15 [(1, (5, 14))]] ltac:(vm_compute; reflexivity) w)).
  rewrite (bind_run _ _ _ _ _ Hmd). vm_compute. reflexivity.
Qed.

(** An uploader that always answers with a URL on a CDN. *)
#[local] Instance cdn_uploader : Uploader := {| uploadBinary := fun f => ret ("https://cdn/" ++ tf_name f) |}.

Definition img_world : world := init_world DEFAULT_SETTINGS img_files [] [].

Lemma processImages_uploads_local_witness :
  @processImages cdn_uploader "![a](img/x.png)" img_note img_world
  = (Ok ("![a](https://cdn/x.png)", [("img/x.png", "https://cdn/x.png")]), img_world).
Proof. exact (@processImages_uploads_local cdn_uploader img_world img_world eq_refl eq_refl). Defined.

(** ** Every occurrence is uploaded *)

(** An uploader whose calls are counted by [tick] (any measure of the
    world that each call raises by one and the console leaves alone) and
    which does not change the vault. *)
Section EachOccurrence.
Context `{Uploader}.
Variable tick : world -> nat.
Hypothesis tick_upload : forall f w, tick (snd (uploadBinary f w)) = S (tick w).
Hypothesis files_upload : forall f w, w_files (snd (uploadBinary f w)) = w_files w.
Hypothesis tick_console : forall c w, tick (set_console c w) = tick w.

(** One upload never throws, counts once and leaves the vault. *)
Lemma upload_one_run f p mapping w :
  exists mapping' w', upload_one f p mapping w = (Ok mapping', w') /\
    tick w' = S (tick w) /\ w_files w' = w_files w.
Proof.
  unfold upload_one, catch, bind. pose proof (tick_upload f w) as Ht. pose proof (files_upload f w) as Hf.
  destruct (uploadBinary f w) as [[url|e] w1]; cbn in Ht, Hf.
  - do 2 eexists. split; [reflexivity|]. split; assumption.
  - destruct (debug_run [JStr "图片上传失败"; JStr p; JStr e] w1) as [c ->].
    do 2 eexists. split; [reflexivity|]. cbn. rewrite tick_console. split; [exact Ht|exact Hf].
Qed.

(** C36: The first loop of [processImages] calls [uploadBinary] once for
    every match whose path is local and resolves, in every body: a path
    embedded twice is uploaded twice (only [mapping] is keyed by the path),
    where the design uploads each distinct reference at most once. *)
Theorem md_loop_uploads_each markdown current ms : forall mapping w,
  tick (snd (md_loop markdown current ms mapping w))
  = tick w + length (List.filter (local_ref markdown current (w_files w)) ms).
Proof.
  induction ms as [|m ms IH]; intros mapping w; [cbn; lia|].
  cbn [md_loop List.filter]. unfold local_ref at 1.
  set (p := js_trim (default [] (m_group markdown m 1))). cbv zeta.
  destruct (js_test remote_rx p || js_starts_with p "data:"); cbn [negb andb]; [apply IH|].
  unfold bind at 1, gets. cbv beta iota.
  destruct (resolveFile (w_files w) p current) as [f|]; [|apply IH].
  unfold bind at 1. destruct (upload_one_run f p mapping w) as (mp & w1 & -> & Ht & Hf).
  rewrite IH, Ht, Hf. cbn [length]. lia.
Qed.

End EachOccurrence.

Lemma processImages_plugin_stable {T} (p : world -> T) `{!ConsoleBlind p} md cur :
  stable (same_on p) (@processImages plugin_uploader md cur).
Proof.
  intros w. destruct (processImages_plugin_run md cur w) as [c ->]. apply console_blind.
Qed.

#[export] Hint Resolve processImages_plugin_stable : stable.

(** ** [joinPath] normalises relative paths *)

(** A segment [joinPath] keeps on its stack. *)
Definition normal_seg (seg : jstr) : Prop := seg <> [] /\ seg <> "." /\ seg <> ".." /\ 47%N ∉ seg.

Lemma join_step_normal stack seg :
  Forall normal_seg stack -> 47%N ∉ seg -> Forall normal_seg (join_step stack seg).
Proof.
  intros Hs Hseg. unfold join_step.
  destruct (bool_decide (seg = [])) eqn:E1; [exact Hs|].
  destruct (bool_decide (seg = ".")) eqn:E2; [exact Hs|]. cbn [orb].
  destruct (bool_decide (seg = "..")) eqn:E3.
  - destruct stack; [constructor|inversion Hs; assumption].
  - apply bool_decide_eq_false in E1, E2, E3. constructor; [repeat split; assumption|exact Hs].
Qed.

Lemma foldl_join_normal parts : forall stack, Forall normal_seg stack ->
  Forall (fun p => 47%N ∉ p) parts -> Forall normal_seg (foldl join_step stack parts).
Proof.
  induction parts as [|p ps IH]; intros stack Hs Hp; [exact Hs|].
  inversion Hp; subst. apply IH; [apply join_step_normal|]; assumption.
Qed.

(** Normal segments are pushed as they are. *)
Lemma foldl_join_push segs : forall stack, Forall normal_seg segs ->
  foldl join_step stack segs = rev segs ++ stack.
Proof.
  induction segs as [|p ps IH]; intros stack Hs; [reflexivity|].
  inversion Hs as [|? ? (H1 & H2 & H3 & _) Hps]; subst. cbn [foldl].
  unfold join_step at 2. rewrite !bool_decide_eq_false_2 by assumption.
  rewrite IH by exact Hps. cbn. rewrite <- app_assoc. reflexivity.
Qed.

Lemma normal_no_sep segs : Forall normal_seg segs -> Forall (fun p => 47%N ∉ p) segs.
Proof. intros H. eapply Forall_impl; [|exact H]. intros x (_ & _ & _ & Hx). exact Hx. Qed.

(** A relative path comes out as the join of a stack of normal segments. *)
Lemma joinPath_stack parentPath relative : js_starts_with relative "/" = false ->
  exists stack, Forall normal_seg stack /\ joinPath parentPath relative = js_join (rev stack) "/".
Proof.
  intros Hr. unfold joinPath. rewrite Hr. eexists. split; [|reflexivity].
  apply foldl_join_normal; [constructor|apply js_split_parts].
Qed.

Lemma join_normal_no_slash stack : Forall normal_seg stack ->
  js_starts_with (js_join (rev stack) "/") "/" = false.
Proof.
  intros Hs. apply Forall_rev in Hs. destruct (rev stack) as [|seg segs]; [reflexivity|].
  inversion Hs as [|? ? (Hne & _ & _ & Hsl) _]; subst.
  destruct seg as [|c seg]; [congruence|].
  assert (Hc : c <> 47%N) by (intros ->; apply Hsl; left).
  destruct segs; cbn [js_join app js_starts_with]; rewrite (proj2 (N.eqb_neq 47 c)) by congruence; reflexivity.
Qed.

(** A relative path comes out of [joinPath] in normal form: empty,
    or segments separated by single slashes, none of them empty, [.] or
    [..]. *)
Theorem joinPath_normal parentPath relative :
  js_starts_with relative "/" = false ->
  joinPath parentPath relative = [] \/
  Forall (fun seg => seg <> [] /\ seg <> "." /\ seg <> "..") (js_split (joinPath parentPath relative) 47).
Proof.
  intros Hr. destruct (joinPath_stack parentPath relative Hr) as (stack & Hs & ->).
  destruct (rev stack) as [|seg segs] eqn:E; [left; reflexivity|right].
  rewrite <- E, js_split_join by first [rewrite E; discriminate | apply normal_no_sep, Forall_rev, Hs].
  apply Forall_rev in Hs. eapply Forall_impl; [|exact Hs]. intros x (H1 & H2 & H3 & _). auto.
Qed.

(** Normalising is idempotent: resolving the result of [joinPath]
    again, from the vault root, gives it back unchanged. *)
Theorem joinPath_idempotent parentPath relative :
  js_starts_with relative "/" = false ->
  joinPath [] (joinPath parentPath relative) = joinPath parentPath relative.
Proof.
  intros Hr. destruct (joinPath_stack parentPath relative Hr) as (stack & Hs & ->).
  unfold joinPath at 1. rewrite (join_normal_no_slash stack Hs).
  change (js_substring [] 0 (js_last_index_of [] "/")) with (@nil N).
  rewrite bool_decide_eq_true_2 by reflexivity. cbn [app].
  destruct (rev stack) as [|seg segs] eqn:E; [reflexivity|].
  rewrite <- E, js_split_join by first [rewrite E; discriminate | apply normal_no_sep, Forall_rev, Hs].
  rewrite foldl_join_push by (apply Forall_rev, Hs). rewrite app_nil_r, rev_involutive. reflexivity.
Qed.

Lemma joinPath_normal_witness :
  js_starts_with "../img/./x.png" "/" = false /\
  (joinPath "notes/a.md" "../img/./x.png" = [] \/
   Forall (fun seg => seg <> [] /\ seg <> "." /\ seg <> "..")
          (js_split (joinPath "notes/a.md" "../img/./x.png") 47)).
Proof. split; [reflexivity|]. exact (joinPath_normal "notes/a.md" "../img/./x.png" eq_refl). Defined.

Lemma joinPath_idempotent_witness :
  js_starts_with "../img/./x.png" "/" = false /\
  joinPath [] (joinPath "notes/a.md" "../img/./x.png") = joinPath "notes/a.md" "../img/./x.png".
Proof. split; [reflexivity|]. exact (joinPath_idempotent "notes/a.md" "../img/./x.png" eq_refl). Defined.

(** An uploader that sends each file to a CDN with [requestUrl]. *)
#[local] Instance net_uploader : Uploader :=
  {| uploadBinary := fun f =>
       do _ <- requestUrl (Request "https://cdn/upload" "POST" [] (Some (tf_path f))) ;
       ret ("https://cdn/" ++ tf_name f) |}.

Lemma net_uploader_counts f w :
  length (w_requests (snd (@uploadBinary net_uploader f w))) = S (length (w_requests w)) /\
  w_files (snd (@uploadBinary net_uploader f w)) = w_files w.
Proof.
  cbn [uploadBinary net_uploader]. unfold bind, requestUrl.
  destruct (w_net w) as [|[st b|msg] rest]; [|destruct (Z.leb 400 st)|];
    cbn; rewrite ?length_app; cbn; split; lia || reflexivity.
Qed.

(** The matches of the first loop on a body that embeds one image twice. *)
Definition twice_body : jstr := "![a](img/x.png) ![b](img/x.png)".
Definition twice_ms : list mrec := default [] (exec_all md_img_rx twice_body).

Lemma md_loop_uploads_each_witness :
  (forall f w, length (w_requests (snd (@uploadBinary net_uploader f w))) = S (length (w_requests w))) /\
  (forall f w, w_files (snd (@uploadBinary net_uploader f w)) = w_files w) /\
  (forall c w, length (w_requests (set_console c w)) = length (w_requests w)) /\
  length (List.filter (local_ref twice_body img_note (w_files img_world)) twice_ms) = 2 /\
  length (w_requests (snd (@md_loop net_uploader twice_body img_note twice_ms [] img_world)))
  = length (w_requests img_world) + length (List.filter (local_ref twice_body img_note (w_files img_world)) twice_ms).
Proof.
  assert (H1 : forall f w, length (w_requests (snd (@uploadBinary net_uploader f w))) = S (length (w_requests w)))
    by (intros; apply net_uploader_counts).
  assert (H2 : forall f w, w_files (snd (@uploadBinary net_uploader f w)) = w_files w)
    by (intros; apply net_uploader_counts).
  assert (H3 : forall c w, length (w_requests (set_console c w)) = length (w_requests w)) by reflexivity.
  split; [exact H1|]. split; [exact H2|]. split; [exact H3|]. split; [vm_compute; reflexivity|].
  exact (md_loop_uploads_each (fun w => length (w_requests w)) H1 H2 H3 twice_body img_note twice_ms [] img_world).
Defined.
