(* ===== verification/Publish.v ===== *)
(** * What [publishCore] builds and calls
    (main.ts 146-156, 265-312, 389-399, 422-548, 577-614)

    The fields of the article ([derive_fields], lines 266-281, with the
    dialog's overrides first, then the front matter, then the settings),
    the form parameters of [article_update] and [article_post], the post
    action (open or copy the article's URL), the URL lookup, the header
    keys written back after a publish ([reconcile_keys]) and the failure
    hint.  Also the two other network commands of the plugin:
    [publishNote] (a short note, [note_post], from the selected text on;
    the search for the selection is in Plugin.v) and [refreshSortOptions]
    (the category list, [sort_list]).  The orchestration that composes
    these is [publishCore] in Pipeline.v. *)

From stdpp Require Import gmap.
From S2P Require Import Prelude JsString Regex RegexParse JsValue Escape Frontmatter World Http Metadata Images Persist.

Open Scope js_scope.
Open Scope plugin_scope.

(** ** Fields (lines 41-53, 266-281) *)

(** [type PublishOverrides]: [None] is an absent (or [undefined]) field.
    The cover image and the password are any value: the modal passes the
    front matter's values through without converting them. *)
Record overrides := Overrides {
  ov_title : option jstr; ov_sortId : option jstr; ov_tags : option jstr;
  ov_excerpt : option jstr; ov_draft : option bool; ov_postDate : option jstr;
  ov_coverImage : option jsval; ov_top : option jstr; ov_sortop : option jstr;
  ov_allowRemark : option jstr; ov_password : option jsval;
}.

(** The [{}] of [publishCurrentNote] and the context menus. *)
Definition no_overrides : overrides :=
  Overrides None None None None None None None None None None None.

(** The article's attributes as [publishCore] computes them. *)
Record fields := Fields {
  f_title : jstr; f_excerpt : jstr; f_tags : jstr; f_sortId : jstr; f_authorUid : jstr;
  f_postDate : option jstr; f_coverImage : jsval; f_draft : bool; f_top : jstr;
  f_sortop : jstr; f_allowRemark : jstr; f_password : jsval;
}.

(** [a ?? b] for an optional override. *)
Definition ov_or (o : option jstr) (d : jstr) : jstr := match o with Some s => s | None => d end.

(** [(x ?? dflt) ? String(x ?? dflt) : ''] (lines 272-273). *)
Definition field_or_default (v : jsval) (dflt : jstr) : jstr :=
  let x := js_nullish_or v (JStr dflt) in if js_truthy x then js_string x else [].

(** [v === 'y' || v === true] (lines 276-278). *)
Definition yes_flag (v : jsval) : bool := js_eq_str v "y" || js_eq_bool v true.

(** [Array.isArray(fm.tags) ? fm.tags.map(String).join(',') :
    (typeof fm.tags === 'string' ? fm.tags : '')] (lines 270 and 1047). *)
Definition tags_of (fm : jsval) : jstr :=
  match get_prop fm "tags" with
  | JArr l => js_join (map js_string l) ","
  | JStr s => s
  | _ => []
  end.

(** The category id from the front matter or the default (lines 271 and 1048). *)
Definition sort_id_of (st : settings) (fm : jsval) : jstr :=
  field_or_default (get_prop fm "sort_id") (defaultSortId st).

(** Lines 266-281. *)
Definition derive_fields (st : settings) (content : jstr) (file : tfile) (asDraft : bool)
    (ov : overrides) (fm : jsval) : fields :=
  Fields
    (ov_or (ov_title ov) (deriveTitle content (Some file) fm))
    (ov_or (ov_excerpt ov) (deriveExcerpt content fm))
    (ov_or (ov_tags ov) (tags_of fm))
    (ov_or (ov_sortId ov) (sort_id_of st fm))
    (field_or_default (get_prop fm "author_uid") (defaultAuthorUid st))
    (ov_postDate ov)
    (match ov_coverImage ov with
     | Some c => c
     | None => js_or (js_or (get_prop fm "cover_image") (get_prop fm "coverImage")) (JStr [])
     end)
    (asDraft || match ov_draft ov with Some b => b | None => yes_flag (get_prop fm "draft") end)
    (ov_or (ov_top ov) (if yes_flag (get_prop fm "top") then "y" else "n"))
    (ov_or (ov_sortop ov) (if yes_flag (get_prop fm "sortop") then "y" else "n"))
    (ov_or (ov_allowRemark ov)
       (if js_eq_str (get_prop fm "allow_remark") "n" || js_eq_bool (get_prop fm "allow_remark") false
        then "n" else "y"))
    (match ov_password ov with
     | Some p => p
     | None => js_nullish_or (get_prop fm "password") (JStr [])
     end).

(** [...(v ? { k: v } : {})] for a string. *)
Definition opt_field (k v : jstr) : js_object := if bool_decide (v = []) then [] else [(k, v)].

(** The same for a value of any type; [URLSearchParams] takes its [String]. *)
Definition opt_value (k : jstr) (v : jsval) : js_object := if js_truthy v then [(k, js_string v)] else [].

Definition opt_date (d : option jstr) : js_object :=
  match d with Some s => opt_field "post_date" s | None => [] end.

Definition yn (b : bool) : jstr := if b then "y" else "n".

(** The form of [article_update] (lines 319-334). *)
Definition update_params (id : jstr) (f : fields) (content : jstr) : js_object :=
  [("id", id); ("title", f_title f); ("content", content); ("excerpt", f_excerpt f)]
  ++ opt_field "tags" (f_tags f) ++ opt_field "sort_id" (f_sortId f)
  ++ opt_field "author_uid" (f_authorUid f) ++ [("draft", yn (f_draft f))]
  ++ opt_date (f_postDate f) ++ opt_value "cover" (f_coverImage f)
  ++ [("top", f_top f); ("sortop", f_sortop f); ("allow_remark", f_allowRemark f)]
  ++ opt_value "password" (f_password f).

(** The form of [article_post] (lines 341-356). *)
Definition create_params (st : settings) (f : fields) (content : jstr) : js_object :=
  [("title", f_title f); ("content", content); ("excerpt", f_excerpt f)]
  ++ opt_field "tags" (f_tags f) ++ opt_field "sort_id" (f_sortId f)
  ++ opt_field "author_uid" (f_authorUid f)
  ++ [("draft", yn (f_draft f)); ("allow_remark", f_allowRemark f); ("auto_cover", yn (autoCover st))]
  ++ opt_date (f_postDate f) ++ opt_value "cover" (f_coverImage f)
  ++ [("top", f_top f); ("sortop", f_sortop f)]
  ++ opt_value "password" (f_password f).

(** ** Persistence and the header block *)

(** [upsertFrontmatterKeys(file, kv)] (lines 577-614); [None] from
    [upsert_content] is the SyntaxError of [new RegExp]. *)
Definition upsertFrontmatterKeys (file : tfile) (kvs : list (jstr * jsval)) : M unit :=
  do cache <- getFileCache file ;
  do content <- vault_read file ;
  let fmPos := match cache with Some ce => ce_fm_pos ce | None => None end in
  match upsert_content content fmPos kvs with
  | Some next => vault_modify file next
  | None => throw "Invalid regular expression"
  end.

(** ** The article's URL and the post action (lines 481-520) *)

(** [data?.data?.article?.url || data?.article?.url]. *)
Definition detail_url (data : jsval) : jsval :=
  js_or (get_prop (get_prop (get_prop data "data") "article") "url")
        (get_prop (get_prop data "article") "url").

Definition post_url (st : settings) (id : jsval) : jstr :=
  strip_slash (baseUrl st) ++ "/?post=" ++ js_string id.

(** [fetchArticleUrlById(id)]: never fails, never [null]. *)
Definition fetchArticleUrlById (id : jsval) : M jsval :=
  catch
    (do data <- httpGet "article_detail" [("id", js_string id)] ;
     let url := detail_url data in
     if js_truthy url then ret url
     else
       do st <- gets w_settings ;
       do _ <- debug [JStr "构造文章 URL"; JObj [("id", id); ("constructedUrl", JStr (post_url st id))]] ;
       ret (JStr (post_url st id)))
    (fun e =>
       do _ <- debug [JStr "获取文章 URL 失败，使用构造的 URL"; JStr e] ;
       do st <- gets w_settings ;
       ret (JStr (post_url st id))).

(** [performPostAction(articleId, isDraft)]; opening goes to
    [openExternal] or [window.open], both recorded in [w_opened]; the
    clipboard write is taken to succeed. *)
Definition performPostAction (articleId : jsval) (isDraft : bool) : M unit :=
  if isDraft then notice "草稿已保存（草稿无公开链接）"
  else if negb (js_truthy articleId) then ret tt
  else
    do st <- gets w_settings ;
    let action := postAction st in
    if bool_decide (action = "none") then ret tt
    else
      do url <- fetchArticleUrlById articleId ;
      if negb (js_truthy url) then ret tt
      else
        do _ <- (if bool_decide (action = "open") || bool_decide (action = "both")
                 then modify (add_opened (js_string url)) else ret tt) ;
        if bool_decide (action = "copy") || bool_decide (action = "both")
        then do _ <- modify (set_clipboard (js_string url)) ; notice "文章链接已复制"
        else ret tt.

(** ** [publishCore] (lines 265-406) *)

(** [extractFrontmatter(file) || {}]. *)
Definition frontmatter_of (cache : option cache_entry) : jsval :=
  match cache with
  | Some ce => match ce_frontmatter ce with Some v => js_or v (JObj []) | None => JObj [] end
  | None => JObj []
  end.

(** [articleMap[path] != null]. *)
Definition is_update (am : gmap jstr jsval) (path : jstr) : bool :=
  match am !! path with Some v => negb (is_nullish v) | None => false end.

(** The hint appended to the failure notice (lines 389-399). *)
Definition error_hint (msg : jstr) : jstr :=
  if js_includes msg "401" then LF ++ "🔑 认证失败，请检查 API Key 和认证方式设置"
  else if js_includes msg "404" then LF ++ "🌐 API 路径不正确，请检查博客地址配置"
  else if js_includes msg "timeout" then LF ++ "⏱️ 请求超时，请检查网络连接"
  else if js_includes msg "CORS" then LF ++ "🚫 跨域请求被阻止，这是浏览器安全限制"
  else if js_includes msg "Request failed" then LF ++ "📡 网络请求失败，请检查博客地址和网络连接"
  else [].

(** [sort_id: sortId || (fm.sort_id ?? '')]. *)
Definition sort_id_value (f : fields) (fm : jsval) : jsval :=
  if bool_decide (f_sortId f = []) then js_nullish_or (get_prop fm "sort_id") (JStr []) else JStr (f_sortId f).

(** The keys written back into the header block, in the literal's order. *)
Definition reconcile_keys (f : fields) (fm id url : jsval) (now : local_time) : list (jstr * jsval) :=
  [("published", JBool (negb (f_draft f))); ("sort_id", sort_id_value f fm);
   ("emlog_article_id", id); ("publish_date", JStr (formatDate now));
   ("url", js_or url (JStr []))].

(** ** Short notes and categories *)

(** [publishNote()] (lines 422-466) from the selected text on. *)
Definition publishNote (text : jstr) : M unit :=
  if bool_decide (text = []) then notice "请选择要发布为微语的文本"
  else
    do _ <- debug [JStr "发布微语"; JObj [("textLength", JNum (JInt (Z.of_nat (length text))));
                                          ("textPreview", JStr (js_substring text 0 50))]] ;
    do _ <- setStatus "发布微语中..." ;
    catch (do _ <- httpForm "note_post" [("t", text)] ;
           do _ <- notice "微语发布成功" ;
           setStatus "微语已发布")
          (fun e => do _ <- notice ("微语发布失败：" ++ e) ;
                    do _ <- setStatus "失败" ;
                    debug [JStr "微语失败"; JStr e]).

(** The category list of a [sort_list] response (line 540). *)
Definition sorts_of (data : jsval) : list jsval :=
  match get_prop (get_prop data "data") "sorts" with
  | JArr l => l
  | _ => match get_prop data "sorts" with JArr l => l | _ => [] end
  end.

(** [refreshSortOptions()] (lines 536-548). *)
Definition refreshSortOptions : M unit :=
  catch (do data <- httpGet "sort_list" [] ;
         match flattenSorts (sorts_of data) 0 with
         | Throw e => throw e
         | Ok l =>
           do _ <- modify (set_cachedSorts l) ;
           do _ <- debug [JStr "分类已刷新"; JNum (JInt (Z.of_nat (length l))); JStr "个分类"] ;
           notice ("已刷新 " ++ N_to_js (N.of_nat (length l)) ++ " 个分类")
         end)
        (fun e => do _ <- notice ("获取分类失败：" ++ e) ; modify (set_cachedSorts [])).

(** ** Properties of the category refresh *)

(** C30: [refreshSortOptions] never throws; afterwards the cached
    categories are the flattened list of the [sort_list] answer, or empty
    when the request or the flattening failed, and the last notice says
    which. *)
Theorem refreshSortOptions_cache w :
  let r := refreshSortOptions w in
  fst r = Ok tt /\
  match fst (httpGet "sort_list" [] w) with
  | Ok data =>
    match flattenSorts (sorts_of data) 0 with
    | Ok l => w_cachedSorts (snd r) = l /\
              List.last (w_notices (snd r)) [] = "已刷新 " ++ N_to_js (N.of_nat (length l)) ++ " 个分类"
    | Throw e => w_cachedSorts (snd r) = [] /\ List.last (w_notices (snd r)) [] = "获取分类失败：" ++ e
    end
  | Throw e => w_cachedSorts (snd r) = [] /\ List.last (w_notices (snd r)) [] = "获取分类失败：" ++ e
  end.
Proof.
  unfold refreshSortOptions, catch, bind. destruct (httpGet "sort_list" [] w) as [[data|e] w1]; cbn -[flattenSorts debug].
  - destruct (flattenSorts (sorts_of data) 0) as [l|e]; cbn -[debug].
    + destruct (debug_run [JStr "分类已刷新"; JNum (JInt (Z.of_nat (length l))); JStr "个分类"]
                  (set_cachedSorts l w1)) as [c ->].
      cbn. rewrite last_last. repeat split.
    + rewrite last_last. repeat split.
  - rewrite last_last. repeat split.
Qed.

(** ** Properties of the short-note command *)

(** C31: [publishNote] never throws.  With an empty selection it sends
    nothing and asks for a selection; otherwise its first request is the
    signed [note_post] form with the text, and the status bar ends on
    "published" when one of the two paths answered with success, on
    "failed" otherwise. *)
Theorem publishNote_outcome text w :
  let st := w_settings w in
  let r := publishNote text w in
  fst r = Ok tt /\
  if bool_decide (text = []) then
    w_requests (snd r) = w_requests w /\ List.last (w_notices (snd r)) [] = "请选择要发布为微语的文本"
  else
    (exists rest, w_requests (snd r) = w_requests w ++
       Request (strip_slash (baseUrl st) ++ "/?rest-api=note_post") "POST" form_headers0
         (Some (form_serialize (sign_form [("t", text)] (apiKey st) (w_now w)))) :: rest) /\
    w_status (snd r) = "EMLOG: " ++
      match with_fallback (attempt_result (head (w_net w))) (attempt_result (head (tail (w_net w))))
              (fun _ _ => []) with
      | Ok _ => "微语已发布"
      | Throw _ => "失败"
      end.
Proof.
  cbv zeta. unfold publishNote. case_bool_decide as Ht.
  { cbn. split; [reflexivity|]. split; [reflexivity|apply last_last]. }
  match goal with |- context [bind (debug ?a) _ w] => destruct (debug_run a w) as [c Hd] end.
  rewrite (bind_run _ _ _ _ _ Hd), (bind_run (setStatus "发布微语中...") _ (set_console c w) tt _ eq_refl).
  set (w2 := set_status_text _ (set_console c w)).
  destruct (httpForm_run "note_post" [("t", text)] w2) as (fp & hd & Hfa & c2 & Hrun).
  rewrite form_auth_mutating_run in Hfa by reflexivity. injection Hfa as <- <-.
  unfold catch. change (bind (httpForm "note_post" [("t", text)]) ?k w2)
    with (match httpForm "note_post" [("t", text)] w2 with
          | (Ok a, w') => k a w' | (Throw e, w') => (Throw e, w') end).
  rewrite Hrun. cbn [w2 w_settings w_net w_requests w_now set_status_text set_console].
  destruct (attempt_result (head (w_net w))) as [d|e];
    [|destruct (attempt_result (head (tail (w_net w)))) as [d|fe]];
    cbn -[debug form_serialize sign_form strip_slash];
    [| |match goal with |- context [debug ?a ?w'] => destruct (debug_run a w') as [c3 ->] end];
    (split; [reflexivity|]); (split; [eexists; reflexivity|reflexivity]).
Qed.

Lemma ok_post_setStatus t : ok_post (fun w => w_status w = "EMLOG: " ++ t) (setStatus t).
Proof. intros w a w' E. injection E as _ <-. reflexivity. Qed.

(** The short-note command leaves the status bar as it was (empty
    selection), or on "published" or "failed". *)
Lemma publishNote_status text w :
  let s := w_status (snd (publishNote text w)) in
  s = w_status w \/ s = "EMLOG: 微语已发布" \/ s = "EMLOG: 失败".
Proof.
  cbv zeta. unfold publishNote. case_bool_decide; [left; reflexivity|right].
  match goal with |- context [bind (debug ?a) _ w] => destruct (debug_run a w) as [c Hd] end.
  rewrite (bind_run _ _ _ _ _ Hd), (bind_run (setStatus "发布微语中...") _ (set_console c w) tt _ eq_refl).
  unfold catch. match goal with |- context [match ?m ?w2 with _ => _ end] =>
    destruct (m w2) as [[a|e] w3] eqn:E end.
  - left. exact (ok_post_bind _ _ _ (fun _ => ok_post_bind _ _ _ (fun _ => ok_post_setStatus "微语已发布")) _ _ _ E).
  - right. cbn beta.
    rewrite (bind_run (notice _) _ w3 tt _ eq_refl), (bind_run (setStatus "失败") _ _ tt _ eq_refl).
    match goal with |- context [debug ?a ?w4] => destruct (debug_run a w4) as [c2 ->] end. reflexivity.
Qed.
