(* ===== verification/Pipeline.v ===== *)
(** * The publish pipeline: [publishCore] (main.ts 265-406) and its properties

    [publishCore] reads the front matter from the metadata cache, derives
    the fields of the article, cuts the header block off the body, runs the
    image rewriter, and then either updates the article whose id the
    identifier map holds for the note's path ([article_update]) or creates
    one ([article_post]), recording the new id in the map and persisting
    it.  Both branches then run the post action, fetch the URL and write
    the reconciled keys into the note's header block.  Any failure after
    the status "publishing" is caught and shown as one notice with a hint.
    The section is parameterised by the [Uploader] of the image rewriter;
    the plugin as written is [publishCore] at [plugin_uploader].

    The properties, for the plugin as written: the map gains an entry only
    for the published note's path, only on a create, and only with a
    truthy id; a create answered with an id records it; a failed create
    leaves the map and the note alone and shows the aggregated error; an
    update sends the stored id; the saved data follows the map while the
    storage takes the writes, and a rejected write after a create leaves
    the id only in memory. *)

From stdpp Require Import gmap.
From S2P Require Import Prelude JsString Regex RegexParse JsValue Escape Frontmatter World Http Metadata Images Persist Publish.

Open Scope js_scope.
Open Scope plugin_scope.

(** ** The orchestration of [publishCore] *)

Section Orchestrator.
Context `{Uploader}.

(** Lines 316-338: the update branch. *)
Definition publish_update (file : tfile) (f : fields) (fm : jsval) (content : jstr)
    (stored : jsval) : M unit :=
  let id := JNum (js_number stored) in
  do _ <- httpForm "article_update" (update_params (js_string id) f content) ;
  do _ <- notice ("更新成功：" ++ f_title f ++ " (ID: " ++ js_string id ++ ")") ;
  do _ <- setStatus "更新成功" ;
  do _ <- performPostAction id (f_draft f) ;
  do url <- fetchArticleUrlById id ;
  do now <- gets w_local ;
  upsertFrontmatterKeys file (reconcile_keys f fm id url now).

(** [data?.data?.article_id || data?.article_id] (line 359). *)
Definition article_id_of (data : jsval) : jsval :=
  js_or (get_prop (get_prop data "data") "article_id") (get_prop data "article_id").

(** Lines 362-365: [this.articleMap[file.path] = articleId; await this.saveState()]. *)
Definition record_id (file : tfile) (articleId : jsval) : M unit :=
  do am <- gets w_articleMap ;
  do _ <- modify (set_articleMap (<[tf_path file := articleId]> am)) ;
  saveState.

(** Lines 339-375: the create branch. *)
Definition publish_create (file : tfile) (f : fields) (fm : jsval) (content : jstr) : M unit :=
  do st <- gets w_settings ;
  do data <- httpForm "article_post" (create_params st f content) ;
  let articleId := article_id_of data in
  do _ <- debug [JStr "发布响应数据"; JObj [("data", data); ("articleId", articleId)]] ;
  do _ <- (if js_truthy articleId then record_id file articleId else ret tt) ;
  do _ <- notice ("发布成功：" ++ f_title f ++ " (ID: " ++
                  js_string (js_nullish_or articleId (JStr "未知")) ++ ")") ;
  do _ <- setStatus "发布成功" ;
  do _ <- performPostAction (js_nullish_or articleId JNull) (f_draft f) ;
  do url <- (if js_truthy articleId then fetchArticleUrlById articleId else ret JNull) ;
  do now <- gets w_local ;
  upsertFrontmatterKeys file (reconcile_keys f fm (js_or articleId (JStr [])) url now).

(** Lines 376-405: the failure notice. *)
Definition publish_failed (e : jstr) : M unit :=
  do _ <- debug [JStr "发布失败详细信息"; JObj [("message", JStr e)]] ;
  do _ <- notice ("发布失败：" ++ e ++ error_hint e) ;
  setStatus "失败".

(** The [try] block of lines 314-375: update when the map holds an id. *)
Definition publish_branch (file : tfile) (f : fields) (fm : jsval) (content : jstr)
    (am : gmap jstr jsval) : M unit :=
  match am !! tf_path file with
  | Some stored => if is_update am (tf_path file) then publish_update file f fm content stored
                   else publish_create file f fm content
  | None => publish_create file f fm content
  end.

Definition publishCore (file : tfile) (content : jstr) (asDraft : bool) (ov : overrides) : M unit :=
  do cache <- getFileCache file ;
  let fm := frontmatter_of cache in
  do st <- gets w_settings ;
  let f := derive_fields st content file asDraft ov fm in
  do _ <- setStatus "上传图片中..." ;
  let stripped := removeFromContent content in
  do finalContent <- catch (do r <- processImages stripped file ; ret r.1)
                           (fun e => do _ <- debug [JStr "处理图片失败"; JStr e] ; ret stripped) ;
  do am <- gets w_articleMap ;
  let upd := is_update am (tf_path file) in
  do _ <- setStatus (if upd then "更新文章中..." else "发布文章中...") ;
  do _ <- notice (if upd then "正在更新到 EMLOG..." else "正在发布到 EMLOG...") ;
  do _ <- debug [JStr "开始发布文章";
                 JObj [("isUpdate", JBool upd); ("title", JStr (f_title f));
                       ("contentLength", JNum (JInt (Z.of_nat (length finalContent))));
                       ("sortId", JStr (f_sortId f)); ("tags", JStr (f_tags f));
                       ("draftFlag", JBool (f_draft f)); ("authMode", JStr (authMode st));
                       ("baseUrl", JStr (baseUrl st))]] ;
  catch (publish_branch file f fm finalContent am) publish_failed.

End Orchestrator.

(** ** The identifier map *)

(** The map is unchanged, or has gained a truthy id at [path]. *)
Definition ins_or_same (path : jstr) (w w' : world) : Prop :=
  w_articleMap w' = w_articleMap w \/
  exists v, js_truthy v = true /\ w_articleMap w' = <[path := v]> (w_articleMap w).

#[export] Instance ins_or_same_preorder path : PreOrder (ins_or_same path).
Proof.
  split; [intros w; left; reflexivity|].
  intros w1 w2 w3 [H1|(v & Hv & H1)] [H2|(v' & Hv' & H2)]; unfold ins_or_same.
  - left. congruence.
  - right. exists v'. rewrite H2, H1. split; [assumption|reflexivity].
  - right. exists v. rewrite H2, H1. split; [assumption|reflexivity].
  - right. exists v'. rewrite H2, H1, insert_insert_eq. split; [assumption|reflexivity].
Qed.

(** Stability under [same_on w_articleMap] carries over. *)
Lemma same_map_ins {A} path (m : M A) :
  stable (same_on w_articleMap) m -> stable (ins_or_same path) m.
Proof. intros H w. left. apply H. Qed.

Lemma record_id_ins file v :
  js_truthy v = true -> stable (ins_or_same (tf_path file)) (record_id file v).
Proof.
  intros Hv w. right. exists v. split; [exact Hv|].
  unfold record_id, saveState, saveData, bind, gets, modify. cbn. destruct (w_disk w); reflexivity.
Qed.

Lemma publish_update_keeps_map `{Uploader} file f fm c stored :
  stable (same_on w_articleMap) (publish_update file f fm c stored).
Proof.
  unfold publish_update, upsertFrontmatterKeys, performPostAction, fetchArticleUrlById,
    notice, setStatus, vault_modify, getFileCache.
  stable_auto.
Qed.

Lemma publish_failed_keeps e :
  stable (same_on (fun w => (w_articleMap w, w_files w))) (publish_failed e).
Proof. unfold publish_failed, notice, setStatus. stable_auto. Qed.

#[local] Hint Resolve same_map_ins record_id_ins : stable.

Lemma publish_create_ins `{Uploader} file f fm c :
  stable (ins_or_same (tf_path file)) (publish_create file f fm c).
Proof.
  unfold publish_create, performPostAction, fetchArticleUrlById, upsertFrontmatterKeys,
    notice, setStatus, vault_modify, getFileCache.
  stable_auto.
  all: apply same_map_ins; stable_auto.
Qed.

(** ** Up to the request *)

(** Evaluate the plumbing of the monad and the steps whose effect is
    known: [debug] and the plugin's image rewriter only write to the
    console. *)
Ltac run_plugin :=
  repeat (cbv beta iota zeta delta [bind gets modify ret catch throw setStatus notice getFileCache fst snd];
          match goal with
          | |- context [debug ?a ?w0] =>
            let c := fresh "c" in destruct (debug_run a w0) as [c ->]
          | |- context [@processImages plugin_uploader ?md ?cur ?w0] =>
            let c := fresh "c" in destruct (processImages_plugin_run md cur w0) as [c ->]
          end).

(** Before its [try] block, [publishCore] only talks to the user: it
    derives the fields from the cached front matter, strips the header
    block (the image rewriter leaves the body as it is) and takes the
    branch from the identifier map as it was. *)
Lemma publishCore_prefix file c d ov w :
  let fm := frontmatter_of (file_cache file w) in
  let f := derive_fields (w_settings w) c file d ov fm in
  exists w1, ui_frame w w1 /\
    @publishCore plugin_uploader file c d ov w
    = catch (publish_branch file f fm (removeFromContent c) (w_articleMap w)) publish_failed w1.
Proof.
  cbv zeta. unfold publishCore. run_plugin.
  eexists. split; [|reflexivity]. repeat split.
Qed.

(** [publishCore] never throws: its [try] block ends in [publish_failed],
    which only logs and notifies. *)
Lemma publishCore_ok file c d ov w : fst (@publishCore plugin_uploader file c d ov w) = Ok tt.
Proof.
  destruct (publishCore_prefix file c d ov w) as (w1 & _ & ->). unfold catch.
  destruct (publish_branch _ _ _ _ _ w1) as [[[]|e] w2]; [reflexivity|].
  unfold publish_failed, bind. destruct (debug_run [JStr "发布失败详细信息"; JObj [("message", JStr e)]] w2) as [cc ->].
  reflexivity.
Qed.

Lemma publish_failed_keeps_map e : stable (same_on w_articleMap) (publish_failed e).
Proof. unfold publish_failed, notice, setStatus. stable_auto. Qed.

#[local] Hint Resolve publish_failed_keeps_map publish_update_keeps_map publish_create_ins : stable.

(** The [try] block of [publishCore] with its failure notice. *)
Lemma publish_try_ins file f fm c am :
  stable (ins_or_same (tf_path file)) (catch (publish_branch file f fm c am) publish_failed).
Proof. unfold publish_branch. stable_auto. Qed.

(** [publishCore] changes the map at most at the note's path, to a truthy id. *)
Lemma publishCore_ins file c d ov w :
  ins_or_same (tf_path file) w (snd (@publishCore plugin_uploader file c d ov w)).
Proof.
  destruct (publishCore_prefix file c d ov w) as (w1 & (_ & Hm & _) & ->).
  etransitivity; [left; exact Hm|]. apply publish_try_ins.
Qed.



(** ** A create answered with an id *)

Lemma publish_branch_create file f fm c am :
  is_update am (tf_path file) = false -> publish_branch file f fm c am = publish_create file f fm c.
Proof. intros U. unfold publish_branch. rewrite U. destruct (am !! _); reflexivity. Qed.

(** [httpForm] when its first attempt succeeds. *)
Lemma httpForm_first_ok ep params w data :
  attempt_result (head (w_net w)) = Ok data ->
  exists w', httpForm ep params w = (Ok data, w') /\ w_articleMap w' = w_articleMap w /\
             w_files w' = w_files w /\ w_settings w' = w_settings w /\
             w_saved w' = w_saved w /\ w_disk w' = w_disk w.
Proof.
  intros Hr. destruct (httpForm_run ep params w) as (fp & hd & _ & c & ->).
  rewrite Hr. eexists. split; [reflexivity|]. repeat split.
Qed.

Lemma publish_create_records file f fm c w data :
  attempt_result (head (w_net w)) = Ok data -> js_truthy (article_id_of data) = true ->
  w_articleMap (snd (publish_create file f fm c w))
  = <[tf_path file := article_id_of data]> (w_articleMap w).
Proof.
  intros Hr Ht. unfold publish_create.
  rewrite (bind_run (gets w_settings) _ w _ _ eq_refl). cbv beta.
  destruct (httpForm_first_ok "article_post" (create_params (w_settings w) f c) w data Hr)
    as (w2 & Hh & Hm2 & _).
  rewrite (bind_run _ _ _ _ _ Hh). cbv beta.
  match goal with |- context [bind (debug ?a) _ w2] => destruct (debug_run a w2) as [c3 Hd] end.
  rewrite (bind_run _ _ _ _ _ Hd). cbv beta. rewrite Ht.
  rewrite bind_same_on.
  - cbn. rewrite Hm2. destruct (w_disk _); reflexivity.
  - intros _. unfold performPostAction, fetchArticleUrlById, upsertFrontmatterKeys,
      notice, setStatus, vault_modify, getFileCache.
    stable_auto.
Qed.

(** C6: A create whose request is answered with a success envelope
    carrying a truthy [article_id] records exactly that id at the note's
    path, whatever happens afterwards (post action, URL lookup, header
    rewrite). *)
Theorem publishCore_records_id file c d ov w data :
  is_update (w_articleMap w) (tf_path file) = false ->
  attempt_result (head (w_net w)) = Ok data ->
  js_truthy (article_id_of data) = true ->
  w_articleMap (snd (@publishCore plugin_uploader file c d ov w))
  = <[tf_path file := article_id_of data]> (w_articleMap w).
Proof.
  intros U Hr Ht. destruct (publishCore_prefix file c d ov w) as (w1 & Hf & ->).
  destruct Hf as (_ & Hm & _ & _ & _ & _ & _ & Hn & _).
  rewrite publish_branch_create by exact U.
  rewrite catch_same_on by (intros e; apply publish_failed_keeps_map).
  rewrite <- Hm. apply publish_create_records; [rewrite Hn; exact Hr|exact Ht].
Qed.

(** ** An update *)

Lemma publish_branch_update file f fm c am stored :
  am !! tf_path file = Some stored -> is_nullish stored = false ->
  publish_branch file f fm c am = publish_update file f fm c stored.
Proof. intros E Hn. unfold publish_branch, is_update. rewrite E, Hn. reflexivity. Qed.

Lemma publish_update_first_request file f fm c stored w :
  let st := w_settings w in
  exists rest, w_requests (snd (publish_update file f fm c stored w)) =
    w_requests w ++
    Request (strip_slash (baseUrl st) ++ "/?rest-api=article_update") "POST" form_headers0
      (Some (form_serialize (sign_form (update_params (js_string (JNum (js_number stored))) f c)
                                       (apiKey st) (w_now w)))) :: rest.
Proof.
  cbv zeta. unfold publish_update. cbv zeta.
  match goal with |- context [w_requests (snd (bind (httpForm ?e ?p) ?k w))] =>
    destruct (bind_grows w_requests (httpForm e p) k w) as [l Hl] end.
  { intros _. unfold performPostAction, fetchArticleUrlById, upsertFrontmatterKeys,
      notice, setStatus, vault_modify, getFileCache, debug.
    stable_auto. }
  rewrite Hl.
  destruct (httpForm_run "article_update" (update_params (js_string (JNum (js_number stored))) f c) w)
    as (fp & hd & Hfa & c0 & ->).
  rewrite form_auth_mutating_run in Hfa by reflexivity. injection Hfa as <- <-.
  cbn [snd w_requests set_console set_net].
  destruct (attempt_result (head (w_net w))); cbn [issued];
    eexists; rewrite <- app_assoc; reflexivity.
Qed.

(** C7: Publishing a note whose path the identifier map holds sends, as
    its first request, the signed [article_update] form whose [id] is the
    stored id. *)
Theorem publishCore_update_request file c d ov w stored :
  w_articleMap w !! tf_path file = Some stored -> is_nullish stored = false ->
  let st := w_settings w in
  let fm := frontmatter_of (file_cache file w) in
  let f := derive_fields st c file d ov fm in
  exists rest, w_requests (snd (@publishCore plugin_uploader file c d ov w)) =
    w_requests w ++
    Request (strip_slash (baseUrl st) ++ "/?rest-api=article_update") "POST" form_headers0
      (Some (form_serialize (sign_form (update_params (js_string (JNum (js_number stored))) f
                                          (removeFromContent c))
                                       (apiKey st) (w_now w)))) :: rest.
Proof.
  intros E Hn. cbv zeta. destruct (publishCore_prefix file c d ov w) as (w1 & Hf & ->).
  destruct Hf as (Hs & Hm & _ & _ & _ & _ & _ & _ & Hr & _ & _ & Hnow & _).
  rewrite publish_branch_update with (stored := stored) by assumption.
  match goal with |- context [w_requests (snd (catch ?m publish_failed w1))] =>
    destruct (catch_grows w_requests m publish_failed w1) as [l Hl] end.
  { intros e. unfold publish_failed, notice, setStatus, debug. stable_auto. }
  rewrite Hl.
  destruct (publish_update_first_request file
              (derive_fields (w_settings w) c file d ov (frontmatter_of (file_cache file w)))
              (frontmatter_of (file_cache file w)) (removeFromContent c) stored w1) as [rest Hrest].
  rewrite Hrest, Hr, Hs, Hnow. exists (rest ++ l). rewrite <- app_assoc. reflexivity.
Qed.

(** ** A failed create *)

Lemma publish_create_fails file f fm c w e1 e2 :
  attempt_result (head (w_net w)) = Throw e1 ->
  attempt_result (head (tail (w_net w))) = Throw e2 ->
  exists w2, publish_create file f fm c w =
    (Throw (detailed_error e1 e2 "article_post" (authMode (w_settings w))
                           (strip_slash (baseUrl (w_settings w)))), w2) /\
    w_articleMap w2 = w_articleMap w /\ w_files w2 = w_files w.
Proof.
  intros H1 H2. unfold publish_create.
  rewrite (bind_run (gets w_settings) _ w _ _ eq_refl). cbv beta.
  destruct (httpForm_run "article_post" (create_params (w_settings w) f c) w)
    as (fp & hd & _ & c0 & Hh).
  rewrite H1, H2 in Hh. cbn [with_fallback] in Hh.
  rewrite (bind_fail _ _ _ _ _ Hh). eexists. split; [reflexivity|]. split; reflexivity.
Qed.

(** C8: When both paths of the create request fail, [publishCore]
    returns normally, the identifier map and the notes are unchanged, the
    last notice is the aggregated error with its hint and the status bar
    reads "failed". *)
Theorem publishCore_create_fails file c d ov w e1 e2 :
  is_update (w_articleMap w) (tf_path file) = false ->
  attempt_result (head (w_net w)) = Throw e1 ->
  attempt_result (head (tail (w_net w))) = Throw e2 ->
  let st := w_settings w in
  let err := detailed_error e1 e2 "article_post" (authMode st) (strip_slash (baseUrl st)) in
  let r := @publishCore plugin_uploader file c d ov w in
  fst r = Ok tt /\ w_articleMap (snd r) = w_articleMap w /\ w_files (snd r) = w_files w /\
  List.last (w_notices (snd r)) [] = "发布失败：" ++ err ++ error_hint err /\
  w_status (snd r) = "EMLOG: 失败".
Proof.
  intros U H1 H2. cbv zeta. destruct (publishCore_prefix file c d ov w) as (w1 & Hf & ->).
  destruct Hf as (Hs & Hm & _ & _ & _ & Hfi & _ & Hn & _).
  rewrite publish_branch_create by exact U.
  destruct (publish_create_fails file
              (derive_fields (w_settings w) c file d ov (frontmatter_of (file_cache file w)))
              (frontmatter_of (file_cache file w)) (removeFromContent c) w1 e1 e2)
    as (w2 & Hc & Hm2 & Hf2); [rewrite Hn; exact H1|rewrite Hn; exact H2|].
  unfold catch. rewrite Hc, Hs. unfold publish_failed, bind.
  match goal with |- context [debug ?a w2] => destruct (debug_run a w2) as [c3 ->] end.
  cbn. rewrite last_last. repeat split; congruence.
Qed.

(** ** The persisted data follows the identifier map *)

(** What [loadData] would return is the current settings and map. *)
Definition saved_in_sync (w : world) : Prop :=
  w_saved w = Some (state_json (PluginState (w_settings w) (w_articleMap w))).

(** The part of the world the persisted data depends on, with the
    storage that takes the writes. *)
Definition persisted (w : world) : option jsval * settings * gmap jstr jsval * option jstr :=
  (w_saved w, w_settings w, w_articleMap w, w_disk w).

Definition keeps (P : world -> Prop) (w w' : world) : Prop := P w -> P w'.

#[export] Instance keeps_preorder P : PreOrder (keeps P).
Proof. split; [intros w H; exact H|intros w1 w2 w3 H1 H2 H; auto]. Qed.

(** The [try] block, unfolded into its steps. *)
Ltac branch_same :=
  intros; unfold publish_branch, publish_update, publish_create, record_id, saveState, saveData,
    publish_failed, performPostAction, fetchArticleUrlById, upsertFrontmatterKeys,
    notice, setStatus, vault_modify, getFileCache;
  stable_auto.

(** A property of the persisted data that holds whenever the saved data is
    in step with the settings and the map: [publishCore] keeps it while
    the storage accepts writes ([Pd]). *)
Section KeepsPersisted.
Context (P : world -> Prop).
Hypothesis HP_same : forall w w', persisted w' = persisted w -> P w -> P w'.
Hypothesis HP_sync : forall w, saved_in_sync w -> P w.

Definition Pd (w : world) : Prop := w_disk w = None -> P w.

Lemma same_keeps {A} (m : M A) : stable (same_on persisted) m -> stable (keeps Pd) m.
Proof.
  intros Hm w Hw Hd. specialize (Hm w). apply (HP_same w); [exact Hm|].
  apply Hw. unfold same_on, persisted in Hm. injection Hm as _ _ _ E. congruence.
Qed.

(** Recording an id saves the state right after, when the storage takes it. *)
Lemma record_id_keeps file v : stable (keeps Pd) (record_id file v).
Proof.
  intros w _. unfold Pd, record_id, saveState, saveData, bind, gets, modify. cbn.
  destruct (w_disk w) eqn:E; intros Hd; [cbn in Hd; congruence|apply HP_sync; reflexivity].
Qed.

#[local] Hint Resolve same_keeps record_id_keeps : stable.

Lemma publish_create_keeps `{Uploader} file f fm c : stable (keeps Pd) (publish_create file f fm c).
Proof.
  unfold publish_create, performPostAction, fetchArticleUrlById, upsertFrontmatterKeys,
    notice, setStatus, vault_modify, getFileCache.
  stable_auto.
  all: apply same_keeps; stable_auto.
Qed.

Lemma publish_try_keeps `{Uploader} file f fm c am :
  stable (keeps Pd) (catch (publish_branch file f fm c am) publish_failed).
Proof.
  unfold publish_branch, publish_update, publish_failed, performPostAction, fetchArticleUrlById,
    upsertFrontmatterKeys, notice, setStatus, vault_modify, getFileCache.
  stable_auto; try apply publish_create_keeps; apply same_keeps; stable_auto.
Qed.

Lemma publishCore_keeps file c d ov w :
  w_disk w = None -> P w -> P (snd (@publishCore plugin_uploader file c d ov w)).
Proof.
  destruct (publishCore_prefix file c d ov w) as (w1 & Hf & ->). intros Hd Hw.
  destruct Hf as (H1 & H2 & _ & _ & H5 & _ & _ & _ & _ & _ & _ & _ & _ & H14).
  match goal with |- P (snd (?m w1)) =>
    assert (Hdm : stable (same_on w_disk) m) by branch_same end.
  apply (publish_try_keeps _ _ _ _ _ w1); [|rewrite (Hdm w1); congruence].
  intros _. revert Hw. apply HP_same. unfold persisted. rewrite H1, H2, H5, H14. reflexivity.
Qed.

End KeepsPersisted.

Lemma saved_in_sync_same w w' : persisted w' = persisted w -> saved_in_sync w -> saved_in_sync w'.
Proof. unfold persisted, saved_in_sync. intros E. injection E as -> -> -> _. auto. Qed.

(** C5: Publishing keeps the saved data in step with the identifier map:
    if [loadData] would give back the current settings and map before a
    publish, it does after it, whatever the network answers, as long as
    the storage accepts the writes. *)
Theorem publishCore_saved_sync file c d ov w :
  w_disk w = None ->
  saved_in_sync w -> saved_in_sync (snd (@publishCore plugin_uploader file c d ov w)).
Proof. intros Hd Hs. apply (publishCore_keeps saved_in_sync); auto. exact saved_in_sync_same. Qed.

(** ** A create whose id cannot be saved *)

Lemma publish_create_save_fails file f fm c w data e :
  attempt_result (head (w_net w)) = Ok data -> js_truthy (article_id_of data) = true ->
  w_disk w = Some e ->
  exists w2, publish_create file f fm c w = (Throw e, w2) /\
    w_articleMap w2 = <[tf_path file := article_id_of data]> (w_articleMap w) /\
    w_files w2 = w_files w /\ w_saved w2 = w_saved w.
Proof.
  intros Hr Ht Hd. unfold publish_create.
  rewrite (bind_run (gets w_settings) _ w _ _ eq_refl). cbv beta.
  destruct (httpForm_first_ok "article_post" (create_params (w_settings w) f c) w data Hr)
    as (w2 & Hh & Hm2 & Hf2 & _ & Hs2 & Hd2).
  rewrite (bind_run _ _ _ _ _ Hh). cbv beta.
  match goal with |- context [bind (debug ?a) _ w2] => destruct (debug_run a w2) as [c3 Hdb] end.
  rewrite (bind_run _ _ _ _ _ Hdb). cbv beta. rewrite Ht.
  unfold bind at 1. unfold record_id, saveState, saveData, bind, gets, modify. cbn.
  rewrite Hd2, Hd. eexists. split; [reflexivity|]. cbn. rewrite Hm2, Hf2, Hs2. auto.
Qed.

(** The saved data as a restart reads it. *)
Lemma loadSettings_sync_map w w' :
  saved_in_sync w -> w_saved w' = w_saved w ->
  w_articleMap (snd (loadSettings w')) = w_articleMap w.
Proof.
  intros Hs Hw. unfold loadSettings, bind, gets. rewrite Hw, Hs.
  cbv beta iota. cbn [default id]. rewrite load_state_json. reflexivity.
Qed.

(** C9: When the storage rejects the write after a successful create,
    the article exists on the blog and its id is in the in-memory map,
    but the saved data is unchanged and the note's header is not written;
    [publishCore] returns normally, reports "publish failed" with the
    storage's error and sets the status to failed; and a restart loads the
    map without the id, so the note would be created again. *)
Theorem publishCore_save_fails file c d ov w data e :
  w_disk w = Some e -> saved_in_sync w ->
  is_update (w_articleMap w) (tf_path file) = false ->
  attempt_result (head (w_net w)) = Ok data ->
  js_truthy (article_id_of data) = true ->
  let r := @publishCore plugin_uploader file c d ov w in
  fst r = Ok tt /\
  w_articleMap (snd r) = <[tf_path file := article_id_of data]> (w_articleMap w) /\
  w_saved (snd r) = w_saved w /\ w_files (snd r) = w_files w /\
  List.last (w_notices (snd r)) [] = "发布失败：" ++ e ++ error_hint e /\
  w_status (snd r) = "EMLOG: 失败" /\
  w_articleMap (snd (loadSettings (snd r))) = w_articleMap w.
Proof.
  intros Hd Hsync U Hr Ht. cbv zeta. destruct (publishCore_prefix file c d ov w) as (w1 & Hf & ->).
  destruct Hf as (Hs & Hm & _ & _ & Hsv & Hfi & _ & Hn & _ & _ & _ & _ & _ & Hd1).
  rewrite publish_branch_create by exact U.
  destruct (publish_create_save_fails file
              (derive_fields (w_settings w) c file d ov (frontmatter_of (file_cache file w)))
              (frontmatter_of (file_cache file w)) (removeFromContent c) w1 data e)
    as (w2 & Hc & Hm2 & Hf2 & Hs2); [rewrite Hn; exact Hr|exact Ht|congruence|].
  unfold catch. rewrite Hc.
  assert (Hsv2 : w_saved w2 = w_saved w) by congruence.
  assert (Hp : stable (same_on w_saved) (publish_failed e)) by (unfold publish_failed, notice, setStatus; stable_auto).
  assert (Hl : w_articleMap (snd (loadSettings (snd (publish_failed e w2)))) = w_articleMap w)
    by (apply (loadSettings_sync_map w _ Hsync); rewrite (Hp w2); exact Hsv2).
  unfold publish_failed, bind in Hl |- *.
  match goal with |- context [debug ?a w2] => destruct (debug_run a w2) as [c3 Hdb] end.
  rewrite Hdb in Hl |- *. cbn in Hl |- *. rewrite last_last.
  repeat split; try exact Hl; congruence.
Qed.

(** ** What a publish leaves in the settings and on the status bar *)

(** A part of the world the prefix leaves alone and the [try] block does
    not write is the same after a publish. *)
Lemma publishCore_same_on {T} (p : world -> T) file c d ov :
  (forall w w', ui_frame w w' -> p w' = p w) ->
  (forall f fm c' am, stable (same_on p) (catch (publish_branch file f fm c' am) publish_failed)) ->
  stable (same_on p) (@publishCore plugin_uploader file c d ov).
Proof.
  intros Hui Hb w. destruct (publishCore_prefix file c d ov w) as (w1 & Hf & ->).
  unfold same_on. rewrite <- (Hui _ _ Hf). apply Hb.
Qed.


Lemma publishCore_settings file c d ov w :
  w_settings (snd (@publishCore plugin_uploader file c d ov w)) = w_settings w.
Proof. apply publishCore_same_on; [intros ? ? (H & _); exact H|branch_same]. Qed.

Lemma publishCore_disk file c d ov :
  stable (same_on w_disk) (@publishCore plugin_uploader file c d ov).
Proof.
  apply publishCore_same_on; [intros ? ? (_ & _ & _ & _ & _ & _ & _ & _ & _ & _ & _ & _ & _ & H); exact H|branch_same].
Qed.

Lemma publishCore_lastMarkdown file c d ov :
  stable (same_on w_lastMarkdown) (@publishCore plugin_uploader file c d ov).
Proof. apply publishCore_same_on; [intros ? ? (_ & _ & _ & H & _); exact H|branch_same]. Qed.

(** The steps after a status that do not touch it. *)
Ltac status_tail :=
  intros; unfold performPostAction, fetchArticleUrlById, upsertFrontmatterKeys, record_id,
    saveState, saveData, notice, setStatus, vault_modify, getFileCache; stable_auto.

Lemma publish_update_status file f fm c stored :
  ok_post (fun w => w_status w = "EMLOG: 更新成功") (publish_update file f fm c stored).
Proof.
  unfold publish_update. do 2 (apply ok_post_bind; intros _).
  apply ok_post_last; [reflexivity|status_tail].
Qed.

Lemma publish_create_status file f fm c :
  ok_post (fun w => w_status w = "EMLOG: 发布成功") (publish_create file f fm c).
Proof.
  unfold publish_create. do 5 (apply ok_post_bind; intros ?).
  apply ok_post_last; [reflexivity|status_tail].
Qed.

Lemma publish_failed_status e w : w_status (snd (publish_failed e w)) = "EMLOG: 失败".
Proof.
  unfold publish_failed.
  destruct (debug_run [JStr "发布失败详细信息"; JObj [("message", JStr e)]] w) as [c Hd].
  rewrite (bind_run _ _ _ _ _ Hd). reflexivity.
Qed.

(** However it ends, a publish leaves one of the final statuses: the
    progress statuses it shows on the way are always replaced. *)
Lemma publishCore_status file c d ov w :
  let s := w_status (snd (@publishCore plugin_uploader file c d ov w)) in
  s = "EMLOG: 更新成功" \/ s = "EMLOG: 发布成功" \/ s = "EMLOG: 失败".
Proof.
  cbv zeta. destruct (publishCore_prefix file c d ov w) as (w1 & _ & ->).
  unfold catch. match goal with |- context [publish_branch ?f ?fs ?fm ?ct ?am w1] =>
    destruct (publish_branch f fs fm ct am w1) as [[a|e] w2] eqn:E end.
  - unfold publish_branch in E. repeat case_match;
      [left; exact (publish_update_status _ _ _ _ _ _ _ _ E)
      |right; left; exact (publish_create_status _ _ _ _ _ _ _ E)..].
  - right; right. apply publish_failed_status.
Qed.

(** ** A note and a world for the witnesses *)

Definition demo_settings : settings :=
  Settings "https://blog.example" "sign" "k" "" "" true true true "open" false.
Definition demo_note : jstr := "# Hello" ++ LF ++ LF ++ "World".
Definition demo_file : tfile := mk_tfile "notes/a.md".
Definition created_reply : jsval :=
  JObj [("code", JNum (JInt 0)); ("data", JObj [("article_id", JNum (JInt 42))])].

(** [notes/a.md] without a header block, no id recorded, and a blog that
    answers the create with article 42 and nothing else. *)
Definition demo_world : world :=
  init_world demo_settings [("notes/a.md", demo_note)] [("notes/a.md", CacheEntry None None)]
             [TResp 200 (Parsed created_reply)].

Definition demo_first : world :=
  snd (@publishCore plugin_uploader demo_file demo_note false no_overrides demo_world).

Definition dq : jstr := [34%N].

(** The header block written by the first publish. *)
Definition demo_header : jstr :=
  "---" ++ LF ++ "published: true" ++ LF ++ "sort_id: " ++ dq ++ dq ++ LF ++
  "emlog_article_id: 42" ++ LF ++ "publish_date: " ++ dq ++ "2023-11-14 22:13:20" ++ dq ++ LF ++
  "url: " ++ dq ++ "https://blog.example/?post=42" ++ dq ++ LF ++ "---" ++ LF.

(** ** Witnesses *)

Lemma publishCore_records_id_witness :
  w_articleMap (snd (@publishCore plugin_uploader demo_file demo_note false no_overrides demo_world))
  = <[tf_path demo_file := article_id_of created_reply]> (w_articleMap demo_world).
Proof.
  exact (publishCore_records_id demo_file demo_note false no_overrides demo_world created_reply
           eq_refl eq_refl eq_refl).
Defined.

Lemma publishCore_update_request_witness :
  let st := w_settings demo_first in
  let fm := frontmatter_of (file_cache demo_file demo_first) in
  let f := derive_fields st (demo_header ++ demo_note) demo_file false no_overrides fm in
  exists rest,
    w_requests (snd (@publishCore plugin_uploader demo_file (demo_header ++ demo_note) false
                       no_overrides demo_first)) =
    w_requests demo_first ++
    Request (strip_slash (baseUrl st) ++ "/?rest-api=article_update") "POST" form_headers0
      (Some (form_serialize (sign_form (update_params (js_string (JNum (js_number (JNum (JInt 42))))) f
                                          (removeFromContent (demo_header ++ demo_note)))
                                       (apiKey st) (w_now demo_first)))) :: rest.
Proof.
  exact (publishCore_update_request demo_file (demo_header ++ demo_note) false no_overrides demo_first
           (JNum (JInt 42)) ltac:(vm_compute; reflexivity) eq_refl).
Defined.

Lemma publishCore_create_fails_witness :
  let w := set_net [TErr "timeout"; TResp 404 (Parsed JNull)] [] demo_world in
  let st := w_settings w in
  let err := detailed_error "timeout" "Request failed, status 404" "article_post" (authMode st)
                            (strip_slash (baseUrl st)) in
  let r := @publishCore plugin_uploader demo_file demo_note false no_overrides w in
  fst r = Ok tt /\ w_articleMap (snd r) = w_articleMap w /\ w_files (snd r) = w_files w /\
  List.last (w_notices (snd r)) [] = "发布失败：" ++ err ++ error_hint err /\
  w_status (snd r) = "EMLOG: 失败".
Proof.
  exact (publishCore_create_fails demo_file demo_note false no_overrides
           (set_net [TErr "timeout"; TResp 404 (Parsed JNull)] [] demo_world)
           "timeout" "Request failed, status 404" eq_refl eq_refl eq_refl).
Defined.

Definition sync_world : world :=
  set_saved (state_json (PluginState (w_settings demo_world) (w_articleMap demo_world))) demo_world.

Lemma publishCore_saved_sync_witness :
  w_disk sync_world = None /\ saved_in_sync sync_world /\
  saved_in_sync (snd (@publishCore plugin_uploader demo_file demo_note false no_overrides sync_world)).
Proof.
  split; [reflexivity|]. split; [reflexivity|].
  exact (publishCore_saved_sync demo_file demo_note false no_overrides sync_world eq_refl eq_refl).
Defined.

(** The same start on a vault whose data file cannot be written. *)
Definition readonly_world : world :=
  {| w_settings := w_settings sync_world; w_articleMap := w_articleMap sync_world;
     w_cachedSorts := w_cachedSorts sync_world; w_lastMarkdown := w_lastMarkdown sync_world;
     w_status := w_status sync_world; w_saved := w_saved sync_world; w_files := w_files sync_world;
     w_cache := w_cache sync_world; w_net := w_net sync_world; w_requests := w_requests sync_world;
     w_notices := w_notices sync_world; w_console := w_console sync_world;
     w_opened := w_opened sync_world; w_clipboard := w_clipboard sync_world;
     w_now := w_now sync_world; w_local := w_local sync_world;
     w_disk := Some "EROFS: read-only file system" |}.

Lemma publishCore_save_fails_witness :
  let e := "EROFS: read-only file system" in
  w_disk readonly_world = Some e /\ saved_in_sync readonly_world /\
  is_update (w_articleMap readonly_world) (tf_path demo_file) = false /\
  attempt_result (head (w_net readonly_world)) = Ok created_reply /\
  js_truthy (article_id_of created_reply) = true /\
  let r := @publishCore plugin_uploader demo_file demo_note false no_overrides readonly_world in
  fst r = Ok tt /\
  w_articleMap (snd r) = <[tf_path demo_file := article_id_of created_reply]> (w_articleMap readonly_world) /\
  w_saved (snd r) = w_saved readonly_world /\ w_files (snd r) = w_files readonly_world /\
  List.last (w_notices (snd r)) [] = "发布失败：" ++ e ++ error_hint e /\
  w_status (snd r) = "EMLOG: 失败" /\
  w_articleMap (snd (loadSettings (snd r))) = w_articleMap readonly_world.
Proof.
  cbv zeta. do 5 (split; [reflexivity|]).
  exact (publishCore_save_fails demo_file demo_note false no_overrides readonly_world created_reply
           "EROFS: read-only file system" eq_refl eq_refl eq_refl eq_refl eq_refl).
Defined.
