(* ===== verification/Settings.v ===== *)
(** * The settings tab: [EmlogSettingTab] (main.ts 849-971) and the
    category dropdown ([populateSortDropdown], 550-562)

    Each control of the tab writes one field of the settings and saves
    them with [saveSettings] (154-156, that is [saveState]): the site
    address (trimmed), the auth mode (a dropdown of three options), the API
    key, the default author and the default category (a dropdown filled by
    [populateSortDropdown]; its placeholder entry is ignored).  A control is
    an event [setting_edit] and [apply_edit] its handler.  The DOM widgets
    themselves are not modelled: a dropdown is the list of its options, and
    the label under the category dropdown is the text [sort_label] computes
    (lines 937-955).  [display] renders the whole tab as a [tab_view] and
    keeps the tab's own flag [didRegisterLiveUpdates].

    The theorems: the settings the tab can produce are well typed (the
    auth mode and the post action are among the values the code tests for,
    the site address is trimmed), and each edit saves them, so the saved
    data stays in step; an option of the category dropdown, once chosen,
    is found again by [getSortNameByIdPublic]. *)

From stdpp Require Import gmap.
From S2P Require Import Prelude JsString Regex RegexParse JsValue Escape Frontmatter World Http Metadata Images Persist Publish Pipeline.

Open Scope js_scope.
Open Scope plugin_scope.

(** ** The controls *)

(** The three options of the auth-mode dropdown (lines 880-883). *)
Inductive auth_choice := AuthSign | AuthApiKey | AuthCookie.

Definition auth_value (c : auth_choice) : jstr :=
  match c with AuthSign => "sign" | AuthApiKey => "apikey" | AuthCookie => "cookie" end.

Definition with_baseUrl (st : settings) (v : jstr) : settings :=
  Settings v (authMode st) (apiKey st) (defaultAuthorUid st) (defaultSortId st)
    (defaultDraft st) (autoCover st) (allowRemark st) (postAction st) (enableDebug st).
Definition with_authMode (st : settings) (v : jstr) : settings :=
  Settings (baseUrl st) v (apiKey st) (defaultAuthorUid st) (defaultSortId st)
    (defaultDraft st) (autoCover st) (allowRemark st) (postAction st) (enableDebug st).
Definition with_apiKey (st : settings) (v : jstr) : settings :=
  Settings (baseUrl st) (authMode st) v (defaultAuthorUid st) (defaultSortId st)
    (defaultDraft st) (autoCover st) (allowRemark st) (postAction st) (enableDebug st).
Definition with_authorUid (st : settings) (v : jstr) : settings :=
  Settings (baseUrl st) (authMode st) (apiKey st) v (defaultSortId st)
    (defaultDraft st) (autoCover st) (allowRemark st) (postAction st) (enableDebug st).
Definition with_sortId (st : settings) (v : jstr) : settings :=
  Settings (baseUrl st) (authMode st) (apiKey st) (defaultAuthorUid st) v
    (defaultDraft st) (autoCover st) (allowRemark st) (postAction st) (enableDebug st).

(** The [onChange] events of the tab's controls, with the value the
    control passes. *)
Inductive setting_edit :=
| SetBaseUrl (v : jstr)          (** lines 869-872 *)
| SetAuthMode (c : auth_choice)  (** lines 882-885 *)
| SetApiKey (v : jstr)           (** lines 893-896 *)
| SetAuthorUid (v : jstr)        (** lines 903-906 *)
| SetSortId (v : jstr).          (** lines 916-920 *)

(** [saveSettings()] (lines 154-156). *)
Definition saveSettings : M unit := saveState.

(** The handler of each control: write the field, then save. *)
Definition apply_edit (e : setting_edit) : M unit :=
  match e with
  | SetSortId v =>
    if bool_decide (v = "__placeholder__") then ret tt
    else do st <- gets w_settings ; do _ <- modify (set_settings (with_sortId st v)) ; saveSettings
  | _ =>
    do st <- gets w_settings ;
    let st' := match e with
               | SetBaseUrl v => with_baseUrl st (js_trim v)
               | SetAuthMode c => with_authMode st (auth_value c)
               | SetApiKey v => with_apiKey st v
               | SetAuthorUid v => with_authorUid st v
               | SetSortId v => with_sortId st v
               end in
    do _ <- modify (set_settings st') ;
    saveSettings
  end.

(** ** The category dropdown *)

(** One option per cached category: its id as a string, its name indented
    by two spaces per level. *)
Definition sort_option (s : flat_sort) : jstr * jstr :=
  (jsnum_to_js (fs_id s), js_repeat " " (fs_depth s * 2) ++ fs_name s).

(** [populateSortDropdown(dd)]: the options as (value, label) pairs. *)
Definition populateSortDropdown (st : settings) (cached : list flat_sort) : list (jstr * jstr) :=
  ("", "（不指定）") ::
  match cached with
  | [] => [("__placeholder__", if bool_decide (baseUrl st = []) then "请先配置站点地址"
                              else "尚未加载分类，点击右侧刷新")]
  | _ => map sort_option cached
  end.

(** The refresh button next to the dropdown (lines 923-930) and the
    refresh when the tab opens with a site address (lines 957-963); the
    dropdown is then filled again from the cache. *)
Definition refresh_button : M unit := refreshSortOptions.

Definition display_refresh : M unit :=
  do st <- gets w_settings ;
  if bool_decide (baseUrl st = []) then ret tt else catch refreshSortOptions (fun _ => ret tt).

(** [updateFrontmatterSortLabel()] (lines 937-955): the text of the label
    for the active note, from its cached front matter. *)
Definition sort_label (active : option tfile) (cache : tfile -> option cache_entry)
    (cached : list flat_sort) : jstr :=
  match active with
  | None => "未检测到活动笔记"
  | Some file =>
    let fm := frontmatter_of (cache file) in
    let id := if is_nullish (get_prop fm "sort_id") then JNull
              else JNum (js_number (get_prop fm "sort_id")) in
    if negb (js_truthy id) then "未设置（frontmatter 中无 sort_id）"
    else match getSortNameByIdPublic cached id with
         | Some name =>
           if negb (bool_decide (name = [])) then name ++ " (ID: " ++ js_string id ++ ")"
           else "未匹配到分类 (ID: " ++ js_string id ++ ")，请先点击上方“刷新分类”"
         | None => "未匹配到分类 (ID: " ++ js_string id ++ ")，请先点击上方“刷新分类”"
         end
  end.

(** ** The tab as displayed *)

(** The tab object's own state (line 851): whether it has registered the
    label's live updates, and how many host events it has registered. *)
Record tab := Tab { didRegisterLiveUpdates : bool; live_handlers : nat }.

(** What [display()] shows: the text inputs, the auth mode, the category
    dropdown with its value, and the front-matter label. *)
Record tab_view := TabView {
  tv_baseUrl : jstr; tv_authMode : jstr; tv_apiKey : jstr; tv_authorUid : jstr;
  tv_sort_options : list (jstr * jstr); tv_sort_value : jstr; tv_label : jstr;
}.

Definition render (active : option tfile) (w : world) : tab_view :=
  let st := w_settings w in
  TabView (baseUrl st) (authMode st) (apiKey st) (defaultAuthorUid st)
    (populateSortDropdown st (w_cachedSorts w)) (defaultSortId st)
    (sort_label active (fun f => file_cache f w) (w_cachedSorts w)).

(** [display()] (lines 858-970): the controls are rendered, the categories
    refreshed when a site address is set (after which the dropdown, its
    value and the label are rendered again, so the view is the one of the
    world after the refresh), and the two live updates of the label
    registered with the plugin the first time only. *)
Definition display (t : tab) (active : option tfile) : M (tab * tab_view) :=
  do _ <- display_refresh ;
  do v <- gets (render active) ;
  ret (if didRegisterLiveUpdates t then t else Tab true (live_handlers t + 2), v).

(** The tab displayed [n] times, as the user opens it again and again. *)
Fixpoint display_times (n : nat) (t : tab) (active : option tfile) : M tab :=
  match n with
  | O => ret t
  | S n => do r <- display t active ; display_times n (fst r) active
  end.

(** ** Well-typed settings *)

(** The values the code tests [authMode] and [postAction] against, and a
    trimmed site address. *)
Definition settings_wf (st : settings) : Prop :=
  authMode st ∈ ["sign"; "apikey"; "cookie"] /\
  postAction st ∈ ["none"; "open"; "copy"; "both"] /\
  js_trim (baseUrl st) = baseUrl st.

(** The settings no control of the tab writes: the default draft flag,
    the auto-cover flag, the comment default, the post action and the
    debug flag. *)
Definition fixed_settings (st : settings) : bool * bool * bool * jstr * bool :=
  (defaultDraft st, autoCover st, allowRemark st, postAction st, enableDebug st).

(** ** Lemmas *)

Lemma DEFAULT_SETTINGS_wf : settings_wf DEFAULT_SETTINGS.
Proof. split; [|split]; [set_solver|set_solver|reflexivity]. Qed.

Lemma auth_value_wf c : auth_value c ∈ ["sign"; "apikey"; "cookie"].
Proof. destruct c; set_solver. Qed.

(** Writing the settings and saving them: the settings are written
    whatever happens to the write; when the storage takes it, the save
    succeeds and the saved data is in step. *)
Lemma set_and_save st w :
  w_settings (snd ((do _ <- modify (set_settings st) ; saveSettings) w)) = st /\
  (w_disk w = None ->
   fst ((do _ <- modify (set_settings st) ; saveSettings) w) = Ok tt /\
   saved_in_sync (snd ((do _ <- modify (set_settings st) ; saveSettings) w))).
Proof.
  unfold saveSettings, saveState, saveData, bind, gets, modify. cbn.
  destruct (w_disk w); (split; [reflexivity|]); intros H; [discriminate|split; reflexivity].
Qed.

(** Every control of the settings tab keeps the settings well typed
    (an auth mode among the dropdown's options, a post action the code
    knows, a trimmed site address) and, when the storage takes the write,
    saves them, so that the saved data is in step with the settings and
    the map; only the placeholder entry of the category dropdown is
    ignored. *)
Lemma apply_edit_wf e w :
  settings_wf (w_settings w) ->
  let w' := snd (apply_edit e w) in
  settings_wf (w_settings w') /\
  (w_disk w = None -> fst (apply_edit e w) = Ok tt /\ (w' = w \/ saved_in_sync w')).
Proof.
  intros (Ha & Hp & Hb). cbv zeta.
  destruct e as [v|c|v|v|v]; cbn [apply_edit];
    [..|destruct (bool_decide (v = "__placeholder__"));
        [split; [split; auto|intros _; split; [reflexivity|left; reflexivity]]|]];
    unfold bind at 1, gets; cbv beta iota zeta;
    match goal with |- context [modify (set_settings ?st)] => destruct (set_and_save st w) as [Hs Hok] end;
    rewrite Hs; (split; [|intros Hd; destruct (Hok Hd) as [Ho Hy]; split; [exact Ho|right; exact Hy]]);
    cbn; repeat split; auto.
  - apply js_trim_idem.
  - apply auth_value_wf.
Qed.

(** No control of the tab writes those settings. *)
Lemma apply_edit_fixed e : stable (same_on (fun w => fixed_settings (w_settings w))) (apply_edit e).
Proof.
  intros w. unfold same_on. destruct e as [v|c|v|v|v]; cbn [apply_edit];
    [..|destruct (bool_decide (v = "__placeholder__")); [reflexivity|]];
    unfold saveSettings, saveState, saveData, bind, gets, modify; cbn; destruct (w_disk w); reflexivity.
Qed.

(** Opening the tab never throws: the refresh's failures are caught. *)
Lemma display_refresh_ok w : fst (display_refresh w) = Ok tt.
Proof.
  unfold display_refresh, bind, gets. cbv beta iota. destruct (bool_decide _); [reflexivity|].
  unfold catch. destruct (refreshSortOptions w) as [[[]|e] w0]; reflexivity.
Qed.

Lemma display_run t active w :
  display t active w =
  (Ok (if didRegisterLiveUpdates t then t else Tab true (live_handlers t + 2),
       render active (snd (display_refresh w))), snd (display_refresh w)).
Proof.
  unfold display, bind at 1. pose proof (display_refresh_ok w) as H.
  destruct (display_refresh w) as [o w1]. cbn in H. subst o. reflexivity.
Qed.

(** Once registered, the live updates are not registered again. *)
Lemma display_times_registered n : forall t active w,
  didRegisterLiveUpdates t = true -> fst (display_times n t active w) = Ok t.
Proof.
  induction n as [|n IH]; intros t active w Ht; [reflexivity|].
  cbn [display_times]. unfold bind at 1. rewrite display_run, Ht. apply IH, Ht.
Qed.

Lemma find_some_in {A} (f : A -> bool) l x : List.find f l = Some x -> In x l /\ f x = true.
Proof. intros H. split; [eapply find_some, H|eapply find_some, H]. Qed.

Lemma jsnum_strict_eq_int n z : jsnum_strict_eq n (JInt z) = true -> n = JInt z.
Proof. destruct n; cbn; [intros H; apply Z.eqb_eq in H; congruence|discriminate]. Qed.

(** C19: However often the settings tab is opened, the label's live
    updates are registered with the plugin once: a fresh tab displayed
    [n + 1] times has registered exactly two host events (the active-leaf
    change and the metadata change) and set its flag; opening it never
    throws. *)
Theorem display_registers_once n active w :
  fst (display_times (S n) (Tab false 0) active w) = Ok (Tab true 2).
Proof.
  cbn [display_times]. unfold bind at 1. rewrite display_run. cbn [didRegisterLiveUpdates live_handlers fst].
  apply display_times_registered. reflexivity.
Qed.

(** C13: Choosing a category in the dropdown and looking its value up
    again finds a category: the option's value is [String(z)] for the id
    [z] of a cached category, and [getSortNameByIdPublic] returns the name
    of a cached category with that id, provided the cached ids are
    integral. *)
Theorem dropdown_option_found st cached v lbl :
  Forall (fun s => exists z, fs_id s = JInt z) cached ->
  In (v, lbl) (populateSortDropdown st cached) -> v <> [] -> v <> "__placeholder__" ->
  exists z name, v = Z_to_js z /\ getSortNameByIdPublic cached (JStr v) = Some name /\
    exists s, In s cached /\ fs_id s = JInt z /\ fs_name s = name.
Proof.
  intros Hids Hin Hv Hp. destruct Hin as [Hin|Hin]; [injection Hin as <- _; congruence|].
  destruct cached as [|s0 cs]; [destruct Hin as [Hin|[]]; injection Hin as <- _; congruence|].
  apply in_map_iff in Hin as (s & Hs & Hsin). injection Hs as <- _.
  destruct (proj1 (List.Forall_forall _ _) Hids s Hsin) as [z Hz].
  rewrite Hz. exists z. cbn [jsnum_to_js]. rewrite getSortName_string_id.
  destruct (List.find _ (s0 :: cs)) as [s'|] eqn:Hf.
  - apply find_some_in in Hf as [Hs' Heq]. apply jsnum_strict_eq_int in Heq.
    exists (fs_name s'). split; [reflexivity|]. split; [reflexivity|]. exists s'. auto.
  - exfalso. eapply find_none in Hf; [|exact Hsin]. rewrite Hz in Hf. cbn in Hf. rewrite Z.eqb_refl in Hf. discriminate.
Qed.

Lemma dropdown_option_found_witness :
  Forall (fun s => exists z, fs_id s = JInt z) [FlatSort (JInt 3) "Tech" 0; FlatSort (JInt 7) "Rocq" 1] /\
  In ("7", "  Rocq") (populateSortDropdown DEFAULT_SETTINGS [FlatSort (JInt 3) "Tech" 0; FlatSort (JInt 7) "Rocq" 1]) /\
  "7" <> [] /\ "7" <> "__placeholder__" /\
  exists z name, "7" = Z_to_js z /\
    getSortNameByIdPublic [FlatSort (JInt 3) "Tech" 0; FlatSort (JInt 7) "Rocq" 1] (JStr "7") = Some name /\
    exists s, In s [FlatSort (JInt 3) "Tech" 0; FlatSort (JInt 7) "Rocq" 1] /\ fs_id s = JInt z /\ fs_name s = name.
Proof.
  assert (H1 : Forall (fun s => exists z, fs_id s = JInt z) [FlatSort (JInt 3) "Tech" 0; FlatSort (JInt 7) "Rocq" 1])
    by (repeat constructor; eexists; reflexivity).
  assert (H2 : In ("7", "  Rocq") (populateSortDropdown DEFAULT_SETTINGS [FlatSort (JInt 3) "Tech" 0; FlatSort (JInt 7) "Rocq" 1]))
    by (right; right; left; reflexivity).
  assert (H3 : "7" <> []) by discriminate. assert (H4 : "7" <> "__placeholder__") by discriminate.
  repeat (split; [assumption|]).
  exact (dropdown_option_found DEFAULT_SETTINGS _ "7" "  Rocq" H1 H2 H3 H4).
Defined.
