(* ===== verification/Modal.v ===== *)
(** * The custom publish dialog: [PublishModal] (main.ts 1013-1113)

    On opening, the dialog fills its inputs from the note and its front
    matter ([modal_init], lines 1044-1056); the publish button passes them
    to [publishCore] as overrides ([modal_overrides], lines 1095-1107).
    The widgets themselves are not modelled: an input the user edits is a
    field of [modal_state] set to the new value. *)

From stdpp Require Import gmap.
From S2P Require Import Prelude JsString Regex RegexParse JsValue Escape Frontmatter World Http Metadata Images Persist Publish Pipeline Settings.

Open Scope js_scope.
Open Scope plugin_scope.

(** The fields of [PublishModal] (lines 1018-1028). *)
Record modal_state := ModalState {
  md_title : jstr; md_sortId : jstr; md_tags : jstr; md_excerpt : jstr; md_draft : bool;
  md_postDate : jstr; md_coverImage : jsval; md_top : bool; md_sortop : bool;
  md_allowRemark : bool; md_password : jsval;
}.

(** [onOpen] (lines 1044-1056): the inputs before any edit. *)
Definition modal_init (st : settings) (raw : jstr) (file : tfile) (fm : jsval) : modal_state :=
  ModalState
    (deriveTitle raw (Some file) fm)
    (sort_id_of st fm)
    (tags_of fm)
    (deriveExcerpt raw fm)
    (yes_flag (get_prop fm "draft") || defaultDraft st)
    []
    (js_or (js_or (get_prop fm "cover_image") (get_prop fm "coverImage")) (JStr []))
    (yes_flag (get_prop fm "top"))
    (yes_flag (get_prop fm "sortop"))
    (negb (js_eq_str (get_prop fm "allow_remark") "n") && negb (js_eq_bool (get_prop fm "allow_remark") false))
    (js_or (get_prop fm "password") (JStr [])).

(** The overrides of the publish button (lines 1097-1109). *)
Definition modal_overrides (m : modal_state) : overrides :=
  Overrides (Some (md_title m)) (Some (md_sortId m)) (Some (md_tags m)) (Some (md_excerpt m))
    (Some (md_draft m))
    (if bool_decide (md_postDate m = []) then None else Some (md_postDate m))
    (if js_truthy (md_coverImage m) then Some (md_coverImage m) else None)
    (Some (yn (md_top m))) (Some (yn (md_sortop m))) (Some (yn (md_allowRemark m)))
    (if js_truthy (md_password m) then Some (md_password m) else None).

(** The publish button (lines 1095-1110): the note's current text (from
    the editor, else the vault), published as a non-draft with the
    dialog's overrides. *)
Definition modal_publish `{Uploader} (file : tfile) (editor : option jstr) (m : modal_state) : M unit :=
  do raw2 <- match editor with Some t => ret t | None => vault_read file end ;
  publishCore file raw2 false (modal_overrides m).

(** [onOpen] (lines 1038-1056) on the world: the text comes from the
    editor when the dialog was opened with one, else from the vault. *)
Definition modal_open (file : tfile) (editor : option jstr) : M modal_state :=
  do raw <- match editor with Some t => ret t | None => vault_read file end ;
  do cache <- getFileCache file ;
  do st <- gets w_settings ;
  ret (modal_init st raw file (frontmatter_of cache)).

(** The options of the dialog's category select (lines 1062-1068 and
    1074-1079): no placeholder, one option per cached category. *)
Definition modal_sort_options (cached : list flat_sort) : list (jstr * jstr) :=
  ("", "（不指定）") :: map sort_option cached.

(** The [onChange] events of the dialog's inputs (lines 1058-1095). *)
Inductive modal_edit :=
| EdTitle (v : jstr) | EdExcerpt (v : jstr) | EdTags (v : jstr) | EdCover (v : jstr)
| EdSort (v : jstr) | EdDraft (b : bool) | EdPostDate (v : jstr) | EdTop (b : bool)
| EdSortop (b : bool) | EdAllowRemark (b : bool) | EdPassword (v : jstr).

Definition apply_modal_edit (e : modal_edit) (m : modal_state) : modal_state :=
  let 'ModalState t s g x d p c tp so ar pw := m in
  match e with
  | EdTitle v => ModalState v s g x d p c tp so ar pw
  | EdExcerpt v => ModalState t s g v d p c tp so ar pw
  | EdTags v => ModalState t s v x d p c tp so ar pw
  | EdCover v => ModalState t s g x d p (JStr v) tp so ar pw
  | EdSort v => ModalState t v g x d p c tp so ar pw
  | EdDraft b => ModalState t s g x b p c tp so ar pw
  | EdPostDate v => ModalState t s g x d v c tp so ar pw
  | EdTop b => ModalState t s g x d p c b so ar pw
  | EdSortop b => ModalState t s g x d p c tp b ar pw
  | EdAllowRemark b => ModalState t s g x d p c tp so b pw
  | EdPassword v => ModalState t s g x d p c tp so ar (JStr v)
  end.

(** The refresh button of the dialog (lines 1070-1080): the category
    cache is refreshed; the dialog's own fields stay as they are. *)
Definition modal_refresh : M unit := refreshSortOptions.

Lemma truthy_nullish_or v d : js_truthy v = true -> js_nullish_or v d = v.
Proof. destruct v; try discriminate; reflexivity. Qed.

(** The fields of a direct publish with the draft flag replaced. *)
Definition with_draft (f : fields) (b : bool) : fields :=
  Fields (f_title f) (f_excerpt f) (f_tags f) (f_sortId f) (f_authorUid f) (f_postDate f)
         (f_coverImage f) b (f_top f) (f_sortop f) (f_allowRemark f) (f_password f).

(** C32: Publishing from the dialog without editing any input sends the
    same article as a direct publish of the note, except the draft flag:
    the dialog also honours [defaultDraft], which a direct publish ignores. *)
Theorem modal_unchanged_fields st raw file fm :
  derive_fields st raw file false (modal_overrides (modal_init st raw file fm)) fm
  = let f := derive_fields st raw file false no_overrides fm in
    with_draft f (f_draft f || defaultDraft st).
Proof.
  unfold derive_fields, modal_overrides, modal_init, with_draft, yn. cbn -[deriveTitle deriveExcerpt].
  f_equal; try reflexivity.
  - destruct (js_truthy _); reflexivity.
  - destruct (js_eq_str _ _), (js_eq_bool _ _); reflexivity.
  - unfold js_or. destruct (js_truthy (get_prop fm "password")) eqn:E; [|reflexivity].
    rewrite E. symmetry. apply truthy_nullish_or, E.
Qed.

(** C18: Emptying the cover image or the password in the dialog does not
    remove them: the publish button passes an empty input as [undefined],
    and [publishCore] then falls back to the note's front matter, so a
    note whose header has a cover image and a password is published with
    both, whatever else was edited. *)
Theorem dialog_cleared_fields_return st raw file fm m :
  js_truthy (get_prop fm "cover_image") = true ->
  js_truthy (get_prop fm "password") = true ->
  let f := derive_fields st raw file false
             (modal_overrides (apply_modal_edit (EdPassword []) (apply_modal_edit (EdCover []) m))) fm in
  f_coverImage f = get_prop fm "cover_image" /\ f_password f = get_prop fm "password".
Proof.
  intros Hc Hp. destruct m. cbn -[deriveTitle deriveExcerpt]. split.
  - unfold js_or. rewrite Hc. cbv iota. rewrite Hc. reflexivity.
  - apply truthy_nullish_or, Hp.
Qed.

Lemma dialog_cleared_fields_return_witness :
  let fm := JObj [("cover_image", JStr "cover.png"); ("password", JStr "secret")] in
  js_truthy (get_prop fm "cover_image") = true /\ js_truthy (get_prop fm "password") = true /\
  let m := modal_init DEFAULT_SETTINGS "body" (mk_tfile "notes/a.md") fm in
  let f := derive_fields DEFAULT_SETTINGS "body" (mk_tfile "notes/a.md") false
             (modal_overrides (apply_modal_edit (EdPassword []) (apply_modal_edit (EdCover []) m))) fm in
  f_coverImage f = get_prop fm "cover_image" /\ f_password f = get_prop fm "password".
Proof.
  cbv zeta. split; [reflexivity|]. split; [reflexivity|].
  exact (dialog_cleared_fields_return DEFAULT_SETTINGS "body" (mk_tfile "notes/a.md")
           (JObj [("cover_image", JStr "cover.png"); ("password", JStr "secret")])
           (modal_init DEFAULT_SETTINGS "body" (mk_tfile "notes/a.md")
              (JObj [("cover_image", JStr "cover.png"); ("password", JStr "secret")]))
           eq_refl eq_refl).
Defined.
