(* ===== verification/Plugin.v ===== *)
(** * The plugin's handlers in its host: start-up, the active leaf,
    commands, menus and the side panel (main.ts 63-126, 194-203, 408-479,
    973-1011)

    [onload] loads the saved state and shows "ready"; afterwards the plugin
    only reacts to the host: the active leaf changes, a command runs, an
    item of the editor or file menu is clicked, a button of the side panel
    is pressed.  Each reaction is a definition composed from the operations
    of the other files.  What the host shows the handler (the active
    Markdown view, its editor, the open Markdown leaves, whether a right
    leaf can be opened) is the record [ui] given with the call.  The events
    and the step relation over them are in Lifecycle.v.

    Not modelled: the panel's log line carries [toLocaleTimeString()], a
    host- and locale-dependent clock text, so [panel_click] returns the
    messages it logs without it; opening the settings window and revealing
    a leaf are host UI and leave the world as it is. *)

From stdpp Require Import gmap.
From S2P Require Import Prelude JsString Regex RegexParse JsValue Escape Frontmatter World Http Metadata Images Persist Publish Pipeline Settings Modal.

Open Scope js_scope.
Open Scope plugin_scope.

(** ** What the host shows a handler *)

(** An [Editor], as far as the code reads it: its text and its selection. *)
Record editor := Editor { ed_value : jstr; ed_selection : jstr }.

(** A [MarkdownView]: its file and its editor, each possibly missing. *)
Record md_view := MdView { mv_file : option tfile; mv_editor : option editor }.

(** The view of a workspace leaf. *)
Inductive leaf_view := LeafMarkdown (v : md_view) | LeafOther.

Record ui := UI {
  ui_active : option md_view;   (** [workspace.getActiveViewOfType(MarkdownView)] *)
  ui_leaves : list md_view;     (** the views of [getLeavesOfType('markdown')] *)
  ui_right_leaf : bool;         (** [getRightLeaf(false) || getRightLeaf(true)] exists *)
}.

Definition active_file (u : ui) : option tfile := match ui_active u with Some v => mv_file v | None => None end.
Definition active_editor (u : ui) : option editor := match ui_active u with Some v => mv_editor v | None => None end.

(** [editor ? editor.getValue() : await vault.cachedRead(file)]. *)
Definition note_text (ed : option editor) (file : tfile) : M jstr :=
  match ed with Some e => ret (ed_value e) | None => vault_read file end.

(** ** Start-up and the active leaf *)

(** [onload()] (lines 63-67): the registrations that follow only make the
    handlers below reachable. *)
Definition onload : M unit := do _ <- loadSettings ; setStatus "就绪".

(** The [active-leaf-change] handler (lines 69-74). *)
Definition on_active_leaf_change (leaf : option leaf_view) : M unit :=
  match leaf with
  | Some (LeafMarkdown v) =>
    match mv_file v with Some f => modify (set_lastMarkdown (Some f)) | None => ret tt end
  | _ => ret tt
  end.

(** ** Commands *)

(** [getActiveMarkdown()] (lines 194-203). *)
Definition getActiveMarkdown (u : ui) : M (option (option editor * tfile)) :=
  match ui_active u with
  | Some (MdView (Some f) ed) => ret (Some (ed, f))
  | _ =>
    do last <- gets w_lastMarkdown ;
    match last with
    | Some f => ret (Some (None, f))
    | None => do _ <- notice "未找到活动的 Markdown 窗口" ; ret None
    end
  end.

(** [publishCurrentNote(asDraft)] (lines 414-420). *)
Definition publishCurrentNote (u : ui) (asDraft : bool) : M unit :=
  do ctx <- getActiveMarkdown u ;
  match ctx with
  | None => ret tt
  | Some (ed, file) => do content <- note_text ed file ; publishCore file content asDraft no_overrides
  end.

(** The selected text [publishNote()] finds (lines 424-448): the active
    editor's selection, else the selection of the open leaf showing the
    last Markdown file. *)
Definition note_selection (u : ui) (last : option tfile) : jstr :=
  let t1 := match active_editor u with Some e => ed_selection e | None => [] end in
  if negb (bool_decide (t1 = [])) then t1
  else match last with
       | None => t1
       | Some lf =>
         match List.find (fun v => match mv_file v with
                                   | Some f => bool_decide (tf_path f = tf_path lf)
                                   | None => false
                                   end) (ui_leaves u) with
         | Some v => match mv_editor v with Some e => ed_selection e | None => t1 end
         | None => t1
         end
       end.

(** [publishNote()] (lines 422-466). *)
Definition publishNote_cmd (u : ui) : M unit :=
  do last <- gets w_lastMarkdown ; publishNote (note_selection u last).

(** [activatePanelView()] (lines 468-474). *)
Definition activatePanelView (u : ui) : M unit :=
  if ui_right_leaf u then ret tt else notice "无法打开右侧面板".

(** An open [PublishModal]: the file and editor it was constructed with
    (lines 1030-1035) and its fields. *)
Record dialog := Dialog { dl_file : tfile; dl_editor : option editor; dl_fields : modal_state }.

(** [openPublishModal(file, editor)] (lines 476-479): the dialog that
    opens, if there is a file. *)
Definition openPublishModal (file : option tfile) (ed : option editor) : M (option dialog) :=
  match file with
  | None => do _ <- notice "未找到要发布的 Markdown 文件" ; ret None
  | Some f => do m <- modal_open f (option_map ed_value ed) ; ret (Some (Dialog f ed m))
  end.

Inductive command := CmdOpenPanel | CmdPublishCurrent | CmdPublishDraft | CmdPublishNote | CmdPublishCustom.

(** The callbacks of [addCommand] and of the ribbon icon (lines 80-94),
    with the dialog the last one opens. *)
Definition run_command (u : ui) (c : command) : M (option dialog) :=
  match c with
  | CmdOpenPanel => do _ <- activatePanelView u ; ret None
  | CmdPublishCurrent => do _ <- publishCurrentNote u false ; ret None
  | CmdPublishDraft => do _ <- publishCurrentNote u true ; ret None
  | CmdPublishNote => do _ <- publishNote_cmd u ; ret None
  | CmdPublishCustom =>
    do last <- gets w_lastMarkdown ;
    match (match active_file u with Some f => Some f | None => last end) with
    | None => do _ <- notice "未检测到 Markdown 文件" ; ret None
    | Some f => do _ <- notice "打开自定义发布窗口…" ; openPublishModal (Some f) (active_editor u)
    end
  end.

(** ** Menus *)

(** [publishFromContext(editor, view, asDraft)] (lines 408-412). *)
Definition publishFromContext (ed : option editor) (v : md_view) (asDraft : bool) : M unit :=
  match mv_file v with
  | None => notice "未检测到 Markdown 文件"
  | Some file => do content <- note_text ed file ; publishCore file content asDraft no_overrides
  end.

Inductive editor_item := EdPublish | EdPublishDraft | EdCustom | EdNote.

(** The items of the editor menu (lines 97-113); the menu has none when
    the view has no file. *)
Definition editor_menu (v : md_view) (ed : editor) (i : editor_item) : M (option dialog) :=
  match mv_file v with
  | None => ret None
  | Some file =>
    match i with
    | EdPublish => do _ <- publishFromContext (Some ed) v false ; ret None
    | EdPublishDraft => do _ <- publishFromContext (Some ed) v true ; ret None
    | EdCustom => openPublishModal (Some file) None
    | EdNote =>
      let text := ed_selection ed in
      do _ <- (if bool_decide (text = []) then notice "请选择要发布为微语的文本"
               else catch (do _ <- httpForm "note_post" [("t", text)] ; notice "微语发布成功")
                          (fun e => notice ("微语发布失败：" ++ e))) ;
      ret None
    end
  end.

Inductive file_item := FPublish | FPublishDraft | FCustom.

(** The items of the file menu (lines 116-126), for Markdown files only. *)
Definition file_menu (file : tfile) (i : file_item) : M (option dialog) :=
  if negb (bool_decide (tf_extension file = "md")) then ret None
  else match i with
       | FPublish => do content <- vault_read file ; do _ <- publishCore file content false no_overrides ; ret None
       | FPublishDraft => do content <- vault_read file ; do _ <- publishCore file content true no_overrides ; ret None
       | FCustom => openPublishModal (Some file) None
       end.

(** ** The side panel *)

Inductive panel_button := BtnPublish | BtnDraft | BtnNote | BtnRefresh | BtnSettings | BtnCustom.

(** The [onclick] handlers of [EmlogPanelView] (lines 998-1003), with the
    messages they log, in order, and the dialog the last one opens. *)
Definition panel_click (u : ui) (b : panel_button) : M (list jstr * option dialog) :=
  match b with
  | BtnPublish => do _ <- publishCurrentNote u false ; ret (["发布中..."], None)
  | BtnDraft => do _ <- publishCurrentNote u true ; ret (["草稿发布中..."], None)
  | BtnNote => do _ <- publishNote_cmd u ; ret (["发布微语中..."], None)
  | BtnRefresh => do _ <- refreshSortOptions ; ret (["刷新分类中..."; "分类已刷新"], None)
  | BtnSettings => ret ([], None)
  | BtnCustom =>
    do last <- gets w_lastMarkdown ;
    do d <- openPublishModal (match active_file u with Some f => Some f | None => last end) None ;
    ret ([], d)
  end.

(** ** The entry points of a publish *)

(** C15: For the note of the active Markdown view, the editor menu's
    publish items do what the commands "publish the current note" and
    "publish as draft" do (both read the editor's text), and, when the view
    has no editor, the file menu's items do the same (both read the vault);
    for every world, the same requests, notices, map and saved data. *)
Theorem publish_entry_points_agree u v f (asDraft : bool) w :
  ui_active u = Some v -> mv_file v = Some f ->
  (forall ed, mv_editor v = Some ed ->
     editor_menu v ed (if asDraft then EdPublishDraft else EdPublish) w =
     run_command u (if asDraft then CmdPublishDraft else CmdPublishCurrent) w) /\
  (mv_editor v = None -> tf_extension f = "md" ->
     file_menu f (if asDraft then FPublishDraft else FPublish) w =
     run_command u (if asDraft then CmdPublishDraft else CmdPublishCurrent) w).
Proof.
  intros Hu Hf. destruct v as [fv edv]; cbn in Hf; subst fv.
  unfold run_command, publishCurrentNote, getActiveMarkdown. rewrite Hu. split.
  - intros ed He. cbn in He. subst edv. destruct asDraft; reflexivity.
  - intros He Hmd. cbn in He. subst edv. unfold file_menu. rewrite Hmd, bool_decide_true by reflexivity.
    cbn [negb]. destruct asDraft; rewrite bind_assoc, bind_ret; cbv beta iota; rewrite bind_assoc; reflexivity.
Qed.

Lemma publish_entry_points_agree_witness :
  let f := mk_tfile "notes/a.md" in
  let v := MdView (Some f) None in
  let u := UI (Some v) [] true in
  let w := init_world DEFAULT_SETTINGS [("notes/a.md", "# Saved")] [] [] in
  ui_active u = Some v /\ mv_file v = Some f /\
  ((forall ed, mv_editor v = Some ed ->
      editor_menu v ed EdPublish w = run_command u CmdPublishCurrent w) /\
   (mv_editor v = None -> tf_extension f = "md" ->
      file_menu f FPublish w = run_command u CmdPublishCurrent w)).
Proof.
  cbv zeta. split; [reflexivity|]. split; [reflexivity|].
  exact (publish_entry_points_agree (UI (Some (MdView (Some (mk_tfile "notes/a.md")) None)) [] true)
           (MdView (Some (mk_tfile "notes/a.md")) None) (mk_tfile "notes/a.md") false
           (init_world DEFAULT_SETTINGS [("notes/a.md", "# Saved")] [] []) eq_refl eq_refl).
Defined.

(** ** Where the custom-publish dialog takes the note's text from *)

(** C17: The dialog opened by the command "custom publish" for the active
    Markdown view is bound to that view's editor and fills its inputs from
    the editor's text; the dialog opened from the file menu has no editor
    and fills them from the vault's copy of the note.  Both take the front
    matter from the metadata cache and the settings as they are. *)
Theorem custom_dialog_sources u w f e text :
  active_file u = Some f -> active_editor u = Some e ->
  tf_extension f = "md" -> file_content (tf_path f) w = Some text ->
  let fm := frontmatter_of (file_cache f w) in
  fst (run_command u CmdPublishCustom w) = Ok (Some (Dialog f (Some e) (modal_init (w_settings w) (ed_value e) f fm))) /\
  fst (file_menu f FCustom w) = Ok (Some (Dialog f None (modal_init (w_settings w) text f fm))).
Proof.
  unfold active_file, active_editor. intros Hf He Hmd Ht. cbv zeta.
  destruct u as [[[[f'|] ed']|] l r]; cbn in Hf, He; try discriminate.
  injection Hf as <-. subst ed'. split; [reflexivity|].
  unfold file_menu. rewrite Hmd, bool_decide_true by reflexivity. cbn [negb].
  unfold openPublishModal, modal_open, bind, vault_read. cbn -[file_content file_cache]. rewrite Ht. reflexivity.
Qed.

Lemma custom_dialog_sources_witness :
  let f := mk_tfile "notes/a.md" in
  let e := Editor "# Draft in the editor" [] in
  let u := UI (Some (MdView (Some f) (Some e))) [] true in
  let w := init_world DEFAULT_SETTINGS [("notes/a.md", "# Saved")] [] [] in
  active_file u = Some f /\ active_editor u = Some e /\ tf_extension f = "md" /\
  file_content (tf_path f) w = Some "# Saved" /\
  (fst (run_command u CmdPublishCustom w) =
     Ok (Some (Dialog f (Some e) (modal_init (w_settings w) (ed_value e) f (frontmatter_of (file_cache f w))))) /\
   fst (file_menu f FCustom w) =
     Ok (Some (Dialog f None (modal_init (w_settings w) "# Saved" f (frontmatter_of (file_cache f w)))))).
Proof.
  cbv zeta. split; [reflexivity|]. split; [reflexivity|]. split; [reflexivity|]. split; [reflexivity|].
  exact (custom_dialog_sources (UI (Some (MdView (Some (mk_tfile "notes/a.md")) (Some (Editor "# Draft in the editor" [])))) [] true)
           (init_world DEFAULT_SETTINGS [("notes/a.md", "# Saved")] [] []) (mk_tfile "notes/a.md")
           (Editor "# Draft in the editor" []) "# Saved" eq_refl eq_refl eq_refl eq_refl).
Defined.
