(* ===== verification/Lifecycle.v ===== *)
(** * The plugin as a state machine: host events, the step relation, the
    states it reaches and what holds in all of them

    Every reaction of the plugin to its host is a constructor of [event]
    and [handle] its handler (Plugin.v, Settings.v, Modal.v).
    [plugin_step] relates the world before and after one event, and
    [reachable] closes it from [onload] on data the plugin itself saved (or
    none) on storage that accepts the plugin's writes.  [run_events] runs
    a list of events in order, the executable
    form of a run.  By rule induction every reachable state has well-typed
    settings, saved data that a restart loads back as the current settings
    and identifier map, only truthy ids in the map, and a final status on
    the status bar. *)

From stdpp Require Import gmap relations.
From S2P Require Import Prelude JsString Regex RegexParse JsValue Escape Frontmatter World Http Metadata Images Persist Publish Pipeline Settings Modal Plugin.

Open Scope js_scope.
Open Scope plugin_scope.

(** ** The step relation *)

Inductive event :=
| EvLeafChange (leaf : option leaf_view)
| EvCommand (u : ui) (c : command)
| EvEditorMenu (v : md_view) (ed : editor) (i : editor_item)
| EvFileMenu (f : tfile) (i : file_item)
| EvPanel (u : ui) (b : panel_button)
| EvSetting (e : setting_edit)
| EvSettingsOpen
| EvSortRefresh
| EvModalPublish (f : tfile) (ed : option editor) (m : modal_state)
| EvModalRefresh.

(** The handler of each event, with the dialog it opens, if any. *)
Definition handle (ev : event) : M (option dialog) :=
  match ev with
  | EvLeafChange leaf => do _ <- on_active_leaf_change leaf ; ret None
  | EvCommand u c => run_command u c
  | EvEditorMenu v ed i => editor_menu v ed i
  | EvFileMenu f i => file_menu f i
  | EvPanel u b => do r <- panel_click u b ; ret (snd r)
  | EvSetting e => do _ <- apply_edit e ; ret None
  | EvSettingsOpen => do _ <- display_refresh ; ret None
  | EvSortRefresh => do _ <- refresh_button ; ret None
  | EvModalPublish f ed m => do _ <- modal_publish f (option_map ed_value ed) m ; ret None
  | EvModalRefresh => do _ <- modal_refresh ; ret None
  end.

Inductive plugin_step : world -> world -> Prop :=
| step_event ev w : plugin_step w (snd (handle ev w)).

(** A run of events in order.  A handler that throws ends its own
    reaction, not the plugin: the next event starts from the world it
    left. *)
Fixpoint run_events (evs : list event) (w : world) : world :=
  match evs with
  | [] => w
  | ev :: evs => run_events evs (snd (handle ev w))
  end.

(** The Markdown file an event makes the last one ([lastMarkdownFile]),
    and the last such file of a run, starting from [cur]. *)
Definition leaf_file (ev : event) : option tfile :=
  match ev with
  | EvLeafChange (Some (LeafMarkdown v)) => mv_file v
  | _ => None
  end.

Definition last_markdown (evs : list event) (cur : option tfile) : option tfile :=
  foldl (fun cur ev => match leaf_file ev with Some f => Some f | None => cur end) cur evs.

(** The start: storage that takes the plugin's writes, and saved data
    that is none or what [saveState] wrote. *)
Definition saved_by_plugin (w0 : world) : Prop :=
  w_disk w0 = None /\
  (w_saved w0 = None \/
   exists st am, w_saved w0 = Some (state_json (PluginState st am)) /\ settings_wf st /\
                 map_Forall (fun _ v => js_truthy v = true) am).

Definition reachable (w : world) : Prop :=
  exists w0, saved_by_plugin w0 /\ rtc plugin_step (snd (onload w0)) w.

(** ** The invariant *)

Definition final_statuses : list jstr :=
  map (fun t => "EMLOG: " ++ t) ["就绪"; "更新成功"; "发布成功"; "失败"; "微语已发布"].

(** What a restart would load is the current state: the saved data is in
    step, or nothing was saved and the settings and map are the defaults;
    and the storage takes the writes. *)
Definition saved_data_ok (w : world) : Prop :=
  saved_in_sync w \/ (w_saved w = None /\ w_settings w = DEFAULT_SETTINGS /\ w_articleMap w = ∅).

Definition saved_ok (w : world) : Prop := w_disk w = None /\ saved_data_ok w.

Definition plugin_inv (w : world) : Prop :=
  settings_wf (w_settings w) /\
  map_Forall (fun _ v => js_truthy v = true) (w_articleMap w) /\
  saved_ok w /\
  w_status w ∈ final_statuses.

(** ** The invariant is kept by every handler *)


(** The part of the world the invariant reads. *)
Definition inv_proj (w : world) := (persisted w, w_status w).

Lemma inv_same {A} (m : M A) : stable (same_on inv_proj) m -> stable (keeps plugin_inv) m.
Proof.
  intros Hm w Hinv. specialize (Hm w). unfold same_on, inv_proj, persisted in Hm.
  injection Hm as Hs Hst Hm Hd Hstat. unfold plugin_inv, saved_ok, saved_data_ok, saved_in_sync in *.
  rewrite Hs, Hst, Hm, Hd, Hstat. exact Hinv.
Qed.

Lemma final_status_in t : t ∈ ["就绪"; "更新成功"; "发布成功"; "失败"; "微语已发布"] -> ("EMLOG: " ++ t) ∈ final_statuses.
Proof. intros H. exact (list_elem_of_fmap_2 (fun t => "EMLOG: " ++ t) _ _ H). Qed.

Lemma saved_data_ok_same w w' : persisted w' = persisted w -> saved_data_ok w -> saved_data_ok w'.
Proof.
  intros E [Hs|(Hn & Hst & Hm)]; [left; exact (saved_in_sync_same w w' E Hs)|right].
  unfold persisted in E. injection E as -> -> -> _. auto.
Qed.

Lemma publishCore_inv file c d ov : stable (keeps plugin_inv) (publishCore file c d ov).
Proof.
  intros w (Hwf & Hmap & Hsaved & Hstat). split; [|split; [|split]].
  - rewrite publishCore_settings. exact Hwf.
  - destruct (publishCore_ins file c d ov w) as [->|(v & Hv & ->)]; [exact Hmap|].
    apply map_Forall_insert_2; assumption.
  - destruct Hsaved as [Hd Hsaved]. split; [rewrite (publishCore_disk file c d ov w); exact Hd|].
    apply (publishCore_keeps saved_data_ok); [exact saved_data_ok_same|intros w1 H; left; exact H|exact Hd|exact Hsaved].
  - destruct (publishCore_status file c d ov w) as [ -> | [ -> | -> ] ]; apply final_status_in; decide_in.
Qed.

Lemma publishNote_persisted text : stable (same_on persisted) (publishNote text).
Proof. unfold publishNote, notice, setStatus. stable_auto. Qed.

Lemma publishNote_inv text : stable (keeps plugin_inv) (publishNote text).
Proof.
  intros w (Hwf & Hmap & Hsaved & Hstat). pose proof (publishNote_persisted text w) as Hp.
  unfold same_on, persisted in Hp. injection Hp as H1 H2 H3 H4.
  unfold plugin_inv, saved_ok, saved_data_ok, saved_in_sync in *. rewrite H1, H2, H3, H4.
  split; [exact Hwf|]. split; [exact Hmap|]. split; [exact Hsaved|].
  destruct (publishNote_status text w) as [ -> | [ -> | -> ] ]; [exact Hstat|apply final_status_in; decide_in..].
Qed.

Lemma apply_edit_inv e : stable (keeps plugin_inv) (apply_edit e).
Proof.
  intros w (Hwf & Hmap & (Hd & Hsaved) & Hstat).
  assert (Hm : stable (same_on (fun w => (w_articleMap w, w_status w, w_disk w))) (apply_edit e))
    by (unfold apply_edit, saveSettings, saveState, saveData; destruct e; stable_auto).
  specialize (Hm w). injection Hm as Hm Hs Hd'.
  destruct (apply_edit_wf e w Hwf) as (Hwf' & Hok). destruct (Hok Hd) as (_ & [Hw|Hsync]).
  - rewrite Hw. exact (conj Hwf (conj Hmap (conj (conj Hd Hsaved) Hstat))).
  - unfold plugin_inv, saved_ok. rewrite Hm, Hs, Hd'.
    exact (conj Hwf' (conj Hmap (conj (conj Hd (or_introl Hsync)) Hstat))).
Qed.

Lemma notice_inv_proj msg : stable (same_on inv_proj) (notice msg).
Proof. intros w. reflexivity. Qed.

Lemma modal_open_inv_proj f ed : stable (same_on inv_proj) (modal_open f ed).
Proof. unfold modal_open, getFileCache. destruct ed; stable_auto. Qed.

Lemma refreshSortOptions_inv_proj : stable (same_on inv_proj) refreshSortOptions.
Proof. unfold refreshSortOptions, notice. stable_auto. Qed.

#[local] Hint Resolve notice_inv_proj modal_open_inv_proj refreshSortOptions_inv_proj : stable.

(** Decompose a handler against a relation [R]: [core], [note] and [edit]
    are [R]'s lemmas for the steps that change the persisted data or the
    status ([publishCore], [publishNote], [apply_edit]); every other step
    leaves [inv_proj] alone, and [same] turns that into [R]. *)
Ltac handler_auto fallback core note edit :=
  repeat match goal with
  | |- stable _ (bind _ _) => apply stable_bind; [typeclasses eauto| |intro]
  | |- stable _ (publishCore _ _ _ _) => apply core
  | |- stable _ (publishNote _) => apply note
  | |- stable _ (apply_edit _) => apply edit
  | |- stable _ (catch _ _) => apply stable_catch; [typeclasses eauto| |intro]
  | |- stable _ (match ?x with _ => _ end) => destruct x eqn:?
  | |- stable _ (if ?b then _ else _) => destruct b eqn:?
  | |- stable _ _ =>
    fallback;
    unfold notice, setStatus, note_text, modal_open, openPublishModal, getFileCache,
      refreshSortOptions, modal_refresh, refresh_button, display_refresh, activatePanelView;
    stable_auto
  end.

(** Unfold [handle] into the handlers it dispatches to. *)
Ltac unfold_handled :=
  cbn [handle];
  unfold on_active_leaf_change, run_command, editor_menu, file_menu, panel_click,
    publishCurrentNote, getActiveMarkdown, publishNote_cmd, publishFromContext, modal_publish.
Ltac unfold_handle ev := destruct ev; unfold_handled.

Lemma handle_inv ev : stable (keeps plugin_inv) (handle ev).
Proof. unfold_handle ev; handler_auto ltac:(apply inv_same) publishCore_inv publishNote_inv apply_edit_inv. Qed.

(** ** The settings no handler writes *)

Definition fixed_proj (w : world) := fixed_settings (w_settings w).

Lemma fixed_same {A} (m : M A) : stable (same_on inv_proj) m -> stable (same_on fixed_proj) m.
Proof.
  intros Hm w. specialize (Hm w). unfold same_on, inv_proj, persisted, fixed_proj in *.
  injection Hm as _ Hst _ _ _. rewrite Hst. reflexivity.
Qed.

Lemma publishCore_fixed file c d ov : stable (same_on fixed_proj) (publishCore file c d ov).
Proof. intros w. unfold same_on, fixed_proj. rewrite publishCore_settings. reflexivity. Qed.

Lemma publishNote_fixed text : stable (same_on fixed_proj) (publishNote text).
Proof.
  intros w. pose proof (publishNote_persisted text w) as Hp. unfold same_on, persisted, fixed_proj in *.
  injection Hp as _ Hst _ _. rewrite Hst. reflexivity.
Qed.

Lemma handle_fixed ev : stable (same_on fixed_proj) (handle ev).
Proof. unfold_handle ev; handler_auto ltac:(apply fixed_same) publishCore_fixed publishNote_fixed apply_edit_fixed. Qed.

(** ** The last Markdown file *)

Lemma publishNote_lastMarkdown text : stable (same_on w_lastMarkdown) (publishNote text).
Proof. unfold publishNote, notice, setStatus. stable_auto. Qed.

Lemma apply_edit_lastMarkdown e : stable (same_on w_lastMarkdown) (apply_edit e).
Proof. unfold apply_edit, saveSettings, saveState, saveData. destruct e; stable_auto. Qed.

(** Only a leaf change to a Markdown view with a file moves
    [lastMarkdownFile]; every other handler leaves it alone. *)
Lemma handle_lastMarkdown ev w :
  w_lastMarkdown (snd (handle ev w)) = match leaf_file ev with Some f => Some f | None => w_lastMarkdown w end.
Proof.
  destruct ev as [[[[[f|] ed]|]|]|u c|v ed i|f i|u b|e| | |f ed m|]; try reflexivity;
  match goal with |- w_lastMarkdown (snd (handle ?ev w)) = _ =>
    assert (H : stable (same_on w_lastMarkdown) (handle ev)); [|exact (H w)] end;
  unfold_handled;
  handler_auto idtac publishCore_lastMarkdown publishNote_lastMarkdown apply_edit_lastMarkdown.
Qed.

(** ** Reachable states *)

(** [onload] on data the plugin saved establishes the invariant. *)
Lemma onload_inv w0 : saved_by_plugin w0 -> plugin_inv (snd (onload w0)).
Proof.
  unfold onload, loadSettings, bind, gets. intros (Hd & [Hn|(st & am & Hs & Hwf & Hm)]).
  - rewrite Hn. cbn. split; [exact DEFAULT_SETTINGS_wf|]. split; [apply map_Forall_empty|].
    split; [split; [exact Hd|right; auto]|apply final_status_in; decide_in].
  - rewrite Hs. cbv beta iota. cbn [default id]. rewrite load_state_json. cbn.
    split; [exact Hwf|]. split; [exact Hm|].
    split; [split; [exact Hd|left; unfold saved_in_sync; cbn; exact Hs]|].
    apply final_status_in; decide_in.
Qed.

(** The invariant holds along every run of events (rule induction). *)
Lemma steps_inv w w' : rtc plugin_step w w' -> plugin_inv w -> plugin_inv w'.
Proof.
  induction 1 as [w|w1 w2 w3 Hstep _ IH]; intros Hw; [exact Hw|].
  apply IH. inversion Hstep; subst. apply handle_inv, Hw.
Qed.

Lemma reachable_inv w : reachable w -> plugin_inv w.
Proof. intros (w0 & Hs & Hr). exact (steps_inv _ _ Hr (onload_inv w0 Hs)). Qed.

(** A restart on the saved data of a state that satisfies [saved_ok]. *)
Lemma loadSettings_saved_ok w : saved_ok w ->
  fst (loadSettings w) = Ok tt /\ w_settings (snd (loadSettings w)) = w_settings w /\
  w_articleMap (snd (loadSettings w)) = w_articleMap w.
Proof.
  unfold loadSettings, bind, gets. intros (_ & [Hs|(Hn & Hst & Hm)]).
  - unfold saved_in_sync in Hs. rewrite Hs. cbv beta iota. cbn [default id].
    rewrite load_state_json. repeat split.
  - rewrite Hn, Hst, Hm. repeat split.
Qed.

(** ** Runs of events *)

Lemma run_events_rtc evs : forall w, rtc plugin_step w (run_events evs w).
Proof.
  induction evs as [|ev evs IH]; intros w; [reflexivity|].
  eapply rtc_l; [apply (step_event ev)|apply IH].
Qed.

Lemma rtc_run_events w w' : rtc plugin_step w w' -> exists evs, run_events evs w = w'.
Proof.
  induction 1 as [w|w1 w2 w3 Hstep _ IH]; [exists []; reflexivity|].
  destruct IH as (evs & Hevs). inversion Hstep as [ev w0 E1 E2].
  exists (ev :: evs). cbn [run_events]. subst w0. rewrite E2. exact Hevs.
Qed.

Lemma run_lastMarkdown evs : forall w, w_lastMarkdown (run_events evs w) = last_markdown evs (w_lastMarkdown w).
Proof.
  induction evs as [|ev evs IH]; intros w; [reflexivity|].
  cbn [run_events]. rewrite IH, handle_lastMarkdown. reflexivity.
Qed.

(** Without an active Markdown view, [getActiveMarkdown] falls back to
    [lastMarkdownFile], or reports that there is none. *)
Lemma getActiveMarkdown_fallback u w : active_file u = None ->
  getActiveMarkdown u w =
  match w_lastMarkdown w with
  | Some f => (Ok (Some (None, f)), w)
  | None => (Ok None, add_notice "未找到活动的 Markdown 窗口" w)
  end.
Proof.
  unfold active_file, getActiveMarkdown. destruct (ui_active u) as [[[f|] ed]|]; intros H;
    [discriminate| |]; unfold bind, gets; cbn; destruct (w_lastMarkdown w); reflexivity.
Qed.

(** ** Properties of every reachable state *)

(** C2: In every state the plugin reaches, the settings are well typed
    (an auth mode among the dropdown's options, a post action the code
    knows, a trimmed site address) and every id of the identifier map is
    truthy. *)
Theorem reachable_well_typed w :
  reachable w ->
  settings_wf (w_settings w) /\ map_Forall (fun _ v => js_truthy v = true) (w_articleMap w).
Proof. intros Hr. destruct (reachable_inv w Hr) as (H1 & H2 & _). auto. Qed.

(** C1: In every state the plugin reaches, a restart loads back exactly
    the current settings and identifier map: every change of either is
    saved before the handler returns (reachable states start on storage
    that takes the writes; Pipeline.v shows what a rejected write does). *)
Theorem reachable_restart w :
  reachable w ->
  fst (loadSettings w) = Ok tt /\ w_settings (snd (loadSettings w)) = w_settings w /\
  w_articleMap (snd (loadSettings w)) = w_articleMap w.
Proof. intros Hr. apply loadSettings_saved_ok, (reachable_inv w Hr). Qed.

(** C3: Every progress status a handler shows is resolved before the
    handler returns: in every state the plugin reaches the status bar shows
    a final status (ready, updated, published, failed or note published),
    never "uploading images...", "publishing..." or the like. *)
Theorem reachable_status_final w : reachable w -> w_status w ∈ final_statuses.
Proof. intros Hr. apply (reachable_inv w Hr). Qed.

(** C12: No handler of the plugin writes the default draft flag, the
    auto-cover flag, the comment default, the post action or the debug
    flag: along every run of events they keep the values of the first
    state, so after start-up they are the values [loadSettings] read. *)
Theorem run_keeps_fixed_settings w w' :
  rtc plugin_step w w' -> fixed_settings (w_settings w') = fixed_settings (w_settings w).
Proof.
  induction 1 as [w|w1 w2 w3 Hstep _ IH]; [reflexivity|].
  rewrite IH. inversion Hstep; subst. apply handle_fixed.
Qed.

(** The step relation and the executable runs agree: a state is
    reached from another by steps exactly when some list of events, run
    in order by [run_events], leads from one to the other. *)
Theorem plugin_steps_run w w' : rtc plugin_step w w' <-> exists evs, run_events evs w = w'.
Proof. split; [apply rtc_run_events|intros (evs & <-); apply run_events_rtc]. Qed.

(** C16: After any run of events, the command "publish the current note"
    without an active Markdown view publishes the file of the last leaf
    change to a Markdown view with a file (read from the vault), whatever
    came after it; when there was none in the run, the file that was last
    before it; and when there is no such file at all, it only shows the
    notice that no Markdown window was found and sends nothing. *)
Theorem publishCurrent_after_run evs w u asDraft :
  active_file u = None ->
  let w' := run_events evs w in
  publishCurrentNote u asDraft w' =
  match last_markdown evs (w_lastMarkdown w) with
  | Some f => (do content <- vault_read f ; publishCore f content asDraft no_overrides) w'
  | None => (Ok tt, add_notice "未找到活动的 Markdown 窗口" w')
  end.
Proof.
  intros Hu. cbv zeta. unfold publishCurrentNote, bind at 1.
  rewrite (getActiveMarkdown_fallback u _ Hu), run_lastMarkdown.
  destruct (last_markdown evs (w_lastMarkdown w)); reflexivity.
Qed.

(** ** Witnesses *)

Definition start_world : world := init_world DEFAULT_SETTINGS [] [] [].

(** The state after start-up and one edit of the site address. *)
Definition edited_world : world :=
  snd (handle (EvSetting (SetBaseUrl " https://blog.example ")) (snd (onload start_world))).

Lemma edited_world_reachable : reachable edited_world.
Proof. exists start_world. split; [split; [reflexivity|left; reflexivity]|]. apply rtc_once. constructor. Qed.

Lemma reachable_well_typed_witness :
  reachable edited_world /\
  (settings_wf (w_settings edited_world) /\
   map_Forall (fun _ v => js_truthy v = true) (w_articleMap edited_world)).
Proof. split; [exact edited_world_reachable|exact (reachable_well_typed _ edited_world_reachable)]. Defined.

Lemma reachable_restart_witness :
  reachable edited_world /\
  (fst (loadSettings edited_world) = Ok tt /\
   w_settings (snd (loadSettings edited_world)) = w_settings edited_world /\
   w_articleMap (snd (loadSettings edited_world)) = w_articleMap edited_world).
Proof. split; [exact edited_world_reachable|exact (reachable_restart _ edited_world_reachable)]. Defined.

Lemma reachable_status_final_witness :
  reachable edited_world /\ w_status edited_world ∈ final_statuses.
Proof. split; [exact edited_world_reachable|exact (reachable_status_final _ edited_world_reachable)]. Defined.

Lemma run_keeps_fixed_settings_witness :
  rtc plugin_step (snd (onload start_world)) edited_world /\
  fixed_settings (w_settings edited_world) = fixed_settings (w_settings (snd (onload start_world))).
Proof.
  refine ((fun Hr => conj Hr (run_keeps_fixed_settings _ _ Hr)) _).
  apply rtc_once. constructor.
Defined.

(** A leaf change to [notes/a.md], then one to a view of another kind. *)
Definition switch_events : list event :=
  [EvLeafChange (Some (LeafMarkdown (MdView (Some (mk_tfile "notes/a.md")) None)));
   EvLeafChange (Some LeafOther)].

Lemma publishCurrent_after_run_witness :
  active_file (UI None [] true) = None /\
  publishCurrentNote (UI None [] true) false (run_events switch_events start_world) =
  (do content <- vault_read (mk_tfile "notes/a.md") ;
   publishCore (mk_tfile "notes/a.md") content false no_overrides) (run_events switch_events start_world).
Proof.
  split; [reflexivity|].
  exact (publishCurrent_after_run switch_events start_world (UI None [] true) false eq_refl).
Defined.
