(* ===== verification/Session.v ===== *)
(** * The plugin with its open dialogs: [PublishModal] instances as state

    Lifecycle.v treats a publish from the dialog as an event carrying any
    file, editor and fields.  Here the dialogs are state: a session is the
    world and the list of open dialogs.  A host event runs its handler and
    adds the dialog the handler opened ([openPublishModal], lines 476-479);
    a dialog event edits one dialog's fields, refreshes the categories,
    publishes (lines 1095-1111, closing the dialog when the publish
    returns) or closes it.  The editor a dialog was opened with is read
    again when its publish button is clicked; the text it then shows comes
    with the event.

    [dialog_session_publish] follows one dialog from the command that
    opens it, through an edit of its title, to its publish button: which
    dialog opens and with what, which one an edit changes, what the button
    publishes, and that the dialog closes afterwards. *)

From stdpp Require Import gmap.
From S2P Require Import Prelude JsString Regex RegexParse JsValue Escape Frontmatter World Http Metadata Images Persist Publish Pipeline Settings Modal Plugin Lifecycle.

Open Scope js_scope.
Open Scope plugin_scope.

Inductive dialog_event :=
| DlgEdit (e : modal_edit)     (** an input's [onChange] (lines 1057-1093) *)
| DlgRefresh                   (** the refresh button (lines 1070-1081) *)
| DlgPublish (text_now : jstr) (** the publish button; the editor's text at the click *)
| DlgClose.                    (** the dialog is dismissed *)

Record session := Session { ss_world : world; ss_dialogs : list dialog }.

Inductive session_event :=
| SHost (ev : event)
| SDialog (i : nat) (de : dialog_event).

(** The two events of [event] that only an open dialog produces. *)
Definition is_dialog_event (ev : event) : bool :=
  match ev with EvModalPublish _ _ _ | EvModalRefresh => true | _ => false end.

Definition set_fields (d : dialog) (m : modal_state) : dialog := Dialog (dl_file d) (dl_editor d) m.

(** The dialog's editor as the host shows it at the publish click. *)
Definition editor_now (d : dialog) (text_now : jstr) : option editor :=
  option_map (fun e => Editor text_now (ed_selection e)) (dl_editor d).

Definition opened (r : outcome (option dialog)) : list dialog :=
  match r with Ok (Some d) => [d] | _ => [] end.

Definition session_handle (se : session_event) (s : session) : session :=
  match se with
  | SHost ev =>
    if is_dialog_event ev then s
    else let r := handle ev (ss_world s) in Session (snd r) (ss_dialogs s ++ opened (fst r))
  | SDialog i de =>
    match ss_dialogs s !! i with
    | None => s
    | Some d =>
      match de with
      | DlgEdit e => Session (ss_world s) (<[i := set_fields d (apply_modal_edit e (dl_fields d))]> (ss_dialogs s))
      | DlgRefresh => Session (snd (handle EvModalRefresh (ss_world s))) (ss_dialogs s)
      | DlgPublish t =>
        let r := handle (EvModalPublish (dl_file d) (editor_now d t) (dl_fields d)) (ss_world s) in
        Session (snd r) (match fst r with Ok _ => delete i (ss_dialogs s) | Throw _ => ss_dialogs s end)
      | DlgClose => Session (ss_world s) (delete i (ss_dialogs s))
      end
    end
  end.

(** ** A custom publish through its dialog *)

(** C14: The command "custom publish" on an active Markdown view opens
    one dialog, bound to the view's file and editor, with its inputs
    filled from the editor's text, the cached front matter and the
    settings, and adds it after the dialogs already open.  An edit of its
    title input changes that dialog only.  Its publish button then
    publishes the file with the text the editor shows at the click, as a
    non-draft, with the dialog's fields as they were edited; and, since
    [publishCore] reports its failures itself and returns, the dialog is
    closed, leaving the other dialogs open. *)
Theorem dialog_session_publish s u f e title tnow :
  active_file u = Some f -> active_editor u = Some e ->
  let k := length (ss_dialogs s) in
  let s1 := session_handle (SHost (EvCommand u CmdPublishCustom)) s in
  let s2 := session_handle (SDialog k (DlgEdit (EdTitle title))) s1 in
  let s3 := session_handle (SDialog k (DlgPublish tnow)) s2 in
  let w1 := add_notice "打开自定义发布窗口…" (ss_world s) in
  let m := apply_modal_edit (EdTitle title)
             (modal_init (w_settings w1) (ed_value e) f (frontmatter_of (file_cache f w1))) in
  ss_world s1 = w1 /\ ss_world s2 = w1 /\
  ss_dialogs s2 = ss_dialogs s ++ [Dialog f (Some e) m] /\
  ss_world s3 = snd (publishCore f tnow false (modal_overrides m) w1) /\
  ss_dialogs s3 = ss_dialogs s.
Proof.
  unfold active_file, active_editor. intros Hf He. cbv zeta.
  destruct u as [[[[f'|] ed']|] l r]; cbn in Hf, He; try discriminate.
  injection Hf as <-. subst ed'. destruct s as [w ds].
  cbn [session_handle is_dialog_event negb handle run_command ss_world ss_dialogs].
  unfold bind at 1, gets. cbn -[modal_init apply_modal_edit publishCore add_notice file_cache].
  rewrite list_lookup_middle by reflexivity. cbn -[modal_init apply_modal_edit publishCore add_notice file_cache].
  rewrite insert_app_r_alt, Nat.sub_diag by lia. cbn [insert list_insert].
  rewrite list_lookup_middle by reflexivity. cbn -[modal_init apply_modal_edit publishCore add_notice file_cache].
  unfold modal_publish. cbv beta iota delta [bind ret].
  lazymatch goal with |- context [publishCore ?a ?b ?c ?d ?w0] =>
    pose proof (publishCore_ok a b c d w0) as Hok; destruct (publishCore a b c d w0) as [o w2]; cbn in Hok; subst o end.
  cbn [fst snd ss_world ss_dialogs]. rewrite delete_middle, app_nil_r.
  repeat split.
Qed.

(** ** Witness *)

Definition dialog_note : tfile := mk_tfile "notes/a.md".
Definition dialog_ui : ui := UI (Some (MdView (Some dialog_note) (Some (Editor "# Draft" [])))) [] true.

Lemma dialog_session_publish_witness :
  let s := Session (snd (onload start_world)) [] in
  let e := Editor "# Draft" [] in
  active_file dialog_ui = Some dialog_note /\ active_editor dialog_ui = Some e /\
  (let k := length (ss_dialogs s) in
   let s1 := session_handle (SHost (EvCommand dialog_ui CmdPublishCustom)) s in
   let s2 := session_handle (SDialog k (DlgEdit (EdTitle "Retitled"))) s1 in
   let s3 := session_handle (SDialog k (DlgPublish "# Final")) s2 in
   let w1 := add_notice "打开自定义发布窗口…" (ss_world s) in
   let m := apply_modal_edit (EdTitle "Retitled")
              (modal_init (w_settings w1) (ed_value e) dialog_note (frontmatter_of (file_cache dialog_note w1))) in
   ss_world s1 = w1 /\ ss_world s2 = w1 /\
   ss_dialogs s2 = ss_dialogs s ++ [Dialog dialog_note (Some e) m] /\
   ss_world s3 = snd (publishCore dialog_note "# Final" false (modal_overrides m) w1) /\
   ss_dialogs s3 = ss_dialogs s).
Proof.
  cbv zeta. split; [reflexivity|]. split; [reflexivity|].
  exact (dialog_session_publish (Session (snd (onload start_world)) []) dialog_ui dialog_note
           (Editor "# Draft" []) "Retitled" "# Final" eq_refl eq_refl).
Defined.
